(** * openclaw-feishu-media-fixer: detector, patcher and backup store

    A shallow embedding of [src/core/detector.ts], [src/core/patcher.ts] and
    [src/core/backup.ts], and of the commands that call them
    ([src/commands/check.ts], [src/commands/fix.ts] and
    [src/commands/undo.ts]).

    - A JavaScript string is the list of its UTF-16 code units ([list N]).
    - The regular expressions of the source are terms of [Regex.regex], run
      by a backtracking matcher with JavaScript's priorities (leftmost
      start, greedy quantifiers, alternatives left to right).
    - The file system is explicit state ([Fs.fs]): a finite map from paths
      to file text, with the refusals (EACCES and the like) and the
      metadata the code observes given as oracles.  A file is held as the
      text that [readFileSync(p, 'utf-8')] returns, and a copy keeps it.
    - Exceptions are values of [res]; [try]/[catch] is a [match].  The
      [async] methods run to completion and are plain functions; the
      calls of the logger are left out.
    - The functions of Node's [path] module, [JSON.parse] and the shell are
      library code and enter as the operations of the class [Node].
    - A [Date] is its time value.  [new Date] of a text is computed for
      the date-time string format of the language ([JsDate.read]); the
      time zone, and what the runtime makes of any other text, are
      operations of [Node] as well. *)

From Stdlib Require Import String Ascii Sorted.
From stdpp Require Import gmap list.

Local Open Scope N_scope.

(** ** JavaScript strings *)

Module JsString.

Abbreviation jsstring := (list N).

(** Decoding of a UTF-8 literal of this file into UTF-16 code units. *)
Definition cont (b : N) : N := N.land b 63.

Fixpoint utf8_decode (l : list N) : list N :=
  match l with
  | [] => []
  | b0 :: l1 =>
    if b0 <? 128 then b0 :: utf8_decode l1
    else if b0 <? 224 then
      match l1 with
      | b1 :: l2 => (N.land b0 31 * 64 + cont b1) :: utf8_decode l2
      | [] => [65533]
      end
    else if b0 <? 240 then
      match l1 with
      | b1 :: b2 :: l3 =>
        (N.land b0 15 * 4096 + cont b1 * 64 + cont b2) :: utf8_decode l3
      | _ => [65533]
      end
    else
      match l1 with
      | b1 :: b2 :: b3 :: l4 =>
        let cp := N.land b0 7 * 262144 + cont b1 * 4096 + cont b2 * 64 + cont b3 in
        let v := cp - 65536 in
        (55296 + v / 1024) :: (56320 + v mod 1024) :: utf8_decode l4
      | _ => [65533]
      end
  end.

Definition code_units (s : string) : jsstring :=
  utf8_decode (map N_of_ascii (list_ascii_of_string s)).

(** The code unit of a one-character ASCII literal. *)
Definition code_unit (s : string) : N :=
  match s with
  | String a _ => N_of_ascii a
  | EmptyString => 0
  end.

(** String and character literals of the source, decoded where they are
    written. *)
Abbreviation js s :=
  (ltac:(let v := eval vm_compute in (code_units s) in exact v))
  (only parsing).

Abbreviation ch s :=
  (ltac:(let v := eval vm_compute in (code_unit s) in exact v))
  (only parsing).

(** [s.startsWith(p)] *)
Fixpoint startsWith (p s : jsstring) : bool :=
  match p, s with
  | [], _ => true
  | _ :: _, [] => false
  | a :: p', b :: s' => (a =? b) && startsWith p' s'
  end.

(** [s.includes(p)] *)
Fixpoint includes (p s : jsstring) : bool :=
  startsWith p s ||
  match s with
  | [] => false
  | _ :: s' => includes p s'
  end.

(** First occurrence of [p] in [s], counted from [i]; [-1] when absent. *)
Fixpoint find_from (p s : jsstring) (i : Z) : Z :=
  if startsWith p s then i
  else match s with
       | [] => (-1)%Z
       | _ :: s' => find_from p s' (i + 1)%Z
       end.

(** [s.indexOf(p, from)]: a negative [from] is clamped to 0, one past the
    end to the length. *)
Definition indexOf (p s : jsstring) (from : Z) : Z :=
  let k := Z.to_nat (Z.min (Z.max from 0) (Z.of_nat (length s))) in
  find_from p (drop k s) (Z.of_nat k).

(** Last occurrence of [p] in [s], counted from [i]; [-1] when absent. *)
Fixpoint find_last (p s : jsstring) (i : Z) : Z :=
  let here := if startsWith p s then i else (-1)%Z in
  match s with
  | [] => here
  | _ :: s' =>
    let later := find_last p s' (i + 1)%Z in
    if (later <? 0)%Z then here else later
  end.

(** [s.lastIndexOf(p)] *)
Definition lastIndexOf (p s : jsstring) : Z := find_last p s 0.

(** [s.slice(start, end)] and [s.slice(start)]: a negative index counts
    from the end. *)
Definition rel_index (len i : Z) : Z :=
  if (i <? 0)%Z then Z.max (len + i) 0 else Z.min i len.

Definition slice (s : jsstring) (start : Z) (stop : option Z) : jsstring :=
  let len := Z.of_nat (length s) in
  let from := rel_index len start in
  let to := match stop with Some e => rel_index len e | None => len end in
  take (Z.to_nat (to - from)) (drop (Z.to_nat from) s).

(** [s.split(sep)[0]]: the text before the first occurrence of a
    non-empty [sep], the whole string when there is none. *)
Definition split_head (sep s : jsstring) : jsstring :=
  let i := find_from sep s 0 in
  if (i <? 0)%Z then s else take (Z.to_nat i) s.

(** [s.replace(/[...]/g, c)] for a class of single code units. *)
Definition replace_all (cls : N -> bool) (c : N) (s : jsstring) : jsstring :=
  map (fun x => if cls x then c else x) s.

(** White space and line terminators, as [\s] and [trim] see them. *)
Definition is_line_terminator (c : N) : bool :=
  (c =? 10) || (c =? 13) || (c =? 8232) || (c =? 8233).

Definition is_space (c : N) : bool :=
  (c =? 9) || (c =? 11) || (c =? 12) || (c =? 32) || (c =? 160) ||
  (c =? 5760) || ((8192 <=? c) && (c <=? 8202)) || (c =? 8239) ||
  (c =? 8287) || (c =? 12288) || (c =? 65279) || is_line_terminator c.

Fixpoint trimStart (s : jsstring) : jsstring :=
  match s with
  | c :: s' => if is_space c then trimStart s' else s
  | [] => []
  end.

(** [s.trim()] *)
Definition trim (s : jsstring) : jsstring :=
  reverse (trimStart (reverse (trimStart s))).

(** Truthiness of a string, and of an optional one. *)
Definition truthy (s : jsstring) : bool :=
  match s with [] => false | _ => true end.

Definition truthy_opt (o : option jsstring) : bool :=
  match o with Some s => truthy s | None => false end.

End JsString.

Import JsString.

(** ** Regular expressions *)

Module Regex.

Inductive regex : Type :=
| Empty
| Cls (p : N -> bool)
| Cat (r1 r2 : regex)
| Alt (r1 r2 : regex)
| Star (r : regex)
| Eoi.

Abbreviation chr s := (Cls (N.eqb (ch s))) (only parsing).
Abbreviation notc s := (Cls (fun c => negb (ch s =? c))) (only parsing).
Definition ws : regex := Cls is_space.
Definition dot : regex := Cls (fun c => negb (is_line_terminator c)).
Definition Plus (r : regex) : regex := Cat r (Star r).
Definition Opt (r : regex) : regex := Alt r Empty.

Fixpoint lit_units (l : jsstring) : regex :=
  match l with
  | [] => Empty
  | c :: l' => Cat (Cls (N.eqb c)) (lit_units l')
  end.

Abbreviation lit s := (lit_units (js s)) (only parsing).

Fixpoint seq (l : list regex) : regex :=
  match l with
  | [] => Empty
  | r :: l' => Cat r (seq l')
  end.

(** One greedy iteration after the other; an iteration that consumes
    nothing is rejected, as in ECMAScript.  [n] bounds the number of
    iterations by the length of the input. *)
Fixpoint star_loop {A} (body : jsstring -> (jsstring -> option A) -> option A)
    (k : jsstring -> option A) (n : nat) (s : jsstring) : option A :=
  match n with
  | O => k s
  | S n' =>
    match body s (fun s1 =>
            if (length s1 <? length s)%nat then star_loop body k n' s1
            else None) with
    | Some x => Some x
    | None => k s
    end
  end.

(** The backtracking matcher, in continuation-passing style: [bt r s k]
    matches [r] at the head of [s] and hands the rest to [k]; the first
    success in priority order is the result. *)
Fixpoint bt {A} (r : regex) (s : jsstring) (k : jsstring -> option A)
    : option A :=
  match r with
  | Empty => k s
  | Cls p =>
    match s with
    | c :: s' => if p c then k s' else None
    | [] => None
    end
  | Cat r1 r2 => bt r1 s (fun s1 => bt r2 s1 k)
  | Alt r1 r2 =>
    match bt r1 s k with
    | Some x => Some x
    | None => bt r2 s k
    end
  | Star r1 => star_loop (fun s' k' => bt r1 s' k') k (length s) s
  | Eoi => match s with [] => k s | _ :: _ => None end
  end.

(** [r.exec(s)] without the [g] flag: the text before the match, the
    match, and the text after it, for the leftmost start. *)
Fixpoint exec (r : regex) (s : jsstring)
    : option (jsstring * jsstring * jsstring) :=
  match bt r s Some with
  | Some rest => Some ([], take (length s - length rest) s, rest)
  | None =>
    match s with
    | [] => None
    | c :: s' =>
      match exec r s' with
      | Some (pre, m, post) => Some (c :: pre, m, post)
      | None => None
      end
    end
  end.

(** [r.test(s)] *)
Definition test (r : regex) (s : jsstring) : bool :=
  match exec r s with Some _ => true | None => false end.

(** [s.replace(r, f)] with a replacer function and no [g] flag. *)
Definition replace (r : regex) (f : jsstring -> jsstring) (s : jsstring)
    : jsstring :=
  match exec r s with
  | Some (pre, m, post) => pre ++ f m ++ post
  | None => s
  end.

(** The words of a regular expression: [matches r w rest] when [r] can
    consume [w] with [rest] following it in the input. *)
Inductive matches : regex -> jsstring -> jsstring -> Prop :=
| M_Empty rest : matches Empty [] rest
| M_Cls p c rest : p c = true -> matches (Cls p) [c] rest
| M_Cat r1 r2 w1 w2 rest :
    matches r1 w1 (w2 ++ rest) -> matches r2 w2 rest ->
    matches (Cat r1 r2) (w1 ++ w2) rest
| M_AltL r1 r2 w rest : matches r1 w rest -> matches (Alt r1 r2) w rest
| M_AltR r1 r2 w rest : matches r2 w rest -> matches (Alt r1 r2) w rest
| M_StarNil r rest : matches (Star r) [] rest
| M_StarCons r w1 w2 rest :
    matches r w1 (w2 ++ rest) -> matches (Star r) w2 rest ->
    matches (Star r) (w1 ++ w2) rest
| M_Eoi : matches Eoi [] [].

(** Expressions without the end-of-input assertion. *)
Fixpoint eoi_free (r : regex) : bool :=
  match r with
  | Empty | Cls _ => true
  | Cat r1 r2 | Alt r1 r2 => eoi_free r1 && eoi_free r2
  | Star r1 => eoi_free r1
  | Eoi => false
  end.

(** Syntactic facts about the words of an expression: no word holds
    the code unit [c]; no word ends with [c]; every word ends with a unit
    of one class. *)
Fixpoint excludes (c : N) (r : regex) : bool :=
  match r with
  | Empty | Eoi => true
  | Cls p => negb (p c)
  | Cat r1 r2 | Alt r1 r2 => excludes c r1 && excludes c r2
  | Star r1 => excludes c r1
  end.

Fixpoint nullable (r : regex) : bool :=
  match r with
  | Empty | Eoi | Star _ => true
  | Cls _ => false
  | Cat r1 r2 => nullable r1 && nullable r2
  | Alt r1 r2 => nullable r1 || nullable r2
  end.

Fixpoint last_excludes (c : N) (r : regex) : bool :=
  match r with
  | Empty | Eoi => true
  | Cls p => negb (p c)
  | Cat r1 r2 => last_excludes c r2 && (negb (nullable r2) || last_excludes c r1)
  | Alt r1 r2 => last_excludes c r1 && last_excludes c r2
  | Star r1 => last_excludes c r1
  end.

Definition is_Empty (r : regex) : bool :=
  match r with Empty => true | _ => false end.

Fixpoint final_class (r : regex) : option (N -> bool) :=
  match r with
  | Cls p => Some p
  | Cat r1 r2 => if is_Empty r2 then final_class r1 else final_class r2
  | _ => None
  end.

(** The expression left when the first [n] factors of a sequence are
    taken away. *)
Fixpoint strip (n : nat) (r : regex) : regex :=
  match n, r with
  | S n', Cat _ r2 => strip n' r2
  | _, _ => r
  end.

End Regex.

Import Regex.

(** ** Types ([types/index.ts]) *)

(** The outcome of code that may throw. *)
Inductive res (E A : Type) : Type :=
| Ok (a : A)
| Err (e : E).
Arguments Ok {E A} a.
Arguments Err {E A} e.

Module FixerError.
Inductive t : Set :=
| OPENCLAW_NOT_FOUND
| FILE_NOT_FOUND
| ALREADY_FIXED
| NOT_FIXED
| PERMISSION_DENIED
| PATCH_FAILED
| SERVICE_ERROR
| BACKUP_NOT_FOUND.
End FixerError.

Module CheckStatus.
Inductive t : Set :=
| HEALTHY
| FIXED
| NEEDS_FIX
| UNKNOWN
| ERROR
| OPENCLAW_NOT_FOUND
| FILE_NOT_FOUND
| READ_ERROR.
End CheckStatus.

(** A thrown value: a [FixerException] carries a code, a plain [Error] of
    the runtime does not. *)
Record exn : Type := Exn {
  exn_code : option FixerError.t;
  exn_message : jsstring
}.

Definition FixerException (c : FixerError.t) (m : jsstring) : exn :=
  Exn (Some c) m.

Record FixerErrorInfo : Type := ErrorInfo {
  code : FixerError.t;
  message : jsstring
}.

Record FixResult : Type := {
  success : bool;
  fix_message : jsstring;
  backupPath : option jsstring;
  error : option exn;
  errors : option (list FixerErrorInfo)
}.

Inductive issue_type : Set := type_error | type_warning | type_missing.

Record CheckIssue : Type := {
  issue_kind : issue_type;
  issue_code : option FixerError.t;
  issue_message : jsstring;
  issue_file : option jsstring;
  suggestion : option jsstring
}.

Record CheckResult : Type := {
  hasProblem : bool;
  needsFix : option bool;
  status : option CheckStatus.t;
  details : list jsstring;
  issues : option (list CheckIssue);
  checkedFiles : option (list jsstring);
  openclawVersion : option jsstring;
  openclawPath : option jsstring;
  targetFile : option jsstring
}.

(** A [Date] is its time value, milliseconds since the epoch. *)
Record BackupInfo : Type := {
  path : jsstring;
  originalPath : jsstring;
  createdAt : Z;
  size : Z
}.

(** ** Library code of the runtime *)

(** Node's [path] module, [JSON.parse] followed by the read of the
    [version] field ([None] when that throws), the environment variable
    [HOME] and [execSync] ([None] when the command fails).  Of [Date], the
    two things that the runtime decides: [UTC], the time value of a local
    time, which depends on the time zone, and [Date_other], what
    [new Date] makes of a text that [JsDate.read] below does not read
    ([None] for NaN), for which the language allows any heuristics and
    formats of the implementation. *)
Class Node : Type := {
  join : list jsstring -> jsstring;
  basename : jsstring -> jsstring;
  dirname : jsstring -> jsstring;
  JSON_version : jsstring -> option (option jsstring);
  env_HOME : option jsstring;
  execSync : jsstring -> option jsstring;
  UTC : Z -> Z;
  Date_other : jsstring -> option Z
}.

(** ** The file system ([fs]) *)

Module Fs.

Record Stats : Type := { birthtime : Z; st_size : Z }.

Record fs : Type := {
  files : gmap jsstring jsstring;
  dirs : gset jsstring;
  rdeny : jsstring -> option jsstring;
  wdeny : jsstring -> option jsstring;
  readdir : jsstring -> list jsstring;
  stat : jsstring -> option Stats
}.

Definition with_files (m : gmap jsstring jsstring) (s : fs) : fs :=
  {| files := m; dirs := dirs s; rdeny := rdeny s; wdeny := wdeny s;
     readdir := readdir s; stat := stat s |}.

Definition with_dirs (d : gset jsstring) (s : fs) : fs :=
  {| files := files s; dirs := d; rdeny := rdeny s; wdeny := wdeny s;
     readdir := readdir s; stat := stat s |}.

Definition existsSync (s : fs) (p : jsstring) : bool :=
  match files s !! p with
  | Some _ => true
  | None => bool_decide (p ∈ dirs s)
  end.

(** The messages of Node for a path that holds no file; [what] is the
    system call that failed, with its paths. *)
Definition ENOENT (what : jsstring) : jsstring :=
  js "ENOENT: no such file or directory, " ++ what.

Definition EISDIR (what : jsstring) : jsstring :=
  js "EISDIR: illegal operation on a directory, " ++ what.

Definition quoted (p : jsstring) : jsstring := js "'" ++ p ++ js "'".

(** The error for the path [p], which holds no file; [dir] names the
    system call that fails when [p] is a directory, [none] the one that
    fails when nothing is there. *)
Definition missing (s : fs) (p dir none : jsstring) : exn :=
  Exn None (if bool_decide (p ∈ dirs s) then EISDIR dir else ENOENT none).

(** The text of the file at [p], for the system calls that read it. *)
Definition contents (s : fs) (p dir none : jsstring) : res exn jsstring :=
  match files s !! p with
  | None => Err (missing s p dir none)
  | Some c =>
    match rdeny s p with
    | Some e => Err (Exn None e)
    | None => Ok c
    end
  end.

(** [readFileSync(p, 'utf-8')] *)
Definition readFileSync (s : fs) (p : jsstring) : res exn jsstring :=
  contents s p (js "read") (js "open " ++ quoted p).

(** [writeFileSync(p, c, 'utf-8')] *)
Definition writeFileSync (s : fs) (p c : jsstring) : res exn fs :=
  match wdeny s p with
  | Some e => Err (Exn None e)
  | None => Ok (with_files (<[p := c]> (files s)) s)
  end.

(** [copyFileSync(src, dst)] *)
Definition copyFileSync (s : fs) (src dst : jsstring) : res exn fs :=
  let what := js "copyfile " ++ quoted src ++ js " -> " ++ quoted dst in
  match contents s src what what with
  | Err e => Err e
  | Ok c => writeFileSync s dst c
  end.

(** [mkdirSync(p, { recursive: true })] *)
Definition mkdirSync (s : fs) (p : jsstring) : fs :=
  with_dirs ({[p]} ∪ dirs s) s.

(** [unlinkSync(p)] *)
Definition unlinkSync (s : fs) (p : jsstring) : res exn fs :=
  match files s !! p with
  | None =>
    Err (missing s p (js "unlink " ++ quoted p) (js "unlink " ++ quoted p))
  | Some _ =>
    match wdeny s p with
    | Some e => Err (Exn None e)
    | None => Ok (with_files (delete p (files s)) s)
    end
  end.

End Fs.

(** ** Dates *)

Module JsDate.

Local Open Scope Z_scope.

(** Days since the epoch of a civil date, and back. *)
Definition days_from_civil (y m d : Z) : Z :=
  let y' := if m <=? 2 then y - 1 else y in
  let era := y' / 400 in
  let yoe := y' - era * 400 in
  let mp := if 2 <? m then m - 3 else m + 9 in
  let doy := (153 * mp + 2) / 5 + d - 1 in
  let doe := yoe * 365 + yoe / 4 - yoe / 100 + doy in
  era * 146097 + doe - 719468.

Definition civil_from_days (z0 : Z) : Z * Z * Z :=
  let z := z0 + 719468 in
  let era := z / 146097 in
  let doe := z - era * 146097 in
  let yoe := (doe - doe / 1460 + doe / 36524 - doe / 146096) / 365 in
  let y := yoe + era * 400 in
  let doy := doe - (365 * yoe + yoe / 4 - yoe / 100) in
  let mp := (5 * doy + 2) / 153 in
  let d := doy - (153 * mp + 2) / 5 + 1 in
  let m := if mp <? 10 then mp + 3 else mp - 9 in
  ((if m <=? 2 then y + 1 else y), m, d).

Definition digit (d : Z) : N := 48 + Z.to_N (d mod 10).

(** [n] decimal digits of [v], most significant first. *)
Fixpoint pad (n : nat) (v : Z) : jsstring :=
  match n with
  | O => []
  | S n' => pad n' (v / 10) ++ [digit v]
  end.

Definition year_string (y : Z) : jsstring :=
  if (0 <=? y) && (y <=? 9999) then pad 4 y
  else if y <? 0 then ch "-" :: pad 6 (- y)
  else ch "+" :: pad 6 y.

(** [new Date(t).toISOString()] *)
Definition toISOString (t : Z) : jsstring :=
  let '(y, m, d) := civil_from_days (t / 86400000) in
  let r := t mod 86400000 in
  year_string y ++ js "-" ++ pad 2 m ++ js "-" ++ pad 2 d ++ js "T" ++
  pad 2 (r / 3600000) ++ js ":" ++ pad 2 (r / 60000 mod 60) ++ js ":" ++
  pad 2 (r / 1000 mod 60) ++ js "." ++ pad 3 (r mod 1000) ++ js "Z".

Fixpoint number (l : jsstring) (acc : Z) : option Z :=
  match l with
  | [] => Some acc
  | c :: l' =>
    if ((48 <=? c) && (c <=? 57))%N
    then number l' (10 * acc + Z.of_N (c - 48))
    else None
  end.

Definition is_leap (y : Z) : bool :=
  ((y mod 4 =? 0) && negb (y mod 100 =? 0)) || (y mod 400 =? 0).

Definition days_in_month (y m : Z) : Z :=
  if m =? 2 then (if is_leap y then 29 else 28)
  else if (m =? 4) || (m =? 6) || (m =? 9) || (m =? 11) then 30 else 31.

(** [n] digits at the head of [s]: their value and the rest. *)
Definition digits (n : nat) (s : jsstring) : option (Z * jsstring) :=
  if (n <=? length s)%nat
  then v ← number (take n s) 0; Some (v, drop n s)
  else None.

(** The unit [c] at the head of [s]: the rest. *)
Definition skip (c : N) (s : jsstring) : option jsstring :=
  match s with
  | x :: s' => if (x =? c)%N then Some s' else None
  | [] => None
  end.

(** [-MM] and [-MM-DD] after the year; month and day are 1 when they
    are not written. *)
Definition read_month_day (s : jsstring) : Z * Z * jsstring :=
  match skip (ch "-") s ≫= digits 2 with
  | Some (m, s1) =>
    match skip (ch "-") s1 ≫= digits 2 with
    | Some (d, s2) => (m, d, s2)
    | None => (m, 1, s1)
    end
  | None => (1, 1, s)
  end.

(** [THH:mm], [THH:mm:ss] or [THH:mm:ss.sss]. *)
Definition read_time (s : jsstring) : option (Z * Z * Z * Z * jsstring) :=
  s1 ← skip (ch "T") s;
  '(h, s2) ← digits 2 s1;
  s3 ← skip (ch ":") s2;
  '(mi, s4) ← digits 2 s3;
  match skip (ch ":") s4 ≫= digits 2 with
  | Some (sec, s5) =>
    match skip (ch ".") s5 ≫= digits 3 with
    | Some (f, s6) => Some (h, mi, sec, f, s6)
    | None => Some (h, mi, sec, 0, s5)
    end
  | None => Some (h, mi, 0, 0, s4)
  end.

(** The offset [Z], [+HH:mm] or [-HH:mm], in minutes east of UTC. *)
Definition read_offset (s : jsstring) : option (Z * jsstring) :=
  match s with
  | c :: s1 =>
    if (c =? ch "Z")%N then Some (0, s1)
    else if ((c =? ch "+") || (c =? ch "-"))%N then
      '(h, s2) ← digits 2 s1;
      s3 ← skip (ch ":") s2;
      '(mi, s4) ← digits 2 s3;
      if (h <=? 23) && (mi <=? 59)
      then Some ((if (c =? ch "+")%N then 1 else -1) * (h * 60 + mi), s4)
      else None
    else None
  | [] => None
  end.

(** What a text of the date-time string format denotes: a time value,
    or a local time, which the time zone of the runtime turns into one. *)
Inductive reading : Type :=
| Instant (t : Z)
| LocalTime (t : Z).

(** The date-time string format of ECMAScript with a year of four
    digits: the date [YYYY], [YYYY-MM] or [YYYY-MM-DD], alone or followed
    by the time [THH:mm], [THH:mm:ss] or [THH:mm:ss.sss] and then, if
    written, the offset [Z], [+HH:mm] or [-HH:mm].  A date alone is read in
    UTC, a date with a time and no offset as a local time.  [None] for
    every other text; what [new Date] makes of those is the runtime's
    ([Date_other]): the years written with a sign and six digits, the days
    after the end of a month, which V8 counts on into the next one, and
    what is outside the format. *)
Definition read (s : jsstring) : option reading :=
  '(y, s1) ← digits 4 s;
  let '(m, d, s2) := read_month_day s1 in
  if (1 <=? m) && (m <=? 12) && (1 <=? d) && (d <=? days_in_month y m) then
    let day := days_from_civil y m d * 86400000 in
    match s2 with
    | [] => Some (Instant day)
    | _ =>
      '(h, mi, sec, f, s3) ← read_time s2;
      if (h <=? 23) && (mi <=? 59) && (sec <=? 59) ||
         (h =? 24) && (mi =? 0) && (sec =? 0) && (f =? 0)
      then
        let t := day + h * 3600000 + mi * 60000 + sec * 1000 + f in
        match s3 with
        | [] => Some (LocalTime t)
        | _ =>
          '(offset, s4) ← read_offset s3;
          match s4 with
          | [] => Some (Instant (t - offset * 60000))
          | _ => None
          end
        end
      else None
    end
  else None.

(** The time value of a text that [read] reads as an instant, whatever
    the runtime; among these texts is every one that [toISOString] writes
    with a year of four digits. *)
Definition parse (s : jsstring) : option Z :=
  match read s with
  | Some (Instant t) => Some t
  | _ => None
  end.

End JsDate.

Import Fs.

(** The double quote, which a literal of this file cannot hold. *)
Definition dq : jsstring := [34].

Definition quote : regex := Cls (fun c => (c =? ch "'") || (c =? 34)).

(** [process.env.HOME || ''] *)
Definition home `{Node} : jsstring :=
  match env_HOME with
  | Some h => h
  | None => []
  end.

(** [new Date(str).getTime()], [None] for NaN. *)
Definition new_Date `{Node} (str : jsstring) : option Z :=
  match JsDate.read str with
  | Some (JsDate.Instant t) => Some t
  | Some (JsDate.LocalTime t) => Some (UTC t)
  | None => Date_other str
  end.

(** ** The backup store ([core/backup.ts]) *)

Module BackupManager.
Section WithNode.
Context `{Node}.

Definition DEFAULT_BACKUP_DIR : jsstring :=
  join [home; js ".openclaw-feishu-fixer"; js "backups"].

Definition ensureBackupDir (backupDir : jsstring) (s : fs) : fs :=
  if negb (existsSync s backupDir) then mkdirSync s backupDir else s.

(** [new BackupManager(backupDir)]: the manager is its directory. *)
Definition new (backupDir : option jsstring) (s : fs) : jsstring * fs :=
  let d := match backupDir with
           | Some d => if truthy d then d else DEFAULT_BACKUP_DIR
           | None => DEFAULT_BACKUP_DIR
           end in
  (d, ensureBackupDir d s).

(** The time stamp of a backup name:
    [new Date().toISOString().replace(/[:.]/g, '-')]. *)
Definition timestamp (now : Z) : jsstring :=
  replace_all (fun c => (c =? ch ":") || (c =? ch ".")) (ch "-")
    (JsDate.toISOString now).

Definition backupFileName (now : Z) (filePath : jsstring) : jsstring :=
  basename filePath ++ js ".backup-" ++ timestamp now.

Definition create (backupDir : jsstring) (now : Z) (s : fs)
    (filePath : jsstring) : res exn jsstring * fs :=
  if negb (existsSync s filePath) then
    (Err (FixerException FixerError.FILE_NOT_FOUND
            (js "文件不存在: " ++ filePath)), s)
  else
    let backupPath := join [backupDir; backupFileName now filePath] in
    match copyFileSync s filePath backupPath with
    | Ok s' => (Ok backupPath, s')
    | Err e =>
      (Err (FixerException FixerError.PERMISSION_DENIED
              (js "无法创建备份: " ++ exn_message e)), s)
    end.

Definition restore (s : fs) (backupPath targetPath : jsstring)
    : res exn unit * fs :=
  if negb (existsSync s backupPath) then
    (Err (FixerException FixerError.BACKUP_NOT_FOUND
            (js "备份文件不存在: " ++ backupPath)), s)
  else
    match copyFileSync s backupPath targetPath with
    | Ok s' => (Ok tt, s')
    | Err e =>
      (Err (FixerException FixerError.PERMISSION_DENIED
              (js "无法恢复备份: " ++ exn_message e)), s)
    end.

(** [/\.backup-(.+)$/] *)
Definition timestampPattern : regex :=
  seq [lit ".backup-"; Plus dot; Eoi].

(** The text handed to [new Date] for a file name: the first capture
    group after [.replace(/-/g, ':').replace(/-/g, '.')]. *)
Definition timestampStr (file : jsstring) : option jsstring :=
  match exec timestampPattern file with
  | Some (_, m, _) =>
    let group1 := drop 8 m in
    Some (replace_all (N.eqb (ch "-")) (ch ".")
            (replace_all (N.eqb (ch "-")) (ch ":") group1))
  | None => None
  end.

(** The [createdAt] of a listed file: the date that [new Date] reads
    from the text, if it reads one, and else the birth time. *)
Definition resolveCreatedAt (file : jsstring) (stats : Stats) : Z :=
  let createdAt := birthtime stats in
  match timestampStr file with
  | Some str =>
    match new_Date str with
    | Some parsed => parsed
    | None => createdAt
    end
  | None => createdAt
  end.

(** One round of the loop of [list]: the record pushed for [file], if
    any. *)
Definition list_entry (backupDir : jsstring) (s : fs)
    (originalFile : option jsstring) (file : jsstring)
    : option BackupInfo :=
  if negb (includes (js ".backup-") file) then None
  else
    let originalName := split_head (js ".backup-") file in
    if truthy_opt originalFile &&
       negb (bool_decide (originalName = basename (default [] originalFile)))
    then None
    else
      let backupPath := join [backupDir; file] in
      match stat s backupPath with
      | None => None
      | Some stats =>
        Some {| path := backupPath;
                originalPath :=
                  if truthy_opt originalFile then default [] originalFile
                  else join [dirname []; originalName];
                createdAt := resolveCreatedAt file stats;
                size := st_size stats |}
      end.

(** [Array.prototype.sort] is stable; the comparator is
    [(a, b) => b.createdAt.getTime() - a.createdAt.getTime()]. *)
Fixpoint insert_sorted (a : BackupInfo) (l : list BackupInfo)
    : list BackupInfo :=
  match l with
  | [] => [a]
  | b :: l' =>
    if (createdAt b - createdAt a <=? 0)%Z then a :: b :: l'
    else b :: insert_sorted a l'
  end.

Definition sort (l : list BackupInfo) : list BackupInfo :=
  foldr insert_sorted [] l.

Definition list (backupDir : jsstring) (s : fs)
    (originalFile : option jsstring) : list BackupInfo :=
  if negb (existsSync s backupDir) then []
  else sort (omap (list_entry backupDir s originalFile)
               (readdir s backupDir)).

Definition getLatestBackup (backupDir : jsstring) (s : fs)
    (originalFile : jsstring) : option BackupInfo :=
  head (list backupDir s (Some originalFile)).

Definition delete (s : fs) (backupPath : jsstring) : res exn unit * fs :=
  if negb (existsSync s backupPath) then (Ok tt, s)
  else
    match unlinkSync s backupPath with
    | Ok s' => (Ok tt, s')
    | Err e =>
      (Err (FixerException FixerError.PERMISSION_DENIED
              (js "无法删除备份: " ++ exn_message e)), s)
    end.

(** The loop of [cleanup] over the listed backups. *)
Fixpoint cleanup_loop (now maxAgeMs : Z) (backups : Datatypes.list BackupInfo)
    (deletedCount : Z) (s : fs) : res exn Z * fs :=
  match backups with
  | [] => (Ok deletedCount, s)
  | backup :: rest =>
    if (maxAgeMs <? now - createdAt backup)%Z then
      match delete s (path backup) with
      | (Ok _, s') => cleanup_loop now maxAgeMs rest (deletedCount + 1)%Z s'
      | (Err e, s') => (Err e, s')
      end
    else cleanup_loop now maxAgeMs rest deletedCount s
  end.

Definition cleanup (backupDir : jsstring) (now : Z) (s : fs) (maxAge : Z)
    (originalFile : option jsstring) : res exn Z * fs :=
  cleanup_loop now (maxAge * 24 * 60 * 60 * 1000)%Z
    (list backupDir s originalFile) 0%Z s.

End WithNode.
End BackupManager.

(** ** The detector ([core/detector.ts]) *)

Module Detector.

Definition TARGET_FILE_RELATIVE : jsstring :=
  js "extensions/feishu/src/reply-dispatcher.ts".

Definition COMPILED_FILE_RELATIVE : jsstring :=
  js "extensions/feishu/dist/reply-dispatcher.js".

(** [/import\s*\{[^}]*sendMediaFeishu[^}]*\}\s*from\s*['"]\.\/media\.js['"]/] *)
Definition MEDIA_IMPORT_PATTERN : regex :=
  seq [lit "import"; Star ws; chr "{"; Star (notc "}");
       lit "sendMediaFeishu"; Star (notc "}"); chr "}"; Star ws;
       lit "from"; Star ws; quote; lit "./media.js"; quote].

(** [/payload\.mediaUrls\?\.length/] *)
Definition MEDIA_LOGIC_PATTERN : regex := lit "payload.mediaUrls?.length".

(** [/await\s+sendMediaFeishu\s*\(/] *)
Definition SEND_MEDIA_CALL_PATTERN : regex :=
  seq [lit "await"; Plus ws; lit "sendMediaFeishu"; Star ws; chr "("].

(** [/deliver:\s*async\s*\(payload:\s*ReplyPayload/] *)
Definition DELIVER_FUNCTION_PATTERN : regex :=
  seq [lit "deliver:"; Star ws; lit "async"; Star ws; lit "(payload:";
       Star ws; lit "ReplyPayload"].

Section WithNode.
Context `{Node}.

Definition OPENCLAW_PATHS : list jsstring :=
  [ join [home; js ".npm-global"; js "lib"; js "node_modules"; js "openclaw"];
    join [home; js ".openclaw"];
    join [home; js ".openclaw"; js "workspace"];
    js "/usr/local/lib/node_modules/openclaw";
    js "/usr/lib/node_modules/openclaw" ].

Definition has_manifest (s : fs) (p : jsstring) : bool :=
  existsSync s (join [p; js "package.json"]).

Definition locate_by_which (s : fs) : option jsstring :=
  match execSync (js "which openclaw-gateway 2>/dev/null") with
  | Some out =>
    let result := trim out in
    if truthy result then
      let binDir := join [result; js ".."] in
      let nodeModulesDir := join [binDir; js ".."] in
      if has_manifest s nodeModulesDir then Some nodeModulesDir else None
    else None
  | None => None
  end.

Definition locate_by_npm_root (s : fs) : option jsstring :=
  match execSync (js "npm root -g 2>/dev/null") with
  | Some out =>
    let openclawPath := join [trim out; js "openclaw"] in
    if has_manifest s openclawPath then Some openclawPath else None
  | None => None
  end.

Definition locateOpenClaw (s : fs) : option jsstring :=
  match find (has_manifest s) OPENCLAW_PATHS with
  | Some p => Some p
  | None =>
    match locate_by_which s with
    | Some p => Some p
    | None => locate_by_npm_root s
    end
  end.

Definition version_from_file (s : fs) (openclawPath : jsstring)
    : option jsstring :=
  let versionPath := join [openclawPath; js "VERSION"] in
  if existsSync s versionPath then
    match readFileSync s versionPath with
    | Ok c => Some (trim c)
    | Err _ => None
    end
  else None.

Definition getOpenClawVersion (s : fs) (openclawPath : option jsstring)
    : option jsstring :=
  if negb (truthy_opt openclawPath) then None
  else
    let p := default [] openclawPath in
    let packageJsonPath := join [p; js "package.json"] in
    let parsed :=
      if existsSync s packageJsonPath then
        match readFileSync s packageJsonPath with
        | Ok content => JSON_version content
        | Err _ => None
        end
      else None in
    match parsed with
    | Some v => if truthy_opt v then v else None
    | None => version_from_file s p
    end.

Definition locateTargetFile (s : fs) (openclawPath : option jsstring)
    : option jsstring :=
  if negb (truthy_opt openclawPath) then None
  else
    let p := default [] openclawPath in
    let tsPath := join [p; TARGET_FILE_RELATIVE] in
    if existsSync s tsPath then Some tsPath
    else
      let jsPath := join [p; COMPILED_FILE_RELATIVE] in
      if existsSync s jsPath then Some jsPath else None.

Definition missing_import_issue (file : jsstring) : CheckIssue :=
  {| issue_kind := type_missing;
     issue_code := Some FixerError.NOT_FIXED;
     issue_message := js "缺少 sendMediaFeishu 导入语句";
     issue_file := Some file;
     suggestion := Some (js "需要添加: import { sendMediaFeishu } from " ++
                         dq ++ js "./media.js" ++ dq ++ js ";") |}.

Definition missing_logic_issue (file : jsstring) : CheckIssue :=
  {| issue_kind := type_missing;
     issue_code := Some FixerError.NOT_FIXED;
     issue_message := js "缺少媒体发送逻辑";
     issue_file := Some file;
     suggestion := Some (js "需要在 deliver 函数开头添加媒体发送代码") |}.

Definition missing_call_issue (file : jsstring) : CheckIssue :=
  {| issue_kind := type_warning;
     issue_code := Some FixerError.NOT_FIXED;
     issue_message := js "缺少 sendMediaFeishu 函数调用";
     issue_file := Some file;
     suggestion := Some (js "需要调用 sendMediaFeishu 函数发送媒体") |}.

(** Steps 5 to 8 of [check], on the text read from the target file. *)
Definition classify (openclawPath version : option jsstring)
    (file content : jsstring) : CheckResult :=
  let hasMediaImport := test MEDIA_IMPORT_PATTERN content in
  let issues1 := if negb hasMediaImport then [missing_import_issue file] else [] in
  let hasMediaLogic := test MEDIA_LOGIC_PATTERN content in
  let issues2 := if negb hasMediaLogic then issues1 ++ [missing_logic_issue file]
                 else issues1 in
  let hasSendMediaCall := test SEND_MEDIA_CALL_PATTERN content in
  let issues3 := if negb hasSendMediaCall && hasMediaLogic
                 then issues2 ++ [missing_call_issue file] else issues2 in
  let isFixed := hasMediaImport && hasMediaLogic && hasSendMediaCall in
  let details :=
    if isFixed then
      [js "OpenClaw 飞书图片发送功能已正常配置"; js "媒体发送功能已启用"]
    else
      [js "OpenClaw 飞书图片发送功能需要修复"] ++
      (if negb hasMediaImport then [js "- 缺少 sendMediaFeishu 导入语句"] else []) ++
      (if negb hasMediaLogic then [js "- 缺少媒体发送逻辑"] else []) ++
      (if negb hasSendMediaCall && hasMediaLogic
       then [js "- 缺少 sendMediaFeishu 函数调用"] else []) in
  {| hasProblem := negb isFixed;
     needsFix := Some (negb isFixed);
     status := Some (if isFixed then CheckStatus.FIXED
                     else CheckStatus.NEEDS_FIX);
     details := details;
     issues := Some issues3;
     checkedFiles := Some [file];
     openclawVersion := version;
     openclawPath := openclawPath;
     targetFile := Some file |}.

Definition check (s : fs) : CheckResult :=
  let openclawPath := locateOpenClaw s in
  if negb (truthy_opt openclawPath) then
    {| hasProblem := true;
       needsFix := Some false;
       status := Some CheckStatus.OPENCLAW_NOT_FOUND;
       details := [js "未找到 OpenClaw 安装路径，请确认 OpenClaw 已正确安装"];
       issues := Some
         [{| issue_kind := type_error;
             issue_code := Some FixerError.OPENCLAW_NOT_FOUND;
             issue_message := js "未找到 OpenClaw 安装路径";
             issue_file := None;
             suggestion := Some (js "请使用 npm install -g openclaw 安装 OpenClaw") |}];
       checkedFiles := None;
       openclawVersion := None;
       openclawPath := None;
       targetFile := None |}
  else
    let version := getOpenClawVersion s openclawPath in
    let target := locateTargetFile s openclawPath in
    if negb (truthy_opt target) then
      {| hasProblem := true;
         needsFix := Some false;
         status := Some CheckStatus.FILE_NOT_FOUND;
         details := [js "未找到目标文件: extensions/feishu/src/reply-dispatcher.ts"];
         issues := Some
           [{| issue_kind := type_error;
               issue_code := Some FixerError.FILE_NOT_FOUND;
               issue_message := js "未找到目标文件 reply-dispatcher.ts";
               issue_file := None;
               suggestion := Some (js "请确认 OpenClaw 版本是否兼容（需要 2026.2.x 版本）") |}];
         checkedFiles := None;
         openclawVersion := version;
         openclawPath := openclawPath;
         targetFile := None |}
    else
      let file := default [] target in
      match readFileSync s file with
      | Err _ =>
        {| hasProblem := true;
           needsFix := Some false;
           status := Some CheckStatus.READ_ERROR;
           details := [js "无法读取目标文件内容"];
           issues := Some
             [{| issue_kind := type_error;
                 issue_code := Some FixerError.PERMISSION_DENIED;
                 issue_message := js "无法读取目标文件内容";
                 issue_file := Some file;
                 suggestion := None |}];
           checkedFiles := Some [file];
           openclawVersion := version;
           openclawPath := openclawPath;
           targetFile := Some file |}
      | Ok content => classify openclawPath version file content
      end.

Definition validateContent (content : jsstring) : bool * list jsstring :=
  let errors1 :=
    if negb (includes (js "from " ++ dq ++ js "openclaw/plugin-sdk" ++ dq) content)
    then [js "文件格式异常：缺少 openclaw/plugin-sdk 导入"] else [] in
  let errors2 :=
    if negb (test DELIVER_FUNCTION_PATTERN content)
    then errors1 ++ [js "文件格式异常：未找到 deliver 函数定义"] else errors1 in
  (bool_decide (length errors2 = 0%nat), errors2).

End WithNode.
End Detector.

(** ** The patcher ([core/patcher.ts]) *)

Module Patcher.

Definition nl : jsstring := [10].

Definition MEDIA_IMPORT : jsstring :=
  js "import { sendMediaFeishu } from " ++ dq ++ js "./media.js" ++ dq ++ js ";".

Definition MEDIA_LOGIC : jsstring := js "
  // 先发送媒体（图片/文件）- 由 openclaw-feishu-media-fixer 添加
  if (payload.mediaUrls?.length) {
    for (const mediaUrl of payload.mediaUrls) {
      try {
        await sendMediaFeishu({
          cfg,
          to: chatId,
          mediaUrl,
          replyToMessageId,
          accountId,
        });
        params.runtime.log?.(`feishu[${account.accountId}]: sent media: ${mediaUrl}`);
      } catch (error) {
        params.runtime.error?.(
          `feishu[${account.accountId}]: failed to send media ${mediaUrl}: ${String(error)}`,
        );
      }
    }
  }
".

(** [/import\s*\{[^}]*sendMarkdownCardFeishu[^}]*\}\s*from\s*['"]\.\/send\.js['"]/] *)
Definition importAnchor : regex :=
  seq [lit "import"; Star ws; chr "{"; Star (notc "}");
       lit "sendMarkdownCardFeishu"; Star (notc "}"); chr "}"; Star ws;
       lit "from"; Star ws; quote; lit "./send.js"; quote].

(** [/deliver:\s*async\s*\(\s*payload\s*:\s*ReplyPayload/] *)
Definition deliverAnchor : regex :=
  seq [lit "deliver:"; Star ws; lit "async"; Star ws; chr "("; Star ws;
       lit "payload"; Star ws; chr ":"; Star ws; lit "ReplyPayload"].

(** [/deliver:\s*async\s*\([^)]*\)\s*(?::\s*[^=]+)?\s*=>\s*\{/] *)
Definition fullPattern : regex :=
  seq [lit "deliver:"; Star ws; lit "async"; Star ws; chr "(";
       Star (notc ")"); chr ")"; Star ws;
       Opt (seq [chr ":"; Star ws; Plus (notc "=")]);
       Star ws; lit "=>"; Star ws; chr "{"].

Definition has_import_words (content : jsstring) : bool :=
  includes (js "sendMediaFeishu") content && includes (js "./media.js") content.

Definition addImport (content : jsstring) : res exn jsstring :=
  if has_import_words content then Ok content
  else if test importAnchor content then
    Ok (replace importAnchor (fun m => m ++ nl ++ MEDIA_IMPORT) content)
  else
    let lastImportIndex := lastIndexOf (js "import ") content in
    let nextNewlineIndex := indexOf nl content lastImportIndex in
    if negb (nextNewlineIndex =? -1)%Z then
      Ok (slice content 0 (Some (nextNewlineIndex + 1)%Z) ++
          MEDIA_IMPORT ++ nl ++
          slice content (nextNewlineIndex + 1)%Z None)
    else
      Err (FixerException FixerError.PATCH_FAILED
             (js "无法找到合适的位置添加 import 语句")).

Definition addMediaLogic (content : jsstring) : res exn jsstring :=
  if includes (js "payload.mediaUrls?.length") content then Ok content
  else if test deliverAnchor content then
    if test fullPattern content then
      Ok (replace fullPattern (fun m => m ++ MEDIA_LOGIC) content)
    else
      Err (FixerException FixerError.PATCH_FAILED
             (js "无法解析 deliver 函数结构"))
  else
    Err (FixerException FixerError.PATCH_FAILED
           (js "无法找到 deliver 函数定义")).

Definition verify (content : jsstring) : bool :=
  let hasImport := has_import_words content in
  let hasMediaLogic := includes (js "payload.mediaUrls?.length") content in
  let hasSendCall := includes (js "await sendMediaFeishu") content in
  let hasMarker := includes (js "openclaw-feishu-media-fixer") content in
  hasImport && hasMediaLogic && hasSendCall && hasMarker.

(** Steps 1 to 3 of the [try] block of [apply]. *)
Definition patch (content : jsstring) : res exn jsstring :=
  match addImport content with
  | Err e => Err e
  | Ok c1 =>
    match addMediaLogic c1 with
    | Err e => Err e
    | Ok c2 =>
      if negb (verify c2) then
        Err (FixerException FixerError.PATCH_FAILED
               (js "补丁验证失败，修复后的代码不包含预期的内容"))
      else Ok c2
    end
  end.

Definition failure (c : FixerError.t) (msg detail : jsstring)
    (e : option exn) (bp : option jsstring) : FixResult :=
  {| success := false;
     fix_message := msg;
     backupPath := bp;
     error := e;
     errors := Some [ErrorInfo c detail] |}.

Section WithNode.
Context `{Node}.

(** The [catch] block of [apply]: restore the backup when there is one
    (a failure to restore is only logged), then report. *)
Definition rollback (s : fs) (targetFile : jsstring)
    (backupPath : option jsstring) (e : exn) : FixResult * fs :=
  let s' := if truthy_opt backupPath
            then snd (BackupManager.restore s (default [] backupPath) targetFile)
            else s in
  let msg := js "应用补丁失败: " ++ exn_message e in
  (failure FixerError.PATCH_FAILED msg msg (Some e) backupPath, s').

(** [apply(checkResult, { noBackup })] of a patcher whose backup manager
    keeps its copies in [backupDir], run at time [now] on the file
    system [s]. *)
Definition apply (backupDir : jsstring) (now : Z) (s : fs)
    (checkResult : CheckResult) (noBackup : bool) : FixResult * fs :=
  if negb (truthy_opt (targetFile checkResult)) then
    (failure FixerError.FILE_NOT_FOUND (js "未找到目标文件")
       (js "未找到目标文件") None None, s)
  else if negb (hasProblem checkResult) then
    (failure FixerError.ALREADY_FIXED (js "已经修复过了，无需重复修复")
       (js "已经修复过了") None None, s)
  else
    let targetFile := default [] (targetFile checkResult) in
    if negb (existsSync s targetFile) then
      let msg := js "目标文件不存在: " ++ targetFile in
      (failure FixerError.FILE_NOT_FOUND msg msg None None, s)
    else
      match readFileSync s targetFile with
      | Err e =>
        let msg := js "无法读取文件: " ++ exn_message e in
        (failure FixerError.PERMISSION_DENIED msg msg (Some e) None, s)
      | Ok content =>
        let backup :=
          if negb noBackup then
            match BackupManager.create backupDir now s targetFile with
            | (Ok bp, s1) => Ok (Some bp, s1)
            | (Err e, _) => Err e
            end
          else Ok (None, s) in
        match backup with
        | Err e =>
          let msg := js "备份失败: " ++ exn_message e in
          (failure FixerError.PERMISSION_DENIED msg msg (Some e) None, s)
        | Ok (backupPath, s1) =>
          match patch content with
          | Err e => rollback s1 targetFile backupPath e
          | Ok content' =>
            match writeFileSync s1 targetFile content' with
            | Err e => rollback s1 targetFile backupPath e
            | Ok s2 =>
              ({| success := true;
                  fix_message := js "修复补丁应用成功";
                  backupPath := backupPath;
                  error := None;
                  errors := None |}, s2)
            end
          end
        end
      end.

End WithNode.
End Patcher.

(** ** A runtime and file systems for the examples *)

Module Sample.

(** A plain reading of the [path] functions on absolute POSIX paths
    without [.] and [..] segments: [join] puts a slash between the
    non-empty parts, [basename] is the text after the last slash,
    [dirname] the text before it.  The runtime of the examples keeps its
    clock in UTC, and its [Date] knows no format beyond the date-time
    string format. *)
Fixpoint join_parts (l : list jsstring) : jsstring :=
  match l with
  | [] => []
  | a :: l' =>
    let rest := join_parts l' in
    if truthy a then (if truthy rest then a ++ js "/" ++ rest else a)
    else rest
  end.

Fixpoint last_segment (s cur : jsstring) : jsstring :=
  match s with
  | [] => cur
  | c :: s' => if c =? 47 then last_segment s' [] else last_segment s' (cur ++ [c])
  end.

Definition base (s : jsstring) : jsstring := last_segment s [].

Definition dir (s : jsstring) : jsstring :=
  take (length s - length (base s) - 1) s.

Definition node : Node :=
  {| join := join_parts;
     basename := base;
     dirname := dir;
     JSON_version := fun _ => None;
     env_HOME := Some (js "/home/u");
     execSync := fun _ => None;
     UTC := fun t => t;
     Date_other := fun _ => None |}.

Definition install : jsstring := js "/usr/lib/node_modules/openclaw".

Definition target : jsstring :=
  js "/usr/lib/node_modules/openclaw/extensions/feishu/src/reply-dispatcher.ts".

Definition backups : jsstring := js "/home/u/.openclaw-feishu-fixer/backups".

(** 2026-02-25T10:30:00.123Z *)
Definition now : Z := 1772015400123.

(** A file system that holds the manifest of the installation and the
    target file with the text [content], and sets the refusals [rd] and
    [wr]. *)
Definition disk (content : jsstring) (rd wr : jsstring -> option jsstring)
    : fs :=
  {| files := <[js "/usr/lib/node_modules/openclaw/package.json" := js "{}"]>
                (<[target := content]> ∅);
     dirs := {[backups]};
     rdeny := rd;
     wdeny := wr;
     readdir := fun _ => [];
     stat := fun _ => None |}.

Definition allow : jsstring -> option jsstring := fun _ => None.

Definition EACCES : jsstring := js "EACCES: permission denied".

(** The refusal of every path below [/usr], which belongs to another
    user. *)
Definition below_usr (p : jsstring) : option jsstring :=
  if startsWith (js "/usr/") p then Some EACCES else None.

(** The refusal of every path below the backup directory. *)
Definition below_backups (p : jsstring) : option jsstring :=
  if startsWith backups p then Some EACCES else None.

(** A reply dispatcher as the host ships it. *)
Definition unpatched : jsstring := js "import { sendMarkdownCardFeishu } from './send.js';
export function createDispatcher(params) {
  return {
    deliver: async (payload: ReplyPayload) => {
      await sendMarkdownCardFeishu(payload);
    },
  };
}
".

(** A dispatcher patched by hand: the logic block of the fixer was pasted
    in, and the helper is loaded by a dynamic import. *)
Definition hand_patched : jsstring := js "import { sendMarkdownCardFeishu } from './send.js';
export function createDispatcher(params) {
  return {
    deliver: async (payload: ReplyPayload) => {
      const { sendMediaFeishu } = await import('./media.js');
      // openclaw-feishu-media-fixer
      if (payload.mediaUrls?.length) {
        for (const mediaUrl of payload.mediaUrls) {
          await sendMediaFeishu({ cfg, to: chatId, mediaUrl });
        }
      }
      await sendMarkdownCardFeishu(payload);
    },
  };
}
".

(** A host version whose handler is a method, with the logic block
    pasted in by hand and no import of the helper. *)
Definition method_form : jsstring := js "import { sendMarkdownCardFeishu } from './send.js';
export const dispatcher = {
  async deliver(payload) {
    // openclaw-feishu-media-fixer
    if (payload.mediaUrls?.length) {
      for (const mediaUrl of payload.mediaUrls) {
        await sendMediaFeishu({ cfg, to: chatId, mediaUrl });
      }
    }
    await sendMarkdownCardFeishu(payload);
  },
};
".

(** A hand edit that kept the test of the media list and dropped the
    call. *)
Definition partial_patch : jsstring := js "import { sendMarkdownCardFeishu } from './send.js';
export function createDispatcher(params) {
  return {
    deliver: async (payload: ReplyPayload) => {
      if (payload.mediaUrls?.length) {
        params.runtime.log?.('media skipped');
      }
      await sendMarkdownCardFeishu(payload);
    },
  };
}
".

(** A file without any import and without the anchor. *)
Definition no_import : jsstring := js "const a = 1;
const b = 2;
".

(** The text of [unpatched] after the import step, and after the two
    insertions. *)
Definition with_import : jsstring :=
  Eval vm_compute in
    match Patcher.addImport unpatched with
    | Ok c => c
    | Err _ => []
    end.

Definition patched : jsstring :=
  Eval vm_compute in
    match Patcher.patch unpatched with
    | Ok c => c
    | Err _ => []
    end.

(** A file system without the host application. *)
Definition empty_disk : fs :=
  {| files := ∅;
     dirs := {[backups]};
     rdeny := allow;
     wdeny := allow;
     readdir := fun _ => [];
     stat := fun _ => None |}.

(** The installation after its target file has gone. *)
Definition disk_without_target : fs :=
  {| files := {[js "/usr/lib/node_modules/openclaw/package.json" := js "{}"]};
     dirs := {[backups]};
     rdeny := allow;
     wdeny := allow;
     readdir := fun _ => [];
     stat := fun _ => None |}.

(** The name that [create] gives, at [now], to the backup of the target
    file, and a file system that lists this backup; the copy was made
    again later, so the file is younger than its name says. *)
Definition backup_name : jsstring :=
  js "reply-dispatcher.ts.backup-2026-02-25T10-30-00-123Z".

Definition copied_later : Stats :=
  {| birthtime := 1772100000000; st_size := 321 |}.

Definition disk_with_backup : fs :=
  {| files := ∅;
     dirs := {[backups]};
     rdeny := allow;
     wdeny := allow;
     readdir := fun _ => [backup_name];
     stat := fun _ => Some copied_later |}.

End Sample.

(** ** Predicates used in the statements *)

Section Predicates.
Context `{Node}.

(** The state in which [apply] starts to patch: no backup and the file
    system as found, or the backup and the file system after [create]. *)
Definition backed_up (backupDir : jsstring) (now : Z) (s : fs) (t : jsstring)
    (noBackup : bool) (backupPath : option jsstring) (s1 : fs) : Prop :=
  (noBackup = true /\ backupPath = None /\ s1 = s) \/
  (noBackup = false /\ exists bp, backupPath = Some bp /\
     BackupManager.create backupDir now s t = (Ok bp, s1)).

End Predicates.

(** ** The commands ([commands/check.ts], [commands/fix.ts],
    [commands/undo.ts]) *)

(** A command is the exit code it returns and the file system it leaves.
    The lines it prints are left out, but for the state line of
    [runCheck]; so is the restart of the gateway at the end of [runFix]
    and [runUndo], which talks to systemd, reads and writes no file, and
    whose outcome only selects a line to print.  The instants are the
    readings of the clock by the calls of [create].  A backup directory
    that cannot be made or listed is outside the file systems modelled,
    and with it the exit code 2 of the outer [catch]: the statements about
    the commands assume the directory in place, as it is once the module
    [backup.ts] is loaded, and say what holds of a run that ends with a
    given exit code. *)
Module Commands.
Section WithNode.
Context `{Node}.

(** [result.details.some(d => d.includes('已正常配置') ||
    d.includes('已经应用'))] *)
Definition says_configured (details : list jsstring) : bool :=
  existsb (fun d => includes (js "已正常配置") d || includes (js "已经应用") d)
    details.

(** The exit code of [runCheck] and the state line it prints. *)
Definition runCheck (s : fs) : Z * jsstring :=
  let result := Detector.check s in
  if hasProblem result then
    (1%Z, if default false (needsFix result)
          then js "  状态: 需要修复" else js "  状态: 无法自动修复")
  else
    (0%Z,
     if match status result with Some CheckStatus.FIXED => true | _ => false end
        || says_configured (details result)
     then js "  状态: 已修复"
     else if match status result with
             | Some CheckStatus.HEALTHY => true
             | _ => false
             end
     then js "  状态: 健康"
     else js "  状态: 未知").

(** [runFix({ noBackup, force })]; [t1] is the instant of the backup of
    step 2, [t2] that of the backup [apply] makes. *)
Definition runFix (noBackup force : bool) (t1 t2 : Z) (s : fs) : Z * fs :=
  let checkResult := Detector.check s in
  if negb (truthy_opt (openclawPath checkResult)) then (1%Z, s)
  else if negb (truthy_opt (targetFile checkResult)) then (1%Z, s)
  else if negb (hasProblem checkResult) && negb force then (0%Z, s)
  else
    let target := default [] (targetFile checkResult) in
    let (backupDir, s0) := BackupManager.new None s in
    let made :=
      if negb noBackup then
        match BackupManager.create backupDir t1 s0 target with
        | (Ok bp, s1) => Ok (Some bp, s1)
        | (Err e, _) => Err e
        end
      else Ok (None, s0) in
    match made with
    | Err _ => (1%Z, s0)
    | Ok (backupPath, s1) =>
      let (fixResult, s2) :=
        Patcher.apply backupDir t2 s1 checkResult noBackup in
      if negb (success fixResult) then
        (1%Z,
         if truthy_opt backupPath
         then snd (BackupManager.restore s2 (default [] backupPath) target)
         else s2)
      else (0%Z, s2)
    end.

(** [runUndo({ deleteBackup })] *)
Definition runUndo (deleteBackup : bool) (s : fs) : Z * fs :=
  let checkResult := Detector.check s in
  if negb (truthy_opt (openclawPath checkResult)) then (1%Z, s)
  else if negb (truthy_opt (targetFile checkResult)) then (1%Z, s)
  else
    let target := default [] (targetFile checkResult) in
    let (backupDir, s0) := BackupManager.new None s in
    match BackupManager.list backupDir s0 (Some target) with
    | [] => (1%Z, s0)
    | latestBackup :: _ =>
      match BackupManager.restore s0 (path latestBackup) target with
      | (Err _, _) => (1%Z, s0)
      | (Ok _, s1) =>
        (0%Z,
         if deleteBackup
         then snd (BackupManager.delete s1 (path latestBackup))
         else s1)
      end
    end.

End WithNode.
End Commands.

(** ** A backup directory for the examples *)

Module Archive.
Import Sample.

(** Three entries of the backup directory: two copies of the target
    file, the first one the older, and a file that is no backup. *)
Definition older : jsstring :=
  js "reply-dispatcher.ts.backup-2026-02-25T10-30-00-123Z".

Definition newer : jsstring :=
  js "reply-dispatcher.ts.backup-2026-02-26T10-00-00-000Z".

Definition notes : jsstring := js "notes.txt".

Definition older_path : jsstring := backups ++ js "/" ++ older.
Definition newer_path : jsstring := backups ++ js "/" ++ newer.

(** 2026-02-25T10:30:00.123Z and 2026-02-26T10:00:00.000Z *)
Definition older_birth : Z := 1772015400123.
Definition newer_birth : Z := 1772100000000.

Definition stats_of (p : jsstring) : option Stats :=
  if bool_decide (p = older_path)
  then Some {| birthtime := older_birth; st_size := 321 |}
  else if bool_decide (p = newer_path)
  then Some {| birthtime := newer_birth; st_size := 999 |}
  else None.

(** The installation with the target text [content], and the backup
    directory with the unpatched text in both copies. *)
Definition shelf (content : jsstring) (rd wr : jsstring -> option jsstring)
    : fs :=
  {| files := <[older_path := unpatched]>
                (<[newer_path := unpatched]>
                   (<[js "/usr/lib/node_modules/openclaw/package.json" := js "{}"]>
                      (<[target := content]> ∅)));
     dirs := {[backups]};
     rdeny := rd;
     wdeny := wr;
     readdir := fun p => if bool_decide (p = backups)
                         then [older; notes; newer] else [];
     stat := stats_of |}.

(** A dispatcher that loads its types from the plug-in SDK. *)
Definition typed : jsstring :=
  js "import type { ReplyPayload } from " ++ dq ++ js "openclaw/plugin-sdk" ++
  dq ++ js ";" ++ Patcher.nl ++ unpatched.

(** Two days and an hour after the older copy was made:
    2026-02-27T11:30:00.123Z. *)
Definition later : Z := 1772191800123.

(** A third copy, named by hand with the year alone.  It holds the text
    patched by hand and is the last one made, at 2026-02-27T00:00:00.000Z;
    the text [2026] of its name reads as 2026-01-01T00:00:00.000Z. *)
Definition by_year : jsstring := js "reply-dispatcher.ts.backup-2026".

Definition by_year_path : jsstring := backups ++ js "/" ++ by_year.

Definition by_year_birth : Z := 1772150400000.

Definition new_year : Z := 1767225600000.

(** The backup directory of [shelf] with the third copy as its first
    entry. *)
Definition loft (content : jsstring) (rd wr : jsstring -> option jsstring)
    : fs :=
  {| files := <[by_year_path := hand_patched]> (files (shelf content rd wr));
     dirs := {[backups]};
     rdeny := rd;
     wdeny := wr;
     readdir := fun p => if bool_decide (p = backups)
                         then [by_year; older; notes; newer] else [];
     stat := fun p => if bool_decide (p = by_year_path)
                      then Some {| birthtime := by_year_birth;
                                   st_size := 640 |}
                      else stats_of p |}.

(** A file whose own name holds [.backup-], the name that [create]
    gives to its backup at [now], and a backup directory that holds this
    backup and nothing else. *)
Definition renamed : jsstring := js "/srv/app/reply.backup-old.ts".

Definition renamed_copy : jsstring :=
  js "reply.backup-old.ts.backup-2026-02-25T10-30-00-123Z".

Definition crate : fs :=
  {| files := <[backups ++ js "/" ++ renamed_copy := unpatched]>
                (<[renamed := unpatched]> ∅);
     dirs := {[backups]};
     rdeny := allow;
     wdeny := allow;
     readdir := fun p => if bool_decide (p = backups)
                         then [renamed_copy] else [];
     stat := fun p => if bool_decide (p = backups ++ js "/" ++ renamed_copy)
                      then Some {| birthtime := now; st_size := 321 |}
                      else None |}.

End Archive.

(** * Properties *)

(** ** The matcher and the words of an expression *)

Section MatcherFacts.

Lemma star_loop_sound {A} (body : jsstring -> (jsstring -> option A) -> option A)
    (r : regex) (k : jsstring -> option A) :
  (forall s k' x, body s k' = Some x ->
     exists w rest, s = w ++ rest /\ matches r w rest /\ k' rest = Some x) ->
  forall n s x, star_loop body k n s = Some x ->
    exists w rest, s = w ++ rest /\ matches (Star r) w rest /\ k rest = Some x.
Proof.
  intros Hbody n. induction n as [|n IH]; intros s x Hs; simpl in Hs.
  - exists [], s. repeat split; [constructor | done].
  - destruct (body s _) as [y|] eqn:Hb.
    + injection Hs as ->.
      apply Hbody in Hb as (w1 & rest1 & -> & Hm1 & Hk).
      destruct (_ <? _)%nat; [|done].
      apply IH in Hk as (w2 & rest & -> & Hm2 & Hk).
      exists (w1 ++ w2), rest. rewrite <- (assoc_L (++)).
      repeat split; [by constructor | done].
    + exists [], s. repeat split; [constructor | done].
Qed.

Lemma bt_sound {A} (r : regex) :
  forall s (k : jsstring -> option A) x, bt r s k = Some x ->
    exists w rest, s = w ++ rest /\ matches r w rest /\ k rest = Some x.
Proof.
  induction r as [|p|r1 IH1 r2 IH2|r1 IH1 r2 IH2|r IH|]; intros s k x Hs; simpl in Hs.
  - exists [], s. repeat split; [constructor | done].
  - destruct s as [|c s']; [done|]. destruct (p c) eqn:Hp; [|done].
    exists [c], s'. repeat split; [by constructor | done].
  - apply IH1 in Hs as (w1 & rest1 & -> & Hm1 & Hs).
    apply IH2 in Hs as (w2 & rest & -> & Hm2 & Hk).
    exists (w1 ++ w2), rest. rewrite <- (assoc_L (++)).
    repeat split; [by constructor | done].
  - destruct (bt r1 s k) as [y|] eqn:H1.
    + injection Hs as ->. apply IH1 in H1 as (w & rest & -> & Hm & Hk).
      exists w, rest. repeat split; [by apply M_AltL | done].
    + apply IH2 in Hs as (w & rest & -> & Hm & Hk).
      exists w, rest. repeat split; [by apply M_AltR | done].
  - eapply star_loop_sound; [|exact Hs]. intros s0 k' y. apply IH.
  - destruct s; [|done]. exists [], []. repeat split; [constructor | done].
Qed.

Lemma star_loop_nil {A} (body : jsstring -> (jsstring -> option A) -> option A)
    (k : jsstring -> option A) n s :
  is_Some (k s) -> is_Some (star_loop body k n s).
Proof.
  intros Hk. destruct n; simpl; [done|]. by destruct (body s _).
Qed.

Lemma matches_Empty_inv w rest : matches Empty w rest -> w = [].
Proof. by inversion 1. Qed.

Lemma matches_Cls_inv p w rest :
  matches (Cls p) w rest -> exists c, w = [c] /\ p c = true.
Proof. inversion 1; subst; eauto. Qed.

Lemma matches_Cat_inv r1 r2 w rest :
  matches (Cat r1 r2) w rest ->
  exists w1 w2, w = w1 ++ w2 /\ matches r1 w1 (w2 ++ rest) /\ matches r2 w2 rest.
Proof. inversion 1; subst; eauto. Qed.

Lemma matches_Alt_inv r1 r2 w rest :
  matches (Alt r1 r2) w rest -> matches r1 w rest \/ matches r2 w rest.
Proof. inversion 1; subst; eauto. Qed.

Lemma matches_Eoi_inv w rest : matches Eoi w rest -> w = [] /\ rest = [].
Proof. by inversion 1. Qed.

Lemma bt_complete (r : regex) :
  forall w rest, matches r w rest ->
  forall A (k : jsstring -> option A), is_Some (k rest) ->
    is_Some (bt r (w ++ rest) k).
Proof.
  induction r as [|p|r1 IH1 r2 IH2|r1 IH1 r2 IH2|r IH|]; intros w rest Hm A k Hk.
  - apply matches_Empty_inv in Hm as ->. done.
  - apply matches_Cls_inv in Hm as (c & -> & Hp). simpl. by rewrite Hp.
  - apply matches_Cat_inv in Hm as (w1 & w2 & -> & Hm1 & Hm2). simpl.
    rewrite <- (assoc_L (++)). apply IH1; [done|]. by apply IH2.
  - simpl. destruct (bt r1 (w ++ rest) k) as [y|] eqn:H1; [done|].
    apply matches_Alt_inv in Hm as [Hm|Hm].
    + destruct (IH1 _ _ Hm _ k Hk) as [y Hy]. congruence.
    + by apply IH2.
  - simpl.
    assert (forall n, (length (w ++ rest) <= n)%nat ->
              is_Some (star_loop (fun s' k' => bt r s' k') k n (w ++ rest))) as Hn;
      [|by apply Hn].
    remember (Star r) as r' eqn:Hr'. revert Hk.
    induction Hm as [| | | | | |r0 w1 w2 rest Hm1 _ Hm2 IHs|]; try discriminate.
    + intros Hk n _. by apply star_loop_nil.
    + injection Hr' as ->. intros Hk n Hlen.
      destruct w1 as [|c w1]; [by apply IHs|].
      destruct n as [|n]; [simpl in Hlen; lia|].
      simpl star_loop.
      match goal with |- is_Some (match ?b with _ => _ end) =>
        assert (is_Some b) as [y ->]; [|done] end.
      rewrite <- (assoc_L (++)). apply (IH _ _ Hm1).
      rewrite (assoc_L (++)).
      destruct (_ <? _)%nat eqn:Hlt.
      * apply IHs; [done..|]. rewrite !length_app in Hlen |- *.
        simpl in Hlen. rewrite !length_app in Hlen. lia.
      * apply Nat.ltb_ge in Hlt. rewrite !length_app in Hlt. simpl in Hlt. lia.
  - apply matches_Eoi_inv in Hm as [-> ->]. done.
Qed.

Lemma matches_context r w rest rest' :
  eoi_free r = true -> matches r w rest -> matches r w rest'.
Proof.
  intros Hf Hm. revert rest' Hf.
  induction Hm; intros rest' Hf; simpl in Hf;
    try (apply andb_prop in Hf as [Hf1 Hf2]); try discriminate.
  - constructor.
  - by constructor.
  - constructor; auto.
  - apply M_AltL; auto.
  - apply M_AltR; auto.
  - constructor.
  - constructor; auto.
Qed.

Lemma bt_Some_sound r s rest :
  bt r s Some = Some rest ->
  s = take (length s - length rest) s ++ rest /\
  matches r (take (length s - length rest) s) rest.
Proof.
  intros (w & rest' & -> & Hm & [= ->])%bt_sound.
  rewrite length_app.
  replace (length w + length rest - length rest)%nat with (length w) by lia.
  by rewrite take_app_length.
Qed.

Lemma exec_sound r : forall s pre m post,
  exec r s = Some (pre, m, post) -> s = pre ++ m ++ post /\ matches r m post.
Proof.
  induction s as [|c s IH]; intros pre m post He.
  - simpl in He. destruct (bt r [] Some) as [rest|] eqn:Hb; [|done].
    injection He as <- <- <-. by apply bt_Some_sound in Hb.
  - cbn [exec] in He. destruct (bt r (c :: s) Some) as [rest|] eqn:Hb.
    + injection He as <- <- <-. by apply bt_Some_sound in Hb.
    + destruct (exec r s) as [[[pre' m'] post']|] eqn:He'; [|done].
      injection He as <- <- <-.
      destruct (IH _ _ _ eq_refl) as [-> Hm]. done.
Qed.

Lemma exec_complete r a w b :
  matches r w b -> is_Some (exec r (a ++ w ++ b)).
Proof.
  intros Hm. induction a as [|c a IH]; simpl.
  - destruct (bt_complete r w b Hm _ Some) as [rest Hr]; [done|].
    destruct (w ++ b); simpl in *; rewrite Hr; done.
  - destruct (bt r (c :: a ++ w ++ b) Some); [done|].
    destruct IH as [[[pre m] post] ->]. done.
Qed.

Lemma test_iff r s :
  test r s = true <-> exists a w b, s = a ++ w ++ b /\ matches r w b.
Proof.
  unfold test. split.
  - destruct (exec r s) as [[[pre m] post]|] eqn:He; [|done].
    intros _. apply exec_sound in He as [-> Hm]. eauto.
  - intros (a & w & b & -> & Hm).
    by destruct (exec_complete r a w b Hm) as [x ->].
Qed.

(** A match survives the growth of the text around it. *)
Lemma test_mono r a s b :
  eoi_free r = true -> test r s = true -> test r (a ++ s ++ b) = true.
Proof.
  intros Hf (a' & w & b' & -> & Hm)%test_iff. apply test_iff.
  exists (a ++ a'), w, (b' ++ b). split.
  - by rewrite <- !(assoc_L (++)).
  - by eapply matches_context.
Qed.

Lemma test_mono_l r s b :
  eoi_free r = true -> test r s = true -> test r (s ++ b) = true.
Proof. intros Hf Ht. by apply (test_mono r [] s b). Qed.

Lemma test_mono_r r a s :
  eoi_free r = true -> test r s = true -> test r (a ++ s) = true.
Proof.
  intros Hf Ht. rewrite <- (app_nil_r s). by apply (test_mono r a s []).
Qed.

End MatcherFacts.

(** ** Where a match can lie *)

Section AnchorFacts.

Lemma excludes_sound c r w rest :
  excludes c r = true -> matches r w rest -> c ∉ w.
Proof.
  intros He Hm.
  induction Hm as [rest|p d rest Hp|r1 r2 w1 w2 rest Hm1 IH1 Hm2 IH2
                  |r1 r2 w rest Hm IH|r1 r2 w rest Hm IH|r rest
                  |r w1 w2 rest Hm1 IH1 Hm2 IH2|]; simpl in He.
  - apply not_elem_of_nil.
  - intros ->%list_elem_of_singleton. by rewrite Hp in He.
  - apply andb_prop in He as [He1 He2]. rewrite elem_of_app.
    intros [?|?]; [by apply IH1|by apply IH2].
  - apply andb_prop in He as [He1 He2]. auto.
  - apply andb_prop in He as [He1 He2]. auto.
  - apply not_elem_of_nil.
  - rewrite elem_of_app. intros [?|?]; [by apply IH1|by apply IH2].
  - apply not_elem_of_nil.
Qed.

Lemma nullable_sound r w rest :
  nullable r = false -> matches r w rest -> w <> [].
Proof.
  intros Hn Hm.
  induction Hm as [rest|p d rest Hp|r1 r2 w1 w2 rest Hm1 IH1 Hm2 IH2
                  |r1 r2 w rest Hm IH|r1 r2 w rest Hm IH|r rest
                  |r w1 w2 rest Hm1 IH1 Hm2 IH2|]; simpl in Hn; try discriminate.
  - apply andb_false_iff in Hn as [Hn|Hn]; intros [-> ->]%app_eq_nil;
      naive_solver.
  - apply orb_false_iff in Hn as [Hn1 Hn2]. auto.
  - apply orb_false_iff in Hn as [Hn1 Hn2]. auto.
Qed.

Lemma last_excludes_sound c r w rest :
  last_excludes c r = true -> matches r w rest -> last w <> Some c.
Proof.
  intros He Hm.
  induction Hm as [rest|p d rest Hp|r1 r2 w1 w2 rest Hm1 IH1 Hm2 IH2
                  |r1 r2 w rest Hm IH|r1 r2 w rest Hm IH|r rest
                  |r w1 w2 rest Hm1 IH1 Hm2 IH2|]; simpl in He; try done.
  - simpl. intros [= ->]. by rewrite Hp in He.
  - apply andb_prop in He as [He1 He2].
    destruct (decide (w2 = [])) as [->|Hne].
    + rewrite app_nil_r. apply orb_prop in He2 as [He2|He2]; [|auto].
      apply negb_true_iff in He2.
      by destruct (nullable_sound _ _ _ He2 Hm2).
    + rewrite last_app. destruct (last w2) eqn:Hl; [naive_solver|].
      by apply last_None in Hl.
  - apply andb_prop in He as [He1 He2]. auto.
  - apply andb_prop in He as [He1 He2]. auto.
  - destruct (decide (w2 = [])) as [->|Hne].
    + rewrite app_nil_r. auto.
    + rewrite last_app. destruct (last w2) eqn:Hl; [naive_solver|].
      by apply last_None in Hl.
Qed.

Lemma final_class_sound r p w rest :
  final_class r = Some p -> matches r w rest ->
  exists w' c, w = w' ++ [c] /\ p c = true.
Proof.
  intros Hf Hm. revert p Hf. induction Hm; intros q Hf; simpl in Hf; try done.
  - injection Hf as <-. by exists [], c.
  - destruct (is_Empty r2) eqn:He.
    + destruct r2; try done. apply matches_Empty_inv in Hm2 as ->.
      rewrite app_nil_r. naive_solver.
    + destruct (IHHm2 _ Hf) as (w' & c & -> & Hq).
      exists (w1 ++ w'), c. by rewrite <- (assoc_L (++)).
Qed.

(** A word without [c] in [x ++ c :: y] lies in [x] or in [y]. *)
Lemma word_avoids_unit (x y a w b : jsstring) c :
  x ++ c :: y = a ++ w ++ b -> c ∉ w ->
  (exists b', x = a ++ w ++ b') \/ (exists a', y = a' ++ w ++ b).
Proof.
  intros Heq Hc.
  apply app_eq_app in Heq as [l [[-> Heq]|[-> Heq]]].
  - apply app_eq_app in Heq as [l' [[-> Heq]|[-> Heq]]].
    + destruct l' as [|c' l'].
      * left. exists []. by rewrite !app_nil_r.
      * injection Heq as <- _. destruct Hc. apply elem_of_app. right. left.
    + left. by exists l'.
  - destruct l as [|c' l].
    + destruct w as [|c' w].
      * left. exists []. by rewrite !app_nil_r.
      * injection Heq as -> _. destruct Hc. left.
    + injection Heq as _ ->. right. by exists l.
Qed.

Lemma test_sep r c x y :
  eoi_free r = true -> excludes c r = true ->
  test r (x ++ c :: y) = true -> test r x = true \/ test r y = true.
Proof.
  intros Hf He (a & w & b & Heq & Hm)%test_iff.
  destruct (word_avoids_unit _ _ _ _ _ _ Heq) as [[b' ->]|[a' ->]].
  - by eapply excludes_sound.
  - left. apply test_iff. exists a, w, b'. split; [done|].
    by eapply matches_context.
  - right. apply test_iff. eauto.
Qed.

Lemma test_snoc r c x :
  eoi_free r = true -> last_excludes c r = true ->
  test r (x ++ [c]) = true -> test r x = true.
Proof.
  intros Hf He (a & w & b & Heq & Hm)%test_iff. apply test_iff.
  destruct b as [|cb b _] using rev_ind.
  - destruct w as [|cw w _] using rev_ind.
    + exists x, [], []. split; [by rewrite app_nil_r|done].
    + destruct (last_excludes_sound _ _ _ _ He Hm).
      rewrite app_nil_r, (assoc_L (++)) in Heq.
      apply app_inj_tail in Heq as [_ ->]. apply last_snoc.
  - rewrite !(assoc_L (++)) in Heq. apply app_inj_tail in Heq as [-> _].
    exists a, w, b. split; [by rewrite (assoc_L (++))|].
    by eapply matches_context.
Qed.

(** Text inserted after a unit that no word holds breaks no match. *)
Lemma test_insert r c x ins y :
  eoi_free r = true -> excludes c r = true ->
  test r ((x ++ [c]) ++ y) = true -> test r ((x ++ [c]) ++ ins ++ y) = true.
Proof.
  intros Hf He Ht. rewrite <- (assoc_L (++)) in Ht. simpl in Ht.
  apply test_sep in Ht as [Ht|Ht]; [| |done..].
  - rewrite <- !(assoc_L (++)). by apply test_mono_l.
  - rewrite !(assoc_L (++)). by apply test_mono_r.
Qed.

End AnchorFacts.

(** ** Strings *)

Section StringFacts.

Lemma startsWith_iff p s :
  startsWith p s = true <-> exists t, s = p ++ t.
Proof.
  revert s. induction p as [|a p IH]; intros s; simpl.
  - split; [eauto|done].
  - destruct s as [|b s].
    + split; [done|]. by intros [t Ht].
    + rewrite andb_true_iff, N.eqb_eq, IH. split.
      * intros [-> [t ->]]. eauto.
      * intros [t [= -> ->]]. eauto.
Qed.

Lemma includes_iff p s :
  includes p s = true <-> exists a b, s = a ++ p ++ b.
Proof.
  induction s as [|c s IH]; simpl.
  - rewrite orb_false_r, startsWith_iff. split.
    + intros [t Ht]. by exists [], t.
    + intros (a & b & Hs). destruct a; [eauto|done].
  - rewrite orb_true_iff, startsWith_iff, IH. split.
    + intros [[t ->]|(a & b & ->)]; [by exists [], t|by exists (c :: a), b].
    + intros ([|c' a] & b & Hs); [left; eauto|].
      injection Hs as -> ->. right. eauto.
Qed.

Lemma matches_lit_units p w rest : matches (lit_units p) w rest <-> w = p.
Proof.
  revert w. induction p as [|c p IH]; intros w; simpl.
  - split; [apply matches_Empty_inv|intros ->; constructor].
  - split.
    + intros (w1 & w2 & -> & (d & -> & ->%N.eqb_eq)%matches_Cls_inv
              & ->%IH)%matches_Cat_inv. done.
    + intros ->. apply (M_Cat _ _ [c] p).
      * constructor. apply N.eqb_refl.
      * by apply IH.
Qed.

Lemma eoi_free_lit_units p : eoi_free (lit_units p) = true.
Proof. induction p; simpl; auto. Qed.

(** [includes] is the search for a literal expression. *)
Lemma includes_test p s : includes p s = test (lit_units p) s.
Proof.
  apply eq_true_iff_eq. rewrite includes_iff, test_iff. split.
  - intros (a & b & ->). exists a, p, b. by rewrite matches_lit_units.
  - intros (a & w & b & -> & ->%matches_lit_units). eauto.
Qed.

Lemma includes_mono p a s b :
  includes p s = true -> includes p (a ++ s ++ b) = true.
Proof.
  rewrite !includes_test. apply test_mono, eoi_free_lit_units.
Qed.

Lemma find_from_range p s i :
  find_from p s i = (-1)%Z \/ (i <= find_from p s i)%Z.
Proof.
  revert i. induction s as [|c s IH]; intros i; simpl.
  - destruct (startsWith p []); lia.
  - destruct (startsWith p (c :: s)); [lia|]. destruct (IH (i + 1)%Z); lia.
Qed.

Lemma find_from_found p s i j :
  (0 <= i)%Z -> find_from p s i = j -> (i <= j)%Z ->
  startsWith p (drop (Z.to_nat (j - i)) s) = true.
Proof.
  revert i. induction s as [|c s IH]; intros i Hi; simpl.
  - destruct (startsWith p []) eqn:Hp; [|lia].
    intros <- _. by rewrite Z.sub_diag.
  - destruct (startsWith p (c :: s)) eqn:Hp.
    + intros <- _. by rewrite Z.sub_diag.
    + intros Hj Hij.
      destruct (find_from_range p s (i + 1)) as [Hr|Hr]; [lia|].
      replace (Z.to_nat (j - i)) with (S (Z.to_nat (j - (i + 1)))) by lia.
      simpl. apply (IH (i + 1)%Z); [lia|done|lia].
Qed.

Lemma slice_prefix (s : jsstring) m :
  (0 <= m <= Z.of_nat (length s))%Z ->
  slice s 0 (Some m) = take (Z.to_nat m) s.
Proof.
  intros Hm. unfold slice, rel_index.
  replace (m <? 0)%Z with false by (symmetry; apply Z.ltb_ge; lia).
  replace (0 <? 0)%Z with false by done.
  rewrite Z.min_l, Z.min_l by lia. simpl. by rewrite Z.sub_0_r.
Qed.

Lemma slice_suffix (s : jsstring) m :
  (0 <= m <= Z.of_nat (length s))%Z ->
  slice s m None = drop (Z.to_nat m) s.
Proof.
  intros Hm. unfold slice, rel_index.
  replace (m <? 0)%Z with false by (symmetry; apply Z.ltb_ge; lia).
  rewrite Z.min_l by lia. apply take_ge. rewrite length_drop. lia.
Qed.

(** The two halves that [addImport] cuts at a line end found by
    [indexOf]. *)
Lemma indexOf_newline_cut (s : jsstring) from n :
  indexOf [10] s from = n -> n <> (-1)%Z ->
  exists x y, s = (x ++ [10]) ++ y /\
    slice s 0 (Some (n + 1)%Z) = x ++ [10] /\
    slice s (n + 1)%Z None = y.
Proof.
  unfold indexOf. set (k := Z.to_nat _). intros Hn Hne.
  destruct (find_from_range [10] (drop k s) (Z.of_nat k)) as [Hr|Hr];
    [congruence|].
  rewrite Hn in Hr.
  pose proof (find_from_found _ _ _ _ (Nat2Z.is_nonneg k) Hn Hr) as Hs.
  rewrite drop_drop in Hs.
  replace (k + Z.to_nat (n - Z.of_nat k))%nat with (Z.to_nat n) in Hs by lia.
  apply startsWith_iff in Hs as [t Ht].
  assert (Z.to_nat n < length s)%nat as Hlen.
  { destruct (decide (Z.to_nat n < length s)%nat); [done|].
    rewrite drop_ge in Ht by lia. done. }
  exists (take (Z.to_nat n) s), t.
  assert (s = (take (Z.to_nat n) s ++ [10]) ++ t) as Hs.
  { rewrite <- (assoc_L (++)), <- Ht. by rewrite take_drop. }
  split; [done|].
  assert (length (take (Z.to_nat n) s ++ [10]) = Z.to_nat (n + 1)) as Hl.
  { rewrite length_app, length_take. simpl. lia. }
  rewrite slice_prefix, slice_suffix by lia.
  rewrite <- Hl. remember (take (Z.to_nat n) s) as x eqn:Hx. clear Hx.
  rewrite Hs. by rewrite take_app_length, drop_app_length.
Qed.

End StringFacts.

(** ** The two insertion steps *)

Section StepFacts.
Import Patcher.

Lemma test_exec r s :
  test r s = true ->
  exists pre m post, exec r s = Some (pre, m, post) /\
    s = pre ++ m ++ post /\ matches r m post.
Proof.
  unfold test. destruct (exec r s) as [[[pre m] post]|] eqn:He; [|done].
  intros _. exists pre, m, post. split; [done|]. by apply exec_sound.
Qed.

(** What [addImport] returns: the text itself, or the text with the
    import line after the closing quote of the anchor, or with the import
    line after a line end. *)
Lemma addImport_Ok content c1 :
  addImport content = Ok c1 ->
  (has_import_words content = true /\ c1 = content) \/
  (has_import_words content = false /\
   exists x q y, (q = 39 \/ q = 34) /\ content = (x ++ [q]) ++ y /\
     c1 = (x ++ [q]) ++ (nl ++ MEDIA_IMPORT) ++ y) \/
  (has_import_words content = false /\
   exists x y, content = (x ++ nl) ++ y /\
     c1 = (x ++ nl) ++ (MEDIA_IMPORT ++ nl) ++ y).
Proof.
  unfold addImport. destruct (has_import_words content) eqn:Hw.
  { intros [= <-]. by left. }
  destruct (test importAnchor content) eqn:Ht.
  - intros [= <-]. right. left. split; [done|].
    apply test_exec in Ht as (pre & m & post & He & -> & Hm).
    unfold replace. rewrite He.
    destruct (final_class_sound importAnchor _ m post eq_refl Hm)
      as (m' & q & -> & Hq).
    exists (pre ++ m'), q, post. split; [|split].
    + apply orb_prop in Hq as [Hq|Hq]; apply N.eqb_eq in Hq; auto.
    + by rewrite <- !(assoc_L (++)).
    + by rewrite <- !(assoc_L (++)).
  - destruct (negb _) eqn:Hn; [|done].
    intros [= <-]. right. right. split; [done|].
    apply negb_true_iff, Z.eqb_neq in Hn. unfold nl in *.
    destruct (indexOf_newline_cut _ _ _ eq_refl Hn) as (x & y & Hc & -> & ->).
    exists x, y. split; [done|]. by rewrite <- !(assoc_L (++)).
Qed.

(** What [addMediaLogic] returns: the text itself, or the text with the
    logic block after the first match of [fullPattern]. *)
Lemma addMediaLogic_Ok content c2 :
  addMediaLogic content = Ok c2 ->
  (includes (js "payload.mediaUrls?.length") content = true /\ c2 = content) \/
  (includes (js "payload.mediaUrls?.length") content = false /\
   test deliverAnchor content = true /\
   exists x m y, content = x ++ m ++ y /\ matches fullPattern m y /\
     c2 = x ++ (m ++ MEDIA_LOGIC) ++ y).
Proof.
  unfold addMediaLogic. destruct (includes _ content) eqn:Hi.
  { intros [= <-]. by left. }
  destruct (test deliverAnchor content) eqn:Hd; [|done].
  destruct (test fullPattern content) eqn:Ht; [|done].
  intros [= <-]. right. split; [done|]. split; [done|].
  apply test_exec in Ht as (pre & m & post & He & -> & Hm).
  unfold replace. rewrite He. eauto 6.
Qed.

Lemma patch_Ok content c :
  patch content = Ok c ->
  exists c1, addImport content = Ok c1 /\ addMediaLogic c1 = Ok c /\
    verify c = true.
Proof.
  unfold patch. destruct (addImport content) as [c1|e1]; [|done].
  destruct (addMediaLogic c1) as [c2|e2] eqn:H2; [|done].
  destruct (verify c2) eqn:Hv; [|done]. intros [= <-]. eauto.
Qed.

End StepFacts.

(** ** The file system under [create], [restore] and [apply] *)

Section FsFacts.
Context `{Node}.
Import BackupManager Patcher.

Lemma contents_Ok s p dir none c :
  contents s p dir none = Ok c -> files s !! p = Some c /\ rdeny s p = None.
Proof.
  unfold contents. destruct (files s !! p); [|done].
  destruct (rdeny s p); [done|]. by intros [= ->].
Qed.

Lemma readFileSync_Ok s p c :
  readFileSync s p = Ok c -> files s !! p = Some c /\ rdeny s p = None.
Proof. apply contents_Ok. Qed.

Lemma readFileSync_exists s p c :
  readFileSync s p = Ok c -> existsSync s p = true.
Proof.
  intros [Hf _]%readFileSync_Ok. unfold existsSync. by rewrite Hf.
Qed.

Lemma copyFileSync_Ok s src dst s' :
  copyFileSync s src dst = Ok s' ->
  exists c, files s !! src = Some c /\
    s' = with_files (<[dst := c]> (files s)) s.
Proof.
  unfold copyFileSync. destruct (contents s src _ _) as [c|e] eqn:Hr; [|done].
  apply contents_Ok in Hr as [Hf _]. unfold writeFileSync.
  destruct (wdeny s dst); [done|]. intros [= <-]. eauto.
Qed.

(** A copy leaves a file as it was when it copies the file's own text
    onto it. *)
Lemma copy_keeps s src dst s' p c :
  copyFileSync s src dst = Ok s' ->
  files s !! src = Some c -> files s !! p = Some c ->
  files s' !! p = Some c.
Proof.
  intros (c' & Hsrc & ->)%copyFileSync_Ok Hc Hp. simpl.
  assert (c' = c) as -> by congruence.
  destruct (decide (dst = p)) as [->|Hne].
  - by rewrite lookup_insert_eq.
  - by rewrite lookup_insert_ne.
Qed.

Lemma create_Ok backupDir now s p bp s' :
  create backupDir now s p = (Ok bp, s') ->
  bp = join [backupDir; backupFileName now p] /\
  copyFileSync s p bp = Ok s'.
Proof.
  unfold create. destruct (negb (existsSync s p)); [done|].
  destruct (copyFileSync s p _) as [s1|e] eqn:Hc; [|done].
  by intros [= <- <-].
Qed.

Lemma create_keeps backupDir now s p bp s' c :
  create backupDir now s p = (Ok bp, s') -> files s !! p = Some c ->
  files s' !! p = Some c /\ files s' !! bp = Some c.
Proof.
  intros [_ Hc]%create_Ok Hp. split.
  - by eapply copy_keeps.
  - apply copyFileSync_Ok in Hc as (c' & Hsrc & ->). simpl.
    rewrite lookup_insert_eq. congruence.
Qed.

Lemma restore_keeps s bp p c :
  files s !! bp = Some c -> files s !! p = Some c ->
  files (snd (restore s bp p)) !! p = Some c.
Proof.
  intros Hb Hp. unfold restore. destruct (negb (existsSync s bp)); [done|].
  destruct (copyFileSync s bp p) as [s'|e] eqn:Hc; [|done].
  simpl. by eapply copy_keeps.
Qed.

Lemma backed_up_keeps backupDir now s t noBackup backupPath s1 c :
  backed_up backupDir now s t noBackup backupPath s1 ->
  files s !! t = Some c ->
  files s1 !! t = Some c /\
  forall bp, backupPath = Some bp -> files s1 !! bp = Some c.
Proof.
  intros [(_ & -> & ->)|(_ & bp & -> & Hc)] Ht.
  - split; [done|]. by intros bp.
  - destruct (create_keeps _ _ _ _ _ _ _ Hc Ht) as [H1 H2].
    split; [done|]. by intros ? [= <-].
Qed.

Lemma rollback_keeps s1 t backupPath e c :
  files s1 !! t = Some c ->
  (forall bp, backupPath = Some bp -> files s1 !! bp = Some c) ->
  files (snd (rollback s1 t backupPath e)) !! t = Some c.
Proof.
  intros Ht Hb. unfold rollback. simpl.
  destruct backupPath as [bp|]; simpl; [|done].
  destruct (truthy bp); [|done]. apply restore_keeps; auto.
Qed.

Lemma rollback_result s1 t backupPath e :
  fst (rollback s1 t backupPath e) =
  failure FixerError.PATCH_FAILED
    (js "应用补丁失败: " ++ exn_message e)
    (js "应用补丁失败: " ++ exn_message e)
    (Some e) backupPath.
Proof. done. Qed.

(** [apply] once its four preconditions hold. *)
Lemma apply_patching backupDir now s r noBackup t c :
  targetFile r = Some t -> truthy t = true -> hasProblem r = true ->
  readFileSync s t = Ok c ->
  (noBackup = false /\ exists e,
     fst (create backupDir now s t) = Err e /\
     apply backupDir now s r noBackup =
       (failure FixerError.PERMISSION_DENIED
          (js "备份失败: " ++ exn_message e)
          (js "备份失败: " ++ exn_message e)
          (Some e) None, s)) \/
  (exists backupPath s1,
     backed_up backupDir now s t noBackup backupPath s1 /\
     apply backupDir now s r noBackup =
       match patch c with
       | Err e => rollback s1 t backupPath e
       | Ok c' =>
         match writeFileSync s1 t c' with
         | Err e => rollback s1 t backupPath e
         | Ok s2 =>
           ({| success := true;
               fix_message := js "修复补丁应用成功";
               backupPath := backupPath;
               error := None;
               errors := None |}, s2)
         end
       end).
Proof.
  intros Ht Htr Hp Hr. unfold apply. rewrite Ht. simpl. rewrite Htr, Hp. simpl.
  rewrite (readFileSync_exists _ _ _ Hr). simpl. rewrite Hr.
  destruct noBackup; simpl.
  - right. exists None, s. split; [|done]. left. done.
  - destruct (create backupDir now s t) as [[bp|e] s1] eqn:Hc.
    + right. exists (Some bp), s1. split; [|done]. right. eauto.
    + left. split; [done|]. exists e. done.
Qed.

End FsFacts.

(** ** What the import line can create and what it keeps *)

Section ImportLineFacts.
Import Patcher.

Lemma test_snoc_list r l x :
  eoi_free r = true -> forallb (fun c => last_excludes c r) l = true ->
  test r (x ++ l) = true -> test r x = true.
Proof.
  intros Hf. induction l as [|c l IH] using rev_ind; intros Hl Ht.
  - by rewrite app_nil_r in Ht.
  - rewrite forallb_app in Hl. apply andb_prop in Hl as [Hl Hc].
    simpl in Hc. rewrite andb_true_r in Hc.
    rewrite (assoc_L (++)) in Ht. apply test_snoc in Ht; auto.
Qed.

(** An expression that holds no line end and no semicolon, and has no
    match in the import line, matches after [addImport] only where it
    matched before. *)
Lemma addImport_adds_no_match r content c1 :
  eoi_free r = true -> excludes 10 r = true -> excludes 59 r = true ->
  test r (take 44 MEDIA_IMPORT) = false ->
  addImport content = Ok c1 ->
  test r c1 = true -> test r content = true.
Proof.
  intros Hf Hn Hs Hb Ha Ht.
  assert (MEDIA_IMPORT = take 44 MEDIA_IMPORT ++ [59]) as Hi by reflexivity.
  apply addImport_Ok in Ha
    as [[_ ->]|[(_ & x & q & y & _ & -> & ->)|(_ & x & y & -> & ->)]];
    [done|..]; rewrite Hi in Ht; unfold nl in *.
  - replace ((x ++ [q]) ++ ([10] ++ take 44 MEDIA_IMPORT ++ [59]) ++ y)
      with ((x ++ [q]) ++ 10 :: (take 44 MEDIA_IMPORT ++ 59 :: y)) in Ht
      by (by rewrite <- !(assoc_L (++))).
    apply test_sep in Ht as [Ht|Ht]; [by apply test_mono_l| |done..].
    apply test_sep in Ht as [Ht|Ht]; [congruence|by apply test_mono_r|done..].
  - replace ((x ++ [10]) ++ ((take 44 MEDIA_IMPORT ++ [59]) ++ [10]) ++ y)
      with (x ++ 10 :: (take 44 MEDIA_IMPORT ++ 59 :: ([10] ++ y))) in Ht
      by (by rewrite <- !(assoc_L (++))).
    rewrite <- (assoc_L (++)).
    apply test_sep in Ht as [Ht|Ht]; [by apply test_mono_l| |done..].
    apply test_sep in Ht as [Ht|Ht]; [congruence|by apply test_mono_r|done..].
Qed.

(** The import line creates no match of the anchor of the handler. *)
Lemma addImport_adds_no_anchor content c1 :
  addImport content = Ok c1 ->
  test deliverAnchor c1 = true -> test deliverAnchor content = true.
Proof.
  intros Ha Ht.
  assert (MEDIA_IMPORT =
          js "import " ++ 123 :: drop 8 (take 44 MEDIA_IMPORT) ++ [59]) as Hi
    by reflexivity.
  assert (test deliverAnchor (drop 8 (take 44 MEDIA_IMPORT)) = false) as Hb
    by (vm_compute; reflexivity).
  assert (eoi_free deliverAnchor = true) as Hf by reflexivity.
  assert (excludes 123 deliverAnchor = true) as H1 by (vm_compute; reflexivity).
  assert (excludes 59 deliverAnchor = true) as H2 by (vm_compute; reflexivity).
  apply addImport_Ok in Ha
    as [[_ ->]|[(_ & x & q & y & _ & -> & ->)|(_ & x & y & -> & ->)]];
    [done|..]; rewrite Hi in Ht; unfold nl in *.
  - replace ((x ++ [q]) ++ ([10] ++ js "import " ++
               123 :: drop 8 (take 44 MEDIA_IMPORT) ++ [59]) ++ y)
      with (((x ++ [q]) ++ 10 :: js "import ") ++
            123 :: (drop 8 (take 44 MEDIA_IMPORT) ++ 59 :: y)) in Ht
      by (by rewrite <- !(assoc_L (++))).
    apply test_sep in Ht as [Ht|Ht]; [| |done..].
    + apply test_snoc_list in Ht; [by apply test_mono_l|done|].
      vm_compute; reflexivity.
    + apply test_sep in Ht as [Ht|Ht]; [congruence|by apply test_mono_r|done..].
  - replace ((x ++ [10]) ++ ((js "import " ++
               123 :: drop 8 (take 44 MEDIA_IMPORT) ++ [59]) ++ [10]) ++ y)
      with (((x ++ [10]) ++ js "import ") ++
            123 :: (drop 8 (take 44 MEDIA_IMPORT) ++ 59 :: ([10] ++ y))) in Ht
      by (by rewrite <- !(assoc_L (++))).
    apply test_sep in Ht as [Ht|Ht]; [| |done..].
    + apply test_snoc_list in Ht; [by apply test_mono_l|done|].
      vm_compute; reflexivity.
    + apply test_sep in Ht as [Ht|Ht]; [congruence| |done..].
      rewrite <- (assoc_L (++)). by apply test_mono_r.
Qed.

(** An expression that holds no quote and no line end keeps its matches
    under [addImport]. *)
Lemma addImport_keeps_match r content c1 :
  eoi_free r = true -> excludes 39 r = true -> excludes 34 r = true ->
  excludes 10 r = true ->
  addImport content = Ok c1 ->
  test r content = true -> test r c1 = true.
Proof.
  intros Hf H1 H2 H3 Ha Ht.
  apply addImport_Ok in Ha
    as [[_ ->]|[(_ & x & q & y & Hq & -> & ->)|(_ & x & y & -> & ->)]];
    [done|..].
  - apply (test_insert _ q); [done| |done]. by destruct Hq as [->| ->].
  - by apply (test_insert _ 10).
Qed.

Lemma addImport_has_words content c1 :
  addImport content = Ok c1 -> has_import_words c1 = true.
Proof.
  intros Ha.
  assert (has_import_words MEDIA_IMPORT = true) as Hw by (vm_compute; reflexivity).
  apply andb_prop in Hw as [Hw1 Hw2]. unfold has_import_words.
  apply addImport_Ok in Ha
    as [[Hw ->]|[(_ & x & q & y & _ & -> & ->)|(_ & x & y & -> & ->)]];
    [done|..]; unfold nl.
  - replace ((x ++ [q]) ++ ([10] ++ MEDIA_IMPORT) ++ y)
      with (((x ++ [q]) ++ [10]) ++ MEDIA_IMPORT ++ y)
      by (by rewrite <- !(assoc_L (++))).
    by rewrite !includes_mono.
  - replace ((x ++ [10]) ++ (MEDIA_IMPORT ++ [10]) ++ y)
      with ((x ++ [10]) ++ MEDIA_IMPORT ++ ([10] ++ y))
      by (by rewrite <- !(assoc_L (++))).
    by rewrite !includes_mono.
Qed.

End ImportLineFacts.

(** ** Failing patches *)

Section FailingPatch.
Context `{Node}.
Import BackupManager Detector Patcher.

(** When the steps of the [try] block throw, [apply] fails and the target
    file keeps its text: with [PERMISSION_DENIED] if the backup could not
    be made, with [PATCH_FAILED] otherwise. *)
Lemma apply_when_patch_fails backupDir now s r noBackup t c e :
  targetFile r = Some t -> truthy t = true -> hasProblem r = true ->
  readFileSync s t = Ok c -> patch c = Err e ->
  exists res s', apply backupDir now s r noBackup = (res, s') /\
    success res = false /\
    files s' !! t = files s !! t /\
    (noBackup = true \/
     (exists bp s1, create backupDir now s t = (Ok bp, s1)) ->
     exists msg, errors res = Some [ErrorInfo FixerError.PATCH_FAILED msg]) /\
    (noBackup = false ->
     (exists e', fst (create backupDir now s t) = Err e') ->
     exists msg, errors res = Some [ErrorInfo FixerError.PERMISSION_DENIED msg]).
Proof.
  intros Ht Htr Hp Hr He.
  destruct (readFileSync_Ok _ _ _ Hr) as [Hf _].
  destruct (apply_patching backupDir now s r noBackup t c Ht Htr Hp Hr)
    as [(Hnb & e' & Hc & ->)|(backupPath & s1 & Hb & ->)].
  - eexists _, _. split; [done|]. split; [done|]. split; [done|]. split.
    + intros [->|(bp & s1 & Hc')]; [done|]. rewrite Hc' in Hc. done.
    + intros _ _. simpl. eauto.
  - rewrite He.
    destruct (backed_up_keeps _ _ _ _ _ _ _ _ Hb Hf) as [Ht1 Hb1].
    eexists _, _. split; [apply surjective_pairing|].
    rewrite rollback_result. split; [done|]. split.
    + rewrite Hf. by apply rollback_keeps.
    + split; [simpl; eauto|].
      intros Hnb [e' Hc]. destruct Hb as [(-> & _)|(_ & bp & _ & Hc')];
        [done|]. rewrite Hc' in Hc. done.
Qed.

Lemma addImport_adds_no_literal p c c1 :
  excludes 10 (lit_units p) = true -> excludes 59 (lit_units p) = true ->
  includes p (take 44 MEDIA_IMPORT) = false ->
  addImport c = Ok c1 -> includes p c = false -> includes p c1 = false.
Proof.
  rewrite !includes_test. intros H1 H2 Hb Hi Hc.
  destruct (test (lit_units p) c1) eqn:Hc1; [|done].
  rewrite <- Hc. symmetry.
  by apply (addImport_adds_no_match _ c c1); [apply eoi_free_lit_units|..].
Qed.

Lemma addImport_keeps_literal p c c1 :
  excludes 39 (lit_units p) = true -> excludes 34 (lit_units p) = true ->
  excludes 10 (lit_units p) = true ->
  addImport c = Ok c1 -> includes p c = true -> includes p c1 = true.
Proof.
  rewrite !includes_test. intros H1 H2 H3 Hi Hc.
  by apply (addImport_keeps_match _ c c1); [apply eoi_free_lit_units|..].
Qed.

Lemma patch_without_anchor c :
  includes (js "payload.mediaUrls?.length") c = false ->
  test deliverAnchor c = false ->
  exists e, patch c = Err e.
Proof.
  intros Hl Ha. unfold patch.
  destruct (addImport c) as [c1|e] eqn:Hi; [|eauto].
  apply (addImport_adds_no_literal _ c c1) in Hl; [|done..].
  assert (test deliverAnchor c1 = false) as Ha1.
  { destruct (test deliverAnchor c1) eqn:Ha1; [|done].
    rewrite <- Ha. symmetry. by apply (addImport_adds_no_anchor c c1). }
  unfold addMediaLogic. rewrite Hl, Ha1. eauto.
Qed.

Lemma patch_of_partial_patch c :
  includes (js "payload.mediaUrls?.length") c = true ->
  includes (js "await sendMediaFeishu") c = false ->
  exists e, patch c = Err e.
Proof.
  intros Hl Hc. unfold patch.
  destruct (addImport c) as [c1|e] eqn:Hi; [|eauto].
  apply (addImport_keeps_literal _ c c1) in Hl; [|done..].
  apply (addImport_adds_no_literal _ c c1) in Hc; [|done..].
  unfold addMediaLogic. rewrite Hl. unfold verify. rewrite Hc.
  rewrite andb_false_r. simpl. eauto.
Qed.

End FailingPatch.

(** ** What the logic block keeps *)

Section LogicBlockFacts.
Import Detector Patcher.

Lemma matches_strip n : forall r w rest,
  matches r w rest ->
  exists w1 w2, w = w1 ++ w2 /\ matches (strip n r) w2 rest.
Proof.
  induction n as [|n IH]; intros r w rest Hm.
  - by exists [], w.
  - destruct r; try by exists [], w.
    apply matches_Cat_inv in Hm as (w1 & w2 & -> & _ & Hm2).
    destruct (IH _ _ _ Hm2) as (w3 & w4 & -> & Hm4).
    exists (w1 ++ w3), w4. by rewrite (assoc_L (++)).
Qed.

Lemma matches_Star_Cls p w rest :
  matches (Star (Cls p)) w rest -> forallb p w = true.
Proof.
  intros Hm. remember (Star (Cls p)) as r eqn:Hr.
  induction Hm as [| | | | | |r0 w1 w2 rest Hm1 _ Hm2 IH|]; try discriminate.
  - done.
  - injection Hr as ->. apply matches_Cls_inv in Hm1 as (c & -> & Hp).
    simpl. rewrite Hp. by apply IH.
Qed.

(** A match of [fullPattern] ends with the arrow, white space and the
    opening brace. *)
Lemma fullPattern_tail m rest :
  matches fullPattern m rest ->
  exists h wsl, m = h ++ js "=>" ++ wsl ++ [123] /\ forallb is_space wsl = true.
Proof.
  intros (w1 & w2 & -> & Hm)%(matches_strip 10). simpl in Hm.
  apply matches_Cat_inv in Hm as (a1 & w3 & -> & Ha1 & Hm).
  apply (matches_lit_units [61; 62]) in Ha1 as ->.
  apply matches_Cat_inv in Hm as (wsl & w4 & -> & Hws%matches_Star_Cls & Hm).
  apply matches_Cat_inv in Hm
    as (a2 & w5 & -> & (c & -> & <-%N.eqb_eq)%matches_Cls_inv
        & ->%matches_Empty_inv).
  exists w1, wsl. split; [|done]. by rewrite app_nil_r.
Qed.

Lemma addMediaLogic_keeps_match r c1 c2 :
  eoi_free r = true -> excludes 123 r = true ->
  addMediaLogic c1 = Ok c2 -> test r c1 = true -> test r c2 = true.
Proof.
  intros Hf He Ha Ht.
  apply addMediaLogic_Ok in Ha as [[_ ->]|(_ & _ & x & m & y & -> & Hm & ->)];
    [done|].
  destruct (final_class_sound fullPattern _ m y eq_refl Hm)
    as (m' & b & -> & <-%N.eqb_eq).
  replace (x ++ (m' ++ [123]) ++ y) with (((x ++ m') ++ [123]) ++ y) in Ht
    by (by rewrite <- !(assoc_L (++))).
  replace (x ++ ((m' ++ [123]) ++ MEDIA_LOGIC) ++ y)
    with (((x ++ m') ++ [123]) ++ MEDIA_LOGIC ++ y)
    by (by rewrite <- !(assoc_L (++))).
  by apply test_insert.
Qed.

Lemma addMediaLogic_has_marker c1 c2 :
  addMediaLogic c1 = Ok c2 ->
  includes (js "payload.mediaUrls?.length") c2 = true.
Proof.
  intros [[Hl ->]|(_ & _ & x & m & y & -> & Hm & ->)]%addMediaLogic_Ok;
    [done|].
  replace (x ++ (m ++ MEDIA_LOGIC) ++ y) with ((x ++ m) ++ MEDIA_LOGIC ++ y)
    by (by rewrite <- !(assoc_L (++))).
  by apply includes_mono.
Qed.

(** An occurrence of [p] in [x ++ y] lies in [x], or in [y], or begins
    in [x] and ends in [y]. *)
Lemma occurrence_split (x y a p b : jsstring) :
  x ++ y = a ++ p ++ b ->
  (exists b', x = a ++ p ++ b') \/ (exists a', y = a' ++ p ++ b) \/
  (exists p1 p2, p = p1 ++ p2 /\ p1 <> [] /\ p2 <> [] /\
     x = a ++ p1 /\ y = p2 ++ b).
Proof.
  intros Heq. apply app_eq_app in Heq as [l [[-> Heq]|[-> Heq]]].
  - apply app_eq_app in Heq as [l' [[-> Heq]|[-> Heq]]].
    + destruct l as [|c l].
      * right. left. exists []. by rewrite Heq.
      * destruct l' as [|c' l'].
        { left. exists []. by rewrite !app_nil_r. }
        right. right. exists (c :: l), (c' :: l'). by rewrite Heq.
    + left. by exists l'.
  - right. left. by exists l.
Qed.

(** The import line is not cut by the logic block: the block goes after
    an arrow, white space and a brace, and the one brace of the import
    line follows the word [import]. *)
Lemma import_line_not_cut (x h wsl y a b : jsstring) :
  forallb is_space wsl = true ->
  x ++ (h ++ js "=>" ++ wsl ++ [123]) ++ y = a ++ MEDIA_IMPORT ++ b ->
  includes MEDIA_IMPORT
    (x ++ ((h ++ js "=>" ++ wsl ++ [123]) ++ MEDIA_LOGIC) ++ y) = true.
Proof.
  intros Hws Heq. rewrite (assoc_L (++)) in Heq.
  replace (x ++ ((h ++ js "=>" ++ wsl ++ [123]) ++ MEDIA_LOGIC) ++ y)
    with ((x ++ h ++ js "=>" ++ wsl ++ [123]) ++ MEDIA_LOGIC ++ y)
    by (by rewrite <- !(assoc_L (++))).
  apply occurrence_split in Heq
    as [[b' ->]|[[a' ->]|(p1 & p2 & Hp & Hp1 & Hp2 & Hx & ->)]].
  - apply includes_iff. exists a, (b' ++ MEDIA_LOGIC ++ y).
    by rewrite <- !(assoc_L (++)).
  - apply includes_iff. exists ((x ++ h ++ js "=>" ++ wsl ++ [123]) ++ MEDIA_LOGIC ++ a'), b.
    by rewrite <- !(assoc_L (++)).
  - exfalso.
    (* the part of the import line before the cut ends with the brace *)
    destruct p1 as [|c p1 _] using rev_ind; [done|].
    rewrite !(assoc_L (++)) in Hx. apply app_inj_tail in Hx as [Hx <-].
    assert (p1 = js "import ") as ->.
    { assert (length p1 < 45)%nat as Hlen.
      { apply (f_equal length) in Hp. rewrite !length_app in Hp.
        simpl in Hp. destruct p2; [done|]. simpl in Hp. lia. }
      assert (p1 ++ [123] = take (S (length p1)) MEDIA_IMPORT) as Ht.
      { rewrite Hp. rewrite take_app_length'; [done|].
        rewrite length_app. simpl. lia. }
      assert (p1 = take (length p1) MEDIA_IMPORT) as Hp1'.
      { rewrite Hp, <- (assoc_L (++)). by rewrite take_app_length. }
      revert Ht Hp1'. generalize (length p1) Hlen. clear.
      intros n Hn H1 ->.
      do 45 (destruct n as [|n];
             [vm_compute in H1 |- *; first [discriminate H1 | reflexivity]|]).
      lia. }
    (* and before the brace of the match come white space and the arrow *)
    destruct wsl as [|w wsl _] using rev_ind.
    + rewrite app_nil_r in Hx.
      change (js "=>") with ([61] ++ [62]) in Hx.
      change (js "import ") with (js "import" ++ [32]) in Hx.
      rewrite !(assoc_L (++)) in Hx. by apply app_inj_tail in Hx as [_ [=]].
    + rewrite forallb_app in Hws. apply andb_prop in Hws as [Hws Hw].
      change (js "import ") with (js "import" ++ [32]) in Hx.
      rewrite !(assoc_L (++)) in Hx. apply app_inj_tail in Hx as [Hx ->].
      destruct wsl as [|w' wsl _] using rev_ind.
      * rewrite app_nil_r in Hx.
        change (js "=>") with ([61] ++ [62]) in Hx.
        change (js "import") with (js "impor" ++ [116]) in Hx.
        rewrite !(assoc_L (++)) in Hx. by apply app_inj_tail in Hx as [_ [=]].
      * rewrite forallb_app in Hws. apply andb_prop in Hws as [_ Hw'].
        change (js "import") with (js "impor" ++ [116]) in Hx.
        rewrite !(assoc_L (++)) in Hx. apply app_inj_tail in Hx as [_ ->].
        done.
Qed.

End LogicBlockFacts.

(** ** Runs of [check] and [apply] *)

Section RunFacts.
Context `{Node}.
Import BackupManager Detector Patcher.

(** The report of [check] once the installation and the target file are
    found and the file is read. *)
Lemma check_classifies s p t content :
  locateOpenClaw s = Some p -> truthy p = true ->
  locateTargetFile s (Some p) = Some t -> truthy t = true ->
  readFileSync s t = Ok content ->
  check s = classify (Some p) (getOpenClawVersion s (Some p)) t content.
Proof.
  intros Hp Htp Ht Htt Hr. unfold check. rewrite Hp. simpl. rewrite Htp. simpl.
  rewrite Ht. simpl. rewrite Htt. simpl. by rewrite Hr.
Qed.

(** When both fragments are inserted, the three markers of the detector
    match the patched text. *)
Lemma patch_inserts_markers c0 c :
  has_import_words c0 = false ->
  includes (js "payload.mediaUrls?.length") c0 = false ->
  patch c0 = Ok c ->
  test MEDIA_IMPORT_PATTERN c = true /\
  test MEDIA_LOGIC_PATTERN c = true /\
  test SEND_MEDIA_CALL_PATTERN c = true.
Proof.
  intros Hw Hl (c1 & Hi & Ha & _)%patch_Ok.
  apply (addImport_adds_no_literal _ c0 c1) in Hl; [|done..].
  assert (exists a b, c1 = a ++ MEDIA_IMPORT ++ b) as (a & b & Hc1).
  { apply addImport_Ok in Hi
      as [[Hw' _]|[(_ & x & q & y & _ & _ & ->)|(_ & x & y & _ & ->)]];
      [congruence|..]; unfold nl.
    - exists ((x ++ [q]) ++ [10]), y. by rewrite <- !(assoc_L (++)).
    - exists (x ++ [10]), ([10] ++ y). by rewrite <- !(assoc_L (++)). }
  apply addMediaLogic_Ok in Ha
    as [[Hl' _]|(_ & _ & x & m & y & Hxy & Hm & ->)]; [congruence|].
  apply fullPattern_tail in Hm as (h & wsl & -> & Hws).
  rewrite Hxy in Hc1.
  apply (import_line_not_cut _ _ _ _ _ _ Hws), includes_iff in Hc1
    as (a' & b' & Hc).
  split; [|split].
  - rewrite Hc. apply test_mono; [done|]. vm_compute; reflexivity.
  - replace (x ++ ((h ++ js "=>" ++ wsl ++ [123]) ++ MEDIA_LOGIC) ++ y)
      with ((x ++ h ++ js "=>" ++ wsl ++ [123]) ++ MEDIA_LOGIC ++ y)
      by (by rewrite <- !(assoc_L (++))).
    apply test_mono; [done|]. vm_compute; reflexivity.
  - replace (x ++ ((h ++ js "=>" ++ wsl ++ [123]) ++ MEDIA_LOGIC) ++ y)
      with ((x ++ h ++ js "=>" ++ wsl ++ [123]) ++ MEDIA_LOGIC ++ y)
      by (by rewrite <- !(assoc_L (++))).
    apply test_mono; [done|]. vm_compute; reflexivity.
Qed.

(** A successful [apply] has passed the four preconditions, patched the
    text it read, and written the result. *)
Lemma apply_success backupDir now s r noBackup res s' :
  apply backupDir now s r noBackup = (res, s') -> success res = true ->
  exists t c0 c s1,
    targetFile r = Some t /\ hasProblem r = true /\
    readFileSync s t = Ok c0 /\ patch c0 = Ok c /\
    writeFileSync s1 t c = Ok s'.
Proof.
  unfold apply. destruct (targetFile r) as [t|]; simpl;
    [|by intros [= <- _]].
  destruct (truthy t); simpl; [|by intros [= <- _]].
  destruct (hasProblem r); simpl; [|by intros [= <- _]].
  destruct (existsSync s t); simpl; [|by intros [= <- _]].
  destruct (readFileSync s t) as [c0|e] eqn:Hr; [|by intros [= <- _]].
  match goal with |- context [match ?b with Ok _ => _ | Err _ => _ end] =>
    destruct b as [[bp s1]|e] end; [|by intros [= <- _]].
  destruct (patch c0) as [c|e] eqn:Hp.
  - destruct (writeFileSync s1 t c) as [s2|e] eqn:Hw.
    + intros [= <- <-] _. exists t, c0, c, s1. done.
    + intros Hres Hs. apply (f_equal fst) in Hres.
      rewrite rollback_result in Hres. simpl in Hres. by subst res.
  - intros Hres Hs. apply (f_equal fst) in Hres.
    rewrite rollback_result in Hres. simpl in Hres. by subst res.
Qed.

Lemma writeFileSync_Ok s p c s' :
  writeFileSync s p c = Ok s' -> files s' !! p = Some c.
Proof.
  unfold writeFileSync. destruct (wdeny s p); [done|].
  intros [= <-]. simpl. by rewrite lookup_insert_eq.
Qed.

(** A failed [apply] leaves the text of the target file as it was. *)
Lemma apply_failure_keeps backupDir now s r noBackup t res s' :
  targetFile r = Some t ->
  apply backupDir now s r noBackup = (res, s') -> success res = false ->
  files s' !! t = files s !! t.
Proof.
  intros Ht. unfold apply. rewrite Ht. simpl.
  destruct (truthy t) eqn:Htr; simpl; [|by intros [= _ <-]].
  destruct (hasProblem r) eqn:Hp; simpl; [|by intros [= _ <-]].
  destruct (existsSync s t); simpl; [|by intros [= _ <-]].
  destruct (readFileSync s t) as [c0|e] eqn:Hr; [|by intros [= _ <-]].
  destruct (readFileSync_Ok _ _ _ Hr) as [Hf _]. rewrite Hf.
  assert (forall backupPath s1 e,
            backed_up backupDir now s t noBackup backupPath s1 ->
            files (snd (rollback s1 t backupPath e)) !! t = Some c0) as Hroll.
  { intros backupPath s1 e Hb.
    destruct (backed_up_keeps _ _ _ _ _ _ _ _ Hb Hf) as [Ht1 Hb1].
    by apply rollback_keeps. }
  destruct noBackup; simpl.
  - destruct (patch c0) as [c|e].
    + destruct (writeFileSync s t c) as [s2|e]; [by intros [= <- _]|].
      intros Hres _.
      replace s' with (snd (rollback s t None e)) by (by rewrite Hres).
      apply Hroll. left. done.
    + intros Hres _.
      replace s' with (snd (rollback s t None e)) by (by rewrite Hres).
      apply Hroll. left. done.
  - destruct (create backupDir now s t) as [[bp|e] s1] eqn:Hc;
      [|by intros [= _ <-]].
    destruct (patch c0) as [c|e].
    + destruct (writeFileSync s1 t c) as [s2|e]; [by intros [= <- _]|].
      intros Hres _.
      replace s' with (snd (rollback s1 t (Some bp) e)) by (by rewrite Hres).
      apply Hroll. right. eauto.
    + intros Hres _.
      replace s' with (snd (rollback s1 t (Some bp) e)) by (by rewrite Hres).
      apply Hroll. right. eauto.
Qed.

End RunFacts.

(** ** The time stamp in the name of a backup *)

Section BackupNameFacts.
Import BackupManager.

Lemma replace_all_removes (c d : N) (s : jsstring) :
  c <> d -> c ∉ replace_all (N.eqb c) d s.
Proof.
  intros Hne. unfold replace_all. induction s as [|x s IH]; simpl.
  - apply not_elem_of_nil.
  - rewrite not_elem_of_cons. split; [|done].
    destruct (c =? x) eqn:Hx; [done|]. by apply N.eqb_neq in Hx.
Qed.

(** The text that [list] hands to [new Date] holds no [-]. *)
Lemma timestampStr_no_dash file str :
  timestampStr file = Some str -> 45 ∉ str.
Proof.
  unfold timestampStr. destruct (exec timestampPattern file) as [[[? m] ?]|];
    [|done].
  intros [= <-]. by apply replace_all_removes.
Qed.

(** The text that [toISOString] writes holds one. *)
Lemma toISOString_has_dash t : 45 ∈ JsDate.toISOString t.
Proof.
  unfold JsDate.toISOString. destruct (JsDate.civil_from_days _) as [[y m] d].
  rewrite elem_of_app. right. left.
Qed.

Lemma digits_length n s v s' :
  JsDate.digits n s = Some (v, s') -> length s = (n + length s')%nat.
Proof.
  unfold JsDate.digits. destruct (n <=? length s)%nat eqn:Hn; [|done].
  apply Nat.leb_le in Hn.
  destruct (JsDate.number (take n s) 0); simpl; [|done].
  intros [= _ <-]. rewrite length_drop. lia.
Qed.

Lemma skip_digits_length c n s v s' :
  JsDate.skip c s ≫= JsDate.digits n = Some (v, s') ->
  s = c :: drop 1 s /\ length s = (1 + n + length s')%nat.
Proof.
  destruct s as [|x s]; simpl; [done|].
  destruct (x =? c) eqn:Hx; simpl; [|done]. apply N.eqb_eq in Hx as ->.
  intros Hd%digits_length. rewrite drop_0. split; [done|lia].
Qed.

Lemma read_time_length s h mi sec f s' :
  JsDate.read_time s = Some (h, mi, sec, f, s') ->
  (length s <= 13 + length s')%nat.
Proof.
  unfold JsDate.read_time.
  destruct s as [|x s]; simpl; [done|].
  destruct (x =? _); simpl; [|done].
  destruct (JsDate.digits 2 s) as [[h' s2]|] eqn:H2; simpl; [|done].
  apply digits_length in H2.
  destruct s2 as [|y s3]; simpl; [done|].
  destruct (y =? _); simpl; [|done].
  destruct (JsDate.digits 2 s3) as [[mi' s4]|] eqn:H4; simpl; [|done].
  apply digits_length in H4. simpl in H2.
  destruct (JsDate.skip _ s4 ≫= JsDate.digits 2) as [[sec' s5]|] eqn:H5.
  - apply skip_digits_length in H5 as [_ H5].
    destruct (JsDate.skip _ s5 ≫= JsDate.digits 3) as [[f' s6]|] eqn:H6.
    + apply skip_digits_length in H6 as [_ H6]. intros [= _ _ _ _ <-]. lia.
    + intros [= _ _ _ _ <-]. lia.
  - intros [= _ _ _ _ <-]. lia.
Qed.

Lemma read_offset_length s o s' :
  JsDate.read_offset s = Some (o, s') -> (length s <= 6 + length s')%nat.
Proof.
  unfold JsDate.read_offset. destruct s as [|c s]; [done|].
  destruct (c =? _); [intros [= _ <-]; simpl; lia|].
  destruct (_ || _); [|done].
  destruct (JsDate.digits 2 s) as [[h s2]|] eqn:H2; simpl; [|done].
  apply digits_length in H2.
  destruct s2 as [|y s3]; simpl; [done|].
  destruct (y =? _); simpl; [|done].
  destruct (JsDate.digits 2 s3) as [[mi s4]|] eqn:H4; simpl; [|done].
  apply digits_length in H4. simpl in H2.
  destruct (_ && _); [|done]. intros [= _ <-]. lia.
Qed.

(** A text without [-] that [read] reads holds no more than the year,
    the time with its thousandths and an offset: 23 units. *)
Lemma read_without_dash s r :
  JsDate.read s = Some r -> 45 ∉ s -> (length s <= 23)%nat.
Proof.
  unfold JsDate.read.
  destruct (JsDate.digits 4 s) as [[y s1]|] eqn:H4; simpl; [|done].
  intros Hr Hn. pose proof H4 as Hl%digits_length.
  assert (45 ∉ s1) as Hn1.
  { unfold JsDate.digits in H4. destruct (4 <=? length s)%nat; [|done].
    destruct (JsDate.number _ _); [|done]. injection H4 as _ <-.
    intros Hin. apply Hn. rewrite <- (take_drop 4 s), elem_of_app. by right. }
  assert (JsDate.read_month_day s1 = (1%Z, 1%Z, s1)) as Hmd.
  { unfold JsDate.read_month_day.
    destruct (JsDate.skip _ s1 ≫= JsDate.digits 2) as [[m s2]|] eqn:Hm;
      [|done].
    apply skip_digits_length in Hm as [Hm _]. destruct Hn1. rewrite Hm. left. }
  rewrite Hmd in Hr. destruct (_ && _); [|done].
  destruct s1 as [|c s1]; [simpl in Hl; lia|].
  destruct (JsDate.read_time (c :: s1)) as [[[[[h mi] sec] f] s3]|] eqn:Ht;
    simpl in Hr; [|done].
  apply read_time_length in Ht.
  destruct (_ || _); [|done].
  destruct s3 as [|c3 s3]; [simpl in *; lia|].
  destruct (JsDate.read_offset (c3 :: s3)) as [[o s4]|] eqn:Ho;
    simpl in Hr; [|done].
  apply read_offset_length in Ho.
  destruct s4; [|done]. simpl in *. lia.
Qed.

Lemma length_pad n v : length (JsDate.pad n v) = n.
Proof.
  revert v. induction n as [|n IH]; intros v; simpl; [done|].
  rewrite length_app, IH. simpl. lia.
Qed.

Lemma length_toISOString t : (24 <= length (JsDate.toISOString t))%nat.
Proof.
  unfold JsDate.toISOString. destruct (JsDate.civil_from_days _) as [[y m] d].
  rewrite !length_app, !length_pad.
  assert (4 <= length (JsDate.year_string y))%nat.
  { unfold JsDate.year_string. destruct (_ && _); [by rewrite length_pad|].
    destruct (y <? 0)%Z; cbn [length]; rewrite length_pad; lia. }
  simpl. lia.
Qed.

Lemma timestamp_no_dot t : 46 ∉ timestamp t.
Proof.
  unfold timestamp, replace_all. intros (x & Hx & _)%list_elem_of_fmap.
  destruct (x =? 58) eqn:H1; simpl in Hx; [done|].
  destruct (x =? 46) eqn:H2; simpl in Hx; [done|].
  apply N.eqb_neq in H2. done.
Qed.

(** The text that [list] hands to [new Date] for a name that [create]
    gave is at least as long as the time stamp: the first [.backup-] of
    the name is not after the one that [create] wrote. *)
Lemma timestampStr_created `{Node} t p str :
  timestampStr (backupFileName t p) = Some str -> (24 <= length str)%nat.
Proof.
  unfold timestampStr.
  destruct (exec timestampPattern _) as [[[pre m] post]|] eqn:He; [|done].
  intros [= <-]. apply exec_sound in He as [Hf Hm].
  unfold timestampPattern in Hm. simpl in Hm.
  apply matches_Cat_inv in Hm as (w1 & w2 & -> & Hw1 & Hm).
  apply (matches_lit_units (js ".backup-")) in Hw1 as ->.
  apply matches_Cat_inv in Hm as (w3 & w4 & -> & _ & Hm).
  apply matches_Cat_inv in Hm as (w5 & w6 & -> & H5 & ->%matches_Empty_inv).
  apply matches_Eoi_inv in H5 as [-> Hp]. simpl in Hp. subst post.
  rewrite !app_nil_r in Hf |- *.
  unfold replace_all. rewrite !length_map.
  change (drop 8 (js ".backup-" ++ w3)) with w3.
  pose proof (length_toISOString t) as Hl.
  assert (length (timestamp t) = length (JsDate.toISOString t)) as Hlt
    by (unfold timestamp, replace_all; by rewrite length_map).
  enough (length (timestamp t) <= length w3)%nat by lia.
  unfold backupFileName in Hf. symmetry in Hf.
  apply app_eq_inv in Hf as [(k & Hp & Hk)|(k & Hp & Hk)].
  - destruct k as [|c k];
      [apply (app_inv_head (js ".backup-")) in Hk;
       rewrite !app_nil_r in Hk; by rewrite Hk|].
    exfalso. injection Hk as <- Hk.
    assert (46 ∈ js "backup-" ++ timestamp t) as Hin.
    { cbn [app] in Hk |- *. rewrite Hk, elem_of_app. right. left. }
    apply elem_of_app in Hin as [Hin|Hin].
    + repeat (apply elem_of_cons in Hin as [Hin|Hin]; [discriminate|]).
      by apply elem_of_nil in Hin.
    + by apply timestamp_no_dot in Hin.
  - apply (f_equal length) in Hk. rewrite !length_app in Hk.
    simpl in Hk. lia.
Qed.

End BackupNameFacts.

(** * The claims *)

Import BackupManager Detector Patcher Sample.

(** C1, as amended.  When [apply] returns [success = true], the text it
    wrote passes the four substring checks of [verify], so the logic
    marker matches it; and when the text it read held neither the helper
    symbol with its module reference nor the logic marker, so that both
    fragments were inserted, detection on the written text reports no
    problem. *)
Theorem C1_success_postcondition `{Node} backupDir now s r noBackup t res s' :
  targetFile r = Some t -> hasProblem r = true ->
  apply backupDir now s r noBackup = (res, s') -> success res = true ->
  exists c0 c, readFileSync s t = Ok c0 /\ files s' !! t = Some c /\
    verify c = true /\
    test MEDIA_LOGIC_PATTERN c = true /\
    (has_import_words c0 = false ->
     includes (js "payload.mediaUrls?.length") c0 = false ->
     forall openclawPath version,
       hasProblem (classify openclawPath version t c) = false).
Proof.
  intros Ht _ Ha Hs.
  apply apply_success in Ha
    as (t' & c0 & c & s1 & Ht' & _ & Hr & Hp & Hw); [|done].
  assert (t' = t) as -> by congruence.
  exists c0, c. split; [done|]. split; [by eapply writeFileSync_Ok|].
  destruct (patch_Ok _ _ Hp) as (c1 & _ & _ & Hv). split; [done|]. split.
  { unfold verify in Hv. rewrite !andb_true_iff in Hv.
    destruct Hv as [[[_ Hl] _] _]. by rewrite includes_test in Hl. }
  intros Hw0 Hl0 op v.
  destruct (patch_inserts_markers _ _ Hw0 Hl0 Hp) as (H1 & H2 & H3).
  simpl. by rewrite H1, H2, H3.
Qed.

(** C1 as stated fails on the dispatcher patched by hand: the text holds
    every word that [verify] looks for, both steps are skipped and [apply]
    succeeds; the import marker of the detector does not match the text
    written, and detection still reports a problem. *)
Lemma C1_counterexample :
  targetFile (@check node (disk hand_patched allow allow)) = Some target /\
  hasProblem (@check node (disk hand_patched allow allow)) = true /\
  success (fst (@apply node backups now (disk hand_patched allow allow)
                  (@check node (disk hand_patched allow allow)) false)) = true /\
  files (snd (@apply node backups now (disk hand_patched allow allow)
                (@check node (disk hand_patched allow allow)) false)) !! target
    = Some hand_patched /\
  test MEDIA_IMPORT_PATTERN hand_patched = false /\
  hasProblem
    (@check node
       (snd (@apply node backups now (disk hand_patched allow allow)
               (@check node (disk hand_patched allow allow)) false))) = true.
Proof. vm_compute. repeat split. Qed.

(** C1 on the dispatcher as the host ships it: both fragments are
    inserted and detection finds nothing left. *)
Lemma C1_witness :
  targetFile (@check node (disk unpatched allow allow)) = Some target /\
  hasProblem (@check node (disk unpatched allow allow)) = true /\
  success (fst (@apply node backups now (disk unpatched allow allow)
                  (@check node (disk unpatched allow allow)) false)) = true /\
  has_import_words unpatched = false /\
  includes (js "payload.mediaUrls?.length") unpatched = false /\
  files (snd (@apply node backups now (disk unpatched allow allow)
                (@check node (disk unpatched allow allow)) false)) !! target
    = Some patched /\
  verify patched = true /\
  test MEDIA_LOGIC_PATTERN patched = true /\
  hasProblem (classify (Some install) None target patched) = false.
Proof.
  do 5 (split; [vm_compute; reflexivity|]).
  destruct (@C1_success_postcondition node backups now
              (disk unpatched allow allow)
              (@check node (disk unpatched allow allow)) false target
              (fst (@apply node backups now (disk unpatched allow allow)
                      (@check node (disk unpatched allow allow)) false))
              (snd (@apply node backups now (disk unpatched allow allow)
                      (@check node (disk unpatched allow allow)) false)))
    as (c0 & c & Hr & Hf & Hv & Hl & Hd);
    [vm_compute; reflexivity|vm_compute; reflexivity
    |apply surjective_pairing|vm_compute; reflexivity|].
  vm_compute in Hr. injection Hr as <-.
  vm_compute in Hf. injection Hf as <-.
  split; [reflexivity|]. split; [exact Hv|]. split; [exact Hl|].
  apply Hd; vm_compute; reflexivity.
Defined.

(** C2, as amended.  On every run of [apply] the target file keeps its
    text or [apply] has succeeded and the text written has passed
    [verify]; and for a text without the logic marker in which the anchor
    of the handler does not match, [apply], once its preconditions hold
    and the backup is made or skipped, fails with [PATCH_FAILED] and the
    target file keeps its text. *)
Theorem C2_missing_anchor_fails `{Node} backupDir now s r noBackup t res s' :
  targetFile r = Some t ->
  apply backupDir now s r noBackup = (res, s') ->
  (files s' !! t = files s !! t \/
   success res = true /\ exists c, files s' !! t = Some c /\ verify c = true) /\
  (forall c,
     truthy t = true -> hasProblem r = true -> readFileSync s t = Ok c ->
     noBackup = true \/
       (exists bp s1, create backupDir now s t = (Ok bp, s1)) ->
     includes (js "payload.mediaUrls?.length") c = false ->
     test deliverAnchor c = false ->
     success res = false /\
     (exists msg, errors res = Some [ErrorInfo FixerError.PATCH_FAILED msg]) /\
     files s' !! t = files s !! t).
Proof.
  intros Ht Ha. split.
  - destruct (success res) eqn:Hs.
    + right. split; [done|].
      apply apply_success in Ha
        as (t' & c0 & c & s1 & Ht' & _ & _ & Hp & Hw); [|done].
      assert (t' = t) as -> by congruence.
      destruct (patch_Ok _ _ Hp) as (c1 & _ & _ & Hv).
      exists c. split; [by eapply writeFileSync_Ok|done].
    + left. by eapply apply_failure_keeps.
  - intros c Htr Hp Hr Hb Hl Hd.
    destruct (patch_without_anchor c Hl Hd) as [e He].
    destruct (apply_when_patch_fails backupDir now s r noBackup t c e
                Ht Htr Hp Hr He) as (res' & s'' & Hap & Hs & Hf & Hpf & _).
    rewrite Ha in Hap. injection Hap as <- <-. auto.
Qed.

(** C2 as stated fails on the dispatcher whose handler is a method: the
    anchor of the handler does not match; the logic step finds the logic
    marker and never looks for the anchor, the import step adds its line,
    verification passes, and [apply] succeeds and rewrites the file. *)
Lemma C2_counterexample :
  test deliverAnchor method_form = false /\
  success (fst (@apply node backups now (disk method_form allow allow)
                  (@check node (disk method_form allow allow)) false)) = true /\
  errors (fst (@apply node backups now (disk method_form allow allow)
                 (@check node (disk method_form allow allow)) false)) = None /\
  files (snd (@apply node backups now (disk method_form allow allow)
                (@check node (disk method_form allow allow)) false)) !! target
    <> files (disk method_form allow allow) !! target.
Proof. vm_compute. repeat split. discriminate. Qed.

(** C2 on the text without import and without handler, with the backup
    skipped. *)
Lemma C2_witness :
  targetFile (@check node (disk no_import allow allow)) = Some target /\
  truthy target = true /\
  hasProblem (@check node (disk no_import allow allow)) = true /\
  readFileSync (disk no_import allow allow) target = Ok no_import /\
  includes (js "payload.mediaUrls?.length") no_import = false /\
  test deliverAnchor no_import = false /\
  success (fst (@apply node backups now (disk no_import allow allow)
                  (@check node (disk no_import allow allow)) true)) = false /\
  (exists msg,
     errors (fst (@apply node backups now (disk no_import allow allow)
                    (@check node (disk no_import allow allow)) true))
       = Some [ErrorInfo FixerError.PATCH_FAILED msg]) /\
  files (snd (@apply node backups now (disk no_import allow allow)
                (@check node (disk no_import allow allow)) true)) !! target
    = files (disk no_import allow allow) !! target.
Proof.
  do 6 (split; [vm_compute; reflexivity|]).
  apply (proj2 (@C2_missing_anchor_fails node backups now
                  (disk no_import allow allow)
                  (@check node (disk no_import allow allow)) true target
                  _ _ ltac:(vm_compute; reflexivity)
                  (surjective_pairing _)) no_import);
    try (vm_compute; reflexivity).
  left. reflexivity.
Defined.

(** C3. For a text that the detector classifies, the problem flag is
    false exactly when the text matches the import marker, the logic
    marker and the call marker. *)
Theorem C3_problem_iff_markers `{Node} s p t content :
  locateOpenClaw s = Some p -> truthy p = true ->
  locateTargetFile s (Some p) = Some t -> truthy t = true ->
  readFileSync s t = Ok content ->
  (hasProblem (check s) = false <->
     test MEDIA_IMPORT_PATTERN content = true /\
     test MEDIA_LOGIC_PATTERN content = true /\
     test SEND_MEDIA_CALL_PATTERN content = true).
Proof.
  intros Hp Htp Ht Htt Hr.
  rewrite (check_classifies _ _ _ _ Hp Htp Ht Htt Hr). simpl.
  rewrite negb_false_iff, !andb_true_iff. tauto.
Qed.

(** C3 on the patched dispatcher: the three markers match and there is
    no problem. *)
Lemma C3_witness :
  @locateOpenClaw node (disk patched allow allow) = Some install /\
  truthy install = true /\
  @locateTargetFile node (disk patched allow allow) (Some install)
    = Some target /\
  truthy target = true /\
  readFileSync (disk patched allow allow) target = Ok patched /\
  (hasProblem (@check node (disk patched allow allow)) = false <->
     test MEDIA_IMPORT_PATTERN patched = true /\
     test MEDIA_LOGIC_PATTERN patched = true /\
     test SEND_MEDIA_CALL_PATTERN patched = true).
Proof.
  do 5 (split; [vm_compute; reflexivity|]).
  apply (@C3_problem_iff_markers node (disk patched allow allow)
           install target patched); vm_compute; reflexivity.
Defined.

(** C4, on a text without any import and without the anchor: the
    search for the last import gives -1, the search for a line end from
    -1 starts at the head of the text, and the import line goes after the
    first line instead of the step failing. *)
Theorem C4_import_after_first_line :
  test importAnchor no_import = false /\
  includes (js "import") no_import = false /\
  lastIndexOf (js "import ") no_import = (-1)%Z /\
  indexOf nl no_import (-1) = 12%Z /\
  addImport no_import =
    Ok (js "const a = 1;" ++ nl ++ MEDIA_IMPORT ++ nl ++
        js "const b = 2;" ++ nl).
Proof. vm_compute. repeat split. Qed.

(** C5. [apply] checks its four preconditions in order, and each one
    that fails ends the call with [success = false] and its own tagged
    error, a list of one pair of a code and a message: no target file in
    the report gives [FILE_NOT_FOUND]; else a report without a problem
    gives [ALREADY_FIXED]; else a target path that does not exist gives
    [FILE_NOT_FOUND] with the path in the message; else a file that
    cannot be read gives [PERMISSION_DENIED] with the message of the
    error thrown.  The file system is left as it was, and the four pairs
    differ from one another. *)
Theorem C5_preconditions_in_order `{Node} backupDir now s r noBackup :
  (truthy_opt (targetFile r) = false ->
     apply backupDir now s r noBackup =
       ({| success := false;
           fix_message := js "未找到目标文件";
           backupPath := None;
           error := None;
           errors := Some [ErrorInfo FixerError.FILE_NOT_FOUND
                             (js "未找到目标文件")] |}, s)) /\
  (forall t, targetFile r = Some t -> truthy t = true ->
     hasProblem r = false ->
     apply backupDir now s r noBackup =
       ({| success := false;
           fix_message := js "已经修复过了，无需重复修复";
           backupPath := None;
           error := None;
           errors := Some [ErrorInfo FixerError.ALREADY_FIXED
                             (js "已经修复过了")] |}, s)) /\
  (forall t, targetFile r = Some t -> truthy t = true ->
     hasProblem r = true -> existsSync s t = false ->
     apply backupDir now s r noBackup =
       ({| success := false;
           fix_message := js "目标文件不存在: " ++ t;
           backupPath := None;
           error := None;
           errors := Some [ErrorInfo FixerError.FILE_NOT_FOUND
                             (js "目标文件不存在: " ++ t)] |}, s)) /\
  (forall t e, targetFile r = Some t -> truthy t = true ->
     hasProblem r = true -> existsSync s t = true ->
     readFileSync s t = Err e ->
     apply backupDir now s r noBackup =
       ({| success := false;
           fix_message := js "无法读取文件: " ++ exn_message e;
           backupPath := None;
           error := Some e;
           errors := Some [ErrorInfo FixerError.PERMISSION_DENIED
                             (js "无法读取文件: " ++ exn_message e)] |}, s)) /\
  (forall t m,
     NoDup [ ErrorInfo FixerError.FILE_NOT_FOUND (js "未找到目标文件");
             ErrorInfo FixerError.ALREADY_FIXED (js "已经修复过了");
             ErrorInfo FixerError.FILE_NOT_FOUND (js "目标文件不存在: " ++ t);
             ErrorInfo FixerError.PERMISSION_DENIED
               (js "无法读取文件: " ++ m) ]).
Proof.
  repeat split.
  - intros Ht. unfold apply. by rewrite Ht.
  - intros t Ht Htr Hp. unfold apply. rewrite Ht. simpl. by rewrite Htr, Hp.
  - intros t Ht Htr Hp He. unfold apply. rewrite Ht. simpl.
    by rewrite Htr, Hp, He.
  - intros t e Ht Htr Hp He Hr. unfold apply. rewrite Ht. simpl.
    by rewrite Htr, Hp, He, Hr.
  - intros t m. repeat constructor; rewrite ?elem_of_cons, ?elem_of_nil;
      intros Hin; repeat destruct Hin as [Hin|Hin];
      try discriminate; done.
Qed.

(** C5 on four runs, one for each precondition: no installation; a file
    already patched; a target file that has gone since detection; a target
    file that cannot be read. *)
Lemma C5_witness :
  @apply node backups now empty_disk (@check node empty_disk) false =
    ({| success := false;
        fix_message := js "未找到目标文件";
        backupPath := None;
        error := None;
        errors := Some [ErrorInfo FixerError.FILE_NOT_FOUND
                          (js "未找到目标文件")] |}, empty_disk) /\
  @apply node backups now (disk patched allow allow)
    (@check node (disk patched allow allow)) false =
    ({| success := false;
        fix_message := js "已经修复过了，无需重复修复";
        backupPath := None;
        error := None;
        errors := Some [ErrorInfo FixerError.ALREADY_FIXED
                          (js "已经修复过了")] |}, disk patched allow allow) /\
  @apply node backups now disk_without_target
    (@check node (disk unpatched allow allow)) false =
    ({| success := false;
        fix_message := js "目标文件不存在: " ++ target;
        backupPath := None;
        error := None;
        errors := Some [ErrorInfo FixerError.FILE_NOT_FOUND
                          (js "目标文件不存在: " ++ target)] |},
     disk_without_target) /\
  @apply node backups now (disk unpatched below_usr allow)
    (@check node (disk unpatched below_usr allow)) false =
    ({| success := false;
        fix_message := js "无法读取文件: " ++ EACCES;
        backupPath := None;
        error := Some (Exn None EACCES);
        errors := Some [ErrorInfo FixerError.PERMISSION_DENIED
                          (js "无法读取文件: " ++ EACCES)] |},
     disk unpatched below_usr allow).
Proof.
  split; [|split; [|split]].
  - apply (proj1 (@C5_preconditions_in_order node backups now empty_disk
                    (@check node empty_disk) false)).
    vm_compute; reflexivity.
  - apply (proj1 (proj2 (@C5_preconditions_in_order node backups now
                    (disk patched allow allow)
                    (@check node (disk patched allow allow)) false)) target);
      vm_compute; reflexivity.
  - apply (proj1 (proj2 (proj2 (@C5_preconditions_in_order node backups now
                    disk_without_target
                    (@check node (disk unpatched allow allow)) false))) target);
      vm_compute; reflexivity.
  - apply (proj1 (proj2 (proj2 (proj2 (@C5_preconditions_in_order node
                    backups now (disk unpatched below_usr allow)
                    (@check node (disk unpatched below_usr allow)) false))))
             target (Exn None EACCES));
      vm_compute; reflexivity.
Defined.

(** C6. When the logic marker matches and the call marker does not, the
    findings are the finding for a missing import, if the import marker
    does not match, followed by the warning for the missing call; when the
    logic marker does not match, the findings hold no warning at all,
    whatever the call marker does. *)
Theorem C6_missing_call_warning `{Node} s p t content :
  locateOpenClaw s = Some p -> truthy p = true ->
  locateTargetFile s (Some p) = Some t -> truthy t = true ->
  readFileSync s t = Ok content ->
  exists found, issues (check s) = Some found /\
    (test MEDIA_LOGIC_PATTERN content = true ->
     test SEND_MEDIA_CALL_PATTERN content = false ->
     found = (if test MEDIA_IMPORT_PATTERN content then []
              else [missing_import_issue t]) ++ [missing_call_issue t] /\
     missing_call_issue t ∈ found /\
     issue_kind (missing_call_issue t) = type_warning) /\
    (test MEDIA_LOGIC_PATTERN content = false ->
     forall i, i ∈ found -> issue_kind i <> type_warning).
Proof.
  intros Hp Htp Ht Htt Hr.
  rewrite (check_classifies _ _ _ _ Hp Htp Ht Htt Hr). simpl.
  eexists. split; [done|]. split.
  - intros -> ->. simpl. split; [by destruct (test MEDIA_IMPORT_PATTERN content)|].
    split; [|done]. rewrite elem_of_app, list_elem_of_singleton. by right.
  - intros ->. rewrite andb_false_r. simpl. intros i.
    destruct (test MEDIA_IMPORT_PATTERN content); simpl;
      rewrite ?elem_of_cons, ?elem_of_nil; intros Hin;
      repeat destruct Hin as [Hin|Hin]; subst; done.
Qed.

(** C6 on the partial patch: the import marker and the call marker do not
    match, the logic marker does. *)
Lemma C6_witness :
  @locateOpenClaw node (disk partial_patch allow allow) = Some install /\
  truthy install = true /\
  @locateTargetFile node (disk partial_patch allow allow) (Some install)
    = Some target /\
  truthy target = true /\
  readFileSync (disk partial_patch allow allow) target = Ok partial_patch /\
  test MEDIA_LOGIC_PATTERN partial_patch = true /\
  test SEND_MEDIA_CALL_PATTERN partial_patch = false /\
  issues (@check node (disk partial_patch allow allow))
    = Some [missing_import_issue target; missing_call_issue target] /\
  issue_kind (missing_call_issue target) = type_warning.
Proof.
  do 7 (split; [vm_compute; reflexivity|]).
  destruct (@C6_missing_call_warning node (disk partial_patch allow allow)
              install target partial_patch)
    as (found & Hf & Hw & _); try (vm_compute; reflexivity).
  destruct Hw as (-> & _ & Hk); try (vm_compute; reflexivity).
  split; [exact Hf|exact Hk].
Defined.

(** C7. Both insertion steps are idempotent on the text: a text that
    holds the helper symbol and its module reference comes back from the
    import step as it is; a text that holds the logic marker comes back
    from the logic step as it is; and the text that the two steps produce
    comes back from both of them unchanged. *)
Theorem C7_insertion_steps_idempotent :
  (forall c, has_import_words c = true -> addImport c = Ok c) /\
  (forall c, includes (js "payload.mediaUrls?.length") c = true ->
     addMediaLogic c = Ok c) /\
  (forall c c1 c2, addImport c = Ok c1 -> addMediaLogic c1 = Ok c2 ->
     addImport c2 = Ok c2 /\ addMediaLogic c2 = Ok c2).
Proof.
  assert (forall c, has_import_words c = true -> addImport c = Ok c) as H1.
  { intros c Hc. unfold addImport. by rewrite Hc. }
  assert (forall c, includes (js "payload.mediaUrls?.length") c = true ->
            addMediaLogic c = Ok c) as H2.
  { intros c Hc. unfold addMediaLogic. by rewrite Hc. }
  split; [done|]. split; [done|].
  intros c c1 c2 Hi Hl. split.
  - apply H1. apply addImport_has_words in Hi.
    apply andb_prop in Hi as [Hw1 Hw2]. unfold has_import_words.
    rewrite includes_test in Hw1, Hw2 |- *.
    rewrite (addMediaLogic_keeps_match _ c1 c2); [|done..].
    rewrite includes_test.
    by rewrite (addMediaLogic_keeps_match _ c1 c2).
  - apply H2. by eapply addMediaLogic_has_marker.
Qed.

(** C7 on the dispatcher as the host ships it and on its patched text. *)
Lemma C7_witness :
  has_import_words patched = true /\
  includes (js "payload.mediaUrls?.length") patched = true /\
  addImport unpatched = Ok with_import /\
  addMediaLogic with_import = Ok patched /\
  addImport patched = Ok patched /\
  addMediaLogic patched = Ok patched.
Proof.
  do 4 (split; [vm_compute; reflexivity|]).
  destruct C7_insertion_steps_idempotent as (H1 & H2 & H3).
  split.
  - apply H1. vm_compute; reflexivity.
  - apply (H3 unpatched with_import patched); vm_compute; reflexivity.
Defined.

(** C8, as amended.  For a regular file [p] that can be read and
    written, and a backup path that [create] can write and [restore] can
    read, [restore(create(p), p)] succeeds: the backup holds the text of
    [p], and [p] ends with the text it had when [create] was called. *)
Theorem C8_backup_round_trip `{Node} backupDir now s p c :
  files s !! p = Some c ->
  rdeny s p = None -> wdeny s p = None ->
  rdeny s (join [backupDir; backupFileName now p]) = None ->
  wdeny s (join [backupDir; backupFileName now p]) = None ->
  exists bp s1 s2,
    create backupDir now s p = (Ok bp, s1) /\
    files s1 !! bp = Some c /\
    restore s1 bp p = (Ok tt, s2) /\
    files s2 !! p = Some c.
Proof.
  intros Hp Hrp Hwp Hrb Hwb.
  set (bp := join [backupDir; backupFileName now p]) in *.
  assert (create backupDir now s p =
          (Ok bp, with_files (<[bp := c]> (files s)) s)) as Hc.
  { unfold create, existsSync, copyFileSync, contents, writeFileSync.
    rewrite Hp, Hrp. simpl. fold bp. by rewrite Hwb. }
  exists bp, (with_files (<[bp := c]> (files s)) s).
  destruct (create_keeps _ _ _ _ _ _ _ Hc Hp) as [Hp1 Hb1].
  exists (with_files (<[p := c]> (<[bp := c]> (files s))) s).
  split; [done|]. split; [done|]. split.
  - unfold restore, existsSync, copyFileSync, contents, writeFileSync.
    rewrite Hb1. simpl. by rewrite Hrb, Hwp.
  - simpl. by rewrite lookup_insert_eq.
Qed.

(** C8 as stated fails where the installation belongs to another user
    and its files can be read and not written: [create] copies the target
    file into the backup directory, and [restore] is refused the copy
    back. *)
Lemma C8_counterexample :
  existsSync (disk unpatched allow below_usr) target = true /\
  fst (@create node backups now (disk unpatched allow below_usr) target)
    = Ok (@join node [backups; backup_name]) /\
  fst (restore
         (snd (@create node backups now
                 (disk unpatched allow below_usr) target))
         (@join node [backups; backup_name]) target)
    = Err (FixerException FixerError.PERMISSION_DENIED
             (js "无法恢复备份: " ++ EACCES)).
Proof. vm_compute. repeat split. Qed.

(** C8 on the target file of a file system that refuses nothing. *)
Lemma C8_witness :
  files (disk unpatched allow allow) !! target = Some unpatched /\
  exists bp s1 s2,
    @create node backups now (disk unpatched allow allow) target
      = (Ok bp, s1) /\
    files s1 !! bp = Some unpatched /\
    restore s1 bp target = (Ok tt, s2) /\
    files s2 !! target = Some unpatched.
Proof.
  split; [vm_compute; reflexivity|].
  apply (@C8_backup_round_trip node backups now
           (disk unpatched allow allow) target unpatched);
    vm_compute; reflexivity.
Defined.

(** C9.  For no instant and no path does [list] hand to [new Date] the
    text that [create] took from [toISOString]: it turns every [-] of the
    time stamp into [:], also the two of the date, so the second [replace]
    finds nothing to turn into [.].  The text handed over for a name that
    [create] gave is not of the date-time string format, whatever the
    instant and the path.  For the name given at 2026-02-25T10:30:00.123Z
    the text handed over is no date, and the record gets the birth time of
    the file, not the instant in its name. *)
Theorem C9_created_name_gets_birthtime :
  (forall (N : Node) (t : Z) (p : jsstring),
     timestampStr (backupFileName t p) <> Some (JsDate.toISOString t)) /\
  (forall (N : Node) (t : Z) (p str : jsstring),
     timestampStr (backupFileName t p) = Some str ->
     JsDate.read str = None) /\
  @backupFileName node now target = backup_name /\
  JsDate.toISOString now = js "2026-02-25T10:30:00.123Z" /\
  JsDate.parse (JsDate.toISOString now) = Some now /\
  timestampStr backup_name = Some (js "2026:02:25T10:30:00:123Z") /\
  JsDate.parse (js "2026:02:25T10:30:00:123Z") = None /\
  @new_Date node (js "2026:02:25T10:30:00:123Z") = None /\
  @resolveCreatedAt node backup_name copied_later = birthtime copied_later /\
  createdAt <$> @list node backups disk_with_backup (Some target)
    = [birthtime copied_later] /\
  birthtime copied_later <> now.
Proof.
  split; [|split].
  - intros N t p Hs. apply timestampStr_no_dash in Hs.
    destruct Hs. apply toISOString_has_dash.
  - intros N t p str Hs. destruct (JsDate.read str) as [r|] eqn:Hr; [|done].
    apply read_without_dash in Hr; [|by eapply timestampStr_no_dash].
    apply timestampStr_created in Hs. lia.
  - vm_compute. repeat split. discriminate.
Qed.

(** C10, as amended.  For a text that holds the logic marker and neither
    [await sendMediaFeishu] nor the attribution marker, [apply], once its
    preconditions hold, fails and the target file keeps its text: the
    outcome is [PATCH_FAILED] when the backup is made or skipped, and
    [PERMISSION_DENIED] when the backup cannot be made. *)
Theorem C10_partial_patch_fails `{Node} backupDir now s r noBackup t c :
  targetFile r = Some t -> truthy t = true -> hasProblem r = true ->
  readFileSync s t = Ok c ->
  includes (js "payload.mediaUrls?.length") c = true ->
  includes (js "await sendMediaFeishu") c = false ->
  includes (js "openclaw-feishu-media-fixer") c = false ->
  exists res s', apply backupDir now s r noBackup = (res, s') /\
    success res = false /\
    files s' !! t = files s !! t /\
    (noBackup = true \/
     (exists bp s1, create backupDir now s t = (Ok bp, s1)) ->
     exists msg, errors res = Some [ErrorInfo FixerError.PATCH_FAILED msg]) /\
    (noBackup = false ->
     (exists e, fst (create backupDir now s t) = Err e) ->
     exists msg, errors res = Some [ErrorInfo FixerError.PERMISSION_DENIED msg]).
Proof.
  intros Ht Htr Hp Hr Hl Hc _.
  destruct (patch_of_partial_patch c Hl Hc) as [e He].
  by apply (apply_when_patch_fails backupDir now s r noBackup t c e).
Qed.

(** C10 as stated fails where the backup directory cannot be written:
    [apply] stops at the backup with [PERMISSION_DENIED], before the
    steps of the patch. *)
Lemma C10_counterexample :
  targetFile (@check node (disk partial_patch allow below_backups))
    = Some target /\
  hasProblem (@check node (disk partial_patch allow below_backups))
    = true /\
  includes (js "payload.mediaUrls?.length") partial_patch = true /\
  includes (js "await sendMediaFeishu") partial_patch = false /\
  includes (js "openclaw-feishu-media-fixer") partial_patch = false /\
  errors (fst (@apply node backups now
                 (disk partial_patch allow below_backups)
                 (@check node (disk partial_patch allow below_backups))
                 false)) =
    Some [ErrorInfo FixerError.PERMISSION_DENIED
            (js "备份失败: 无法创建备份: " ++ EACCES)].
Proof. vm_compute. repeat split. Qed.

(** C10 on the partial patch, with the backup made. *)
Lemma C10_witness :
  targetFile (@check node (disk partial_patch allow allow)) = Some target /\
  truthy target = true /\
  hasProblem (@check node (disk partial_patch allow allow)) = true /\
  readFileSync (disk partial_patch allow allow) target = Ok partial_patch /\
  includes (js "payload.mediaUrls?.length") partial_patch = true /\
  includes (js "await sendMediaFeishu") partial_patch = false /\
  includes (js "openclaw-feishu-media-fixer") partial_patch = false /\
  exists res s',
    @apply node backups now (disk partial_patch allow allow)
      (@check node (disk partial_patch allow allow)) false = (res, s') /\
    success res = false /\
    files s' !! target = files (disk partial_patch allow allow) !! target /\
    (false = true \/
     (exists bp s1, @create node backups now (disk partial_patch allow allow)
                      target = (Ok bp, s1)) ->
     exists msg, errors res = Some [ErrorInfo FixerError.PATCH_FAILED msg]) /\
    (false = false ->
     (exists e, fst (@create node backups now
                       (disk partial_patch allow allow) target) = Err e) ->
     exists msg, errors res = Some [ErrorInfo FixerError.PERMISSION_DENIED msg]).
Proof.
  do 7 (split; [vm_compute; reflexivity|]).
  apply (@C10_partial_patch_fails node backups now
           (disk partial_patch allow allow)
           (@check node (disk partial_patch allow allow)) false target
           partial_patch);
    vm_compute; reflexivity.
Defined.

(** * Further properties *)

Import Commands Archive.

(** ** The backup store *)

Section StoreFacts.
Context `{Node}.

Lemma writeFileSync_effect s p c s' :
  writeFileSync s p c = Ok s' ->
  s' = with_files (<[p := c]> (files s)) s /\ wdeny s p = None.
Proof.
  unfold writeFileSync. destruct (wdeny s p); [done|].
  intros [= <-]. done.
Qed.

Lemma copyFileSync_effect s src dst s' :
  copyFileSync s src dst = Ok s' ->
  exists c, files s !! src = Some c /\ rdeny s src = None /\
    wdeny s dst = None /\ s' = with_files (<[dst := c]> (files s)) s.
Proof.
  unfold copyFileSync. destruct (contents s src _ _) as [c|e] eqn:Hr; [|done].
  intros [-> Hw]%writeFileSync_effect.
  apply contents_Ok in Hr as [Hf Hd]. by exists c.
Qed.

Lemma delete_Ok s p s' :
  delete s p = (Ok tt, s') ->
  files s' = base.delete p (files s) /\ dirs s' = dirs s /\
  rdeny s' = rdeny s /\ wdeny s' = wdeny s /\
  readdir s' = readdir s /\ stat s' = stat s.
Proof.
  unfold delete. destruct (existsSync s p) eqn:He; simpl.
  - unfold unlinkSync. destruct (files s !! p) eqn:Hf.
    + destruct (wdeny s p); [done|]. by intros [= <-].
    + done.
  - intros [= <-]. split; [|done].
    unfold existsSync in He. destruct (files s !! p) eqn:Hf; [done|].
    by rewrite delete_id.
Qed.

Lemma delete_Err s p e s' :
  delete s p = (Err e, s') ->
  s' = s /\ exn_code e = Some FixerError.PERMISSION_DENIED /\
  existsSync s p = true.
Proof.
  unfold delete. destruct (existsSync s p) eqn:He; simpl; [|done].
  destruct (unlinkSync s p); [done|]. by intros [= <- <-].
Qed.

Lemma insert_sorted_perm a l : insert_sorted a l ≡ₚ a :: l.
Proof.
  induction l as [|b l IH]; simpl; [done|].
  destruct (createdAt b - createdAt a <=? 0)%Z; [done|].
  by rewrite IH, Permutation_swap.
Qed.

Lemma sort_perm l : sort l ≡ₚ l.
Proof.
  induction l as [|a l IH]; simpl; [done|].
  by rewrite insert_sorted_perm, IH.
Qed.

Lemma insert_sorted_sorted a l :
  StronglySorted (fun x y => (createdAt y <= createdAt x)%Z) l ->
  StronglySorted (fun x y => (createdAt y <= createdAt x)%Z)
    (insert_sorted a l).
Proof.
  induction 1 as [|b l Hs IH Hb]; simpl.
  - by repeat constructor.
  - destruct (createdAt b - createdAt a <=? 0)%Z eqn:Hc.
    + apply Z.leb_le in Hc. constructor; [by constructor|].
      constructor; [lia|].
      eapply Forall_impl; [exact Hb|]. simpl. intros; lia.
    + apply Z.leb_gt in Hc. constructor; [done|].
      rewrite insert_sorted_perm. constructor; [lia|done].
Qed.

Lemma sort_sorted l :
  StronglySorted (fun x y => (createdAt y <= createdAt x)%Z) (sort l).
Proof.
  induction l as [|a l IH]; simpl; [constructor|].
  by apply insert_sorted_sorted.
Qed.

Lemma list_entry_Some backupDir s p file b :
  truthy p = true ->
  list_entry backupDir s (Some p) file = Some b ->
  includes (js ".backup-") file = true /\
  split_head (js ".backup-") file = basename p /\
  path b = join [backupDir; file] /\ originalPath b = p /\
  exists st, stat s (path b) = Some st /\ size b = st_size st /\
    createdAt b = resolveCreatedAt file st.
Proof.
  intros Hp. unfold list_entry. simpl. rewrite Hp. simpl.
  destruct (includes _ file); [|done]. simpl.
  case_bool_decide as Hn; [|done]. simpl.
  destruct (stat s (join [backupDir; file])) as [st|] eqn:Hst; [|done].
  intros [= <-]. simpl. repeat split; try done. by exists st.
Qed.

Lemma list_sorted backupDir s originalFile :
  StronglySorted (fun a b => (createdAt b <= createdAt a)%Z)
    (list backupDir s originalFile).
Proof.
  unfold list. destruct (existsSync s backupDir); simpl;
    [apply sort_sorted|constructor].
Qed.

Lemma list_perm backupDir s originalFile :
  list backupDir s originalFile ≡ₚ
    (if existsSync s backupDir
     then omap (list_entry backupDir s originalFile) (readdir s backupDir)
     else []).
Proof.
  unfold list. destruct (existsSync s backupDir); simpl;
    [apply sort_perm|done].
Qed.

End StoreFacts.

(** X1. [create] writes the backup path and nothing else.  When it
    succeeds the path returned is the backup directory joined with the
    name and the time stamp, and holds the text of the file; when it
    throws the file system is as it was, and the code of the exception is
    [FILE_NOT_FOUND] if nothing exists at the path and [PERMISSION_DENIED]
    otherwise, also for a directory. *)
Theorem X1_create_effect `{Node} backupDir now s p r s' :
  create backupDir now s p = (r, s') ->
  (forall q, q <> join [backupDir; backupFileName now p] ->
     files s' !! q = files s !! q) /\
  dirs s' = dirs s /\
  match r with
  | Ok bp =>
    bp = join [backupDir; backupFileName now p] /\
    exists c, files s !! p = Some c /\ files s' !! bp = Some c
  | Err e =>
    s' = s /\
    exn_code e = Some (if existsSync s p then FixerError.PERMISSION_DENIED
                       else FixerError.FILE_NOT_FOUND)
  end.
Proof.
  unfold create. destruct (existsSync s p) eqn:He; simpl.
  - destruct (copyFileSync s p _) as [s1|e] eqn:Hc.
    + intros [= <- <-].
      apply copyFileSync_effect in Hc as (c & Hf & _ & _ & ->). simpl.
      split; [|split; [done|split; [done|]]].
      * intros q Hq. by rewrite lookup_insert_ne.
      * exists c. by rewrite lookup_insert_eq.
    + by intros [= <- <-].
  - by intros [= <- <-].
Qed.

(** X1 on the target file of the installation. *)
Lemma X1_witness :
  let run := @create node backups now (disk unpatched allow allow) target in
  (forall q, q <> @join node [backups; @backupFileName node now target] ->
     files (snd run) !! q = files (disk unpatched allow allow) !! q) /\
  dirs (snd run) = dirs (disk unpatched allow allow) /\
  match fst run with
  | Ok bp =>
    bp = @join node [backups; @backupFileName node now target] /\
    exists c, files (disk unpatched allow allow) !! target = Some c /\
      files (snd run) !! bp = Some c
  | Err e =>
    snd run = disk unpatched allow allow /\
    exn_code e =
      Some (if existsSync (disk unpatched allow allow) target
            then FixerError.PERMISSION_DENIED
            else FixerError.FILE_NOT_FOUND)
  end.
Proof.
  intros run.
  apply (@X1_create_effect node backups now (disk unpatched allow allow)
           target (fst run) (snd run)).
  apply surjective_pairing.
Defined.

(** X2. [restore] writes the target path and nothing else.  When it
    succeeds the target holds the text of the backup; when it throws the
    file system is as it was, and the code of the exception is
    [BACKUP_NOT_FOUND] if nothing exists at the backup path and
    [PERMISSION_DENIED] otherwise. *)
Theorem X2_restore_effect s bp p r s' :
  restore s bp p = (r, s') ->
  (forall q, q <> p -> files s' !! q = files s !! q) /\
  dirs s' = dirs s /\
  match r with
  | Ok _ => exists c, files s !! bp = Some c /\ files s' !! p = Some c
  | Err e =>
    s' = s /\
    exn_code e = Some (if existsSync s bp then FixerError.PERMISSION_DENIED
                       else FixerError.BACKUP_NOT_FOUND)
  end.
Proof.
  unfold restore. destruct (existsSync s bp) eqn:He; simpl.
  - destruct (copyFileSync s bp p) as [s1|e] eqn:Hc.
    + intros [= <- <-].
      apply copyFileSync_effect in Hc as (c & Hf & _ & _ & ->). simpl.
      split; [|split; [done|]].
      * intros q Hq. by rewrite lookup_insert_ne.
      * exists c. by rewrite lookup_insert_eq.
    + by intros [= <- <-].
  - by intros [= <- <-].
Qed.

(** X2 on the older copy of the backup directory. *)
Lemma X2_witness :
  let run := restore (shelf patched allow allow) older_path target in
  (forall q, q <> target ->
     files (snd run) !! q = files (shelf patched allow allow) !! q) /\
  dirs (snd run) = dirs (shelf patched allow allow) /\
  match fst run with
  | Ok _ =>
    exists c, files (shelf patched allow allow) !! older_path = Some c /\
      files (snd run) !! target = Some c
  | Err e =>
    snd run = shelf patched allow allow /\
    exn_code e =
      Some (if existsSync (shelf patched allow allow) older_path
            then FixerError.PERMISSION_DENIED
            else FixerError.BACKUP_NOT_FOUND)
  end.
Proof.
  intros run.
  apply (X2_restore_effect (shelf patched allow allow) older_path target
           (fst run) (snd run)).
  apply surjective_pairing.
Defined.

(** X3. [list] returns the records newest first: no record is followed
    by one with a later [createdAt].  The records are those of the
    entries of the directory that pass the filter, each one once; without
    the directory the list is empty. *)
Theorem X3_list_newest_first `{Node} backupDir s originalFile :
  StronglySorted (fun a b => (createdAt b <= createdAt a)%Z)
    (list backupDir s originalFile) /\
  list backupDir s originalFile ≡ₚ
    (if existsSync s backupDir
     then omap (list_entry backupDir s originalFile) (readdir s backupDir)
     else []).
Proof. split; [apply list_sorted|apply list_perm]. Qed.

(** X3 on a backup directory with a copy that is named by the year
    alone: the copy is the last one made and the first entry of the
    directory, its [createdAt] is the first instant of the year of its
    name, and it comes last. *)
Lemma X3_witness :
  path <$> @list node backups (loft patched allow allow) (Some target)
  = [newer_path; older_path; by_year_path] /\
  createdAt <$> @list node backups (loft patched allow allow) (Some target)
  = [newer_birth; older_birth; new_year] /\
  (birthtime <$> stat (loft patched allow allow) by_year_path)
  = Some by_year_birth /\
  (newer_birth < by_year_birth)%Z /\
  StronglySorted (fun a b => (createdAt b <= createdAt a)%Z)
    (@list node backups (loft patched allow allow) (Some target)) /\
  @list node backups (loft patched allow allow) (Some target) ≡ₚ
    (if existsSync (loft patched allow allow) backups
     then omap (@list_entry node backups (loft patched allow allow)
                  (Some target))
            (readdir (loft patched allow allow) backups)
     else []).
Proof.
  do 4 (split; [vm_compute; reflexivity|]).
  apply (@X3_list_newest_first node backups (loft patched allow allow)
           (Some target)).
Defined.

(** X4. [getLatestBackup] returns null exactly when [list] finds no
    backup of the file; otherwise it returns a listed record whose
    [createdAt] is not before that of any other. *)
Theorem X4_latest_is_newest `{Node} backupDir s p :
  match getLatestBackup backupDir s p with
  | Some b =>
    b ∈ list backupDir s (Some p) /\
    forall b', b' ∈ list backupDir s (Some p) ->
      (createdAt b' <= createdAt b)%Z
  | None => list backupDir s (Some p) = []
  end.
Proof.
  unfold getLatestBackup.
  pose proof (list_sorted backupDir s (Some p)) as Hs.
  destruct (list backupDir s (Some p)) as [|b l]; simpl; [done|].
  split; [by left|].
  intros b' [->|Hin]%elem_of_cons; [lia|].
  apply StronglySorted_inv in Hs as [_ Hb].
  by eapply Forall_forall in Hb.
Qed.

(** X4 on the backup directory with the copy named by the year alone:
    the latest backup is the newer of the two copies that [create] named,
    not the copy made last. *)
Lemma X4_witness :
  path <$> @getLatestBackup node backups (loft patched allow allow) target
  = Some newer_path /\
  match @getLatestBackup node backups (loft patched allow allow) target with
  | Some b =>
    b ∈ @list node backups (loft patched allow allow) (Some target) /\
    forall b',
      b' ∈ @list node backups (loft patched allow allow) (Some target) ->
      (createdAt b' <= createdAt b)%Z
  | None => @list node backups (loft patched allow allow) (Some target) = []
  end.
Proof.
  split; [vm_compute; reflexivity|].
  apply (@X4_latest_is_newest node backups (loft patched allow allow) target).
Defined.

Section NameFacts.
Context `{Node}.

Lemma startsWith_app p s t :
  startsWith p s = true -> startsWith p (s ++ t) = true.
Proof.
  intros [u ->]%startsWith_iff. apply startsWith_iff.
  exists (u ++ t). by rewrite (assoc_L (++)).
Qed.

Lemma find_from_early p a t i :
  p <> [] -> includes p a = true ->
  (i <= find_from p (a ++ t) i < i + Z.of_nat (length a))%Z.
Proof.
  intros Hp. revert i. induction a as [|c a IH]; intros i Hi.
  - simpl in Hi. destruct p; [done|]. rewrite orb_false_r in Hi. done.
  - cbn [find_from app]. change (c :: a ++ t) with ((c :: a) ++ t).
    destruct (startsWith p ((c :: a) ++ t)) eqn:Hs.
    + simpl. lia.
    + cbn [includes] in Hi. apply orb_true_iff in Hi as [Hi|Hi].
      * apply (startsWith_app _ _ t) in Hi. congruence.
      * specialize (IH (i + 1)%Z Hi). simpl. simpl in IH. lia.
Qed.

(** The separator [.backup-] starts with a unit that it holds nowhere
    else, so it cannot begin inside a text and end in a copy of itself
    that follows the text. *)
Lemma separator_not_early (a t : jsstring) :
  a <> [] -> startsWith (js ".backup-") (a ++ js ".backup-" ++ t) = true ->
  startsWith (js ".backup-") a = true.
Proof.
  intros Ha Hs.
  do 8 (destruct a as [|? a];
        [first [done|simpl in Hs;
                repeat (apply andb_prop in Hs as [Hs' Hs];
                        try (apply N.eqb_eq in Hs'; subst));
                try discriminate; simpl in *; discriminate]|]).
  simpl in Hs |- *. exact Hs.
Qed.

Lemma find_from_separator (a t : jsstring) i :
  includes (js ".backup-") a = false ->
  find_from (js ".backup-") (a ++ js ".backup-" ++ t) i
  = (i + Z.of_nat (length a))%Z.
Proof.
  revert i. induction a as [|c a IH]; intros i Hi.
  - simpl. lia.
  - cbn [includes] in Hi. apply orb_false_iff in Hi as [Hs Hi].
    cbn [find_from app]. change (c :: a ++ ?x) with ((c :: a) ++ x).
    destruct (startsWith _ ((c :: a) ++ _)) eqn:Hs'.
    + apply separator_not_early in Hs'; [congruence|done].
    + rewrite IH by done. simpl. lia.
Qed.

Lemma split_head_created (a t : jsstring) :
  includes (js ".backup-") a = false ->
  split_head (js ".backup-") (a ++ js ".backup-" ++ t) = a.
Proof.
  intros Hi. unfold split_head. rewrite find_from_separator by done.
  destruct (_ <? 0)%Z eqn:Hn; [apply Z.ltb_lt in Hn; lia|].
  rewrite Z.add_0_l, Nat2Z.id. by rewrite take_app_length.
Qed.

Lemma split_head_early (a t : jsstring) :
  includes (js ".backup-") a = true ->
  split_head (js ".backup-") (a ++ t) <> a.
Proof.
  intros Hi. unfold split_head.
  pose proof (find_from_early (js ".backup-") a t 0 ltac:(done) Hi) as Hr.
  destruct (_ <? 0)%Z eqn:Hn; [apply Z.ltb_lt in Hn; lia|].
  intros Heq. apply (f_equal length) in Heq.
  rewrite length_take in Heq. lia.
Qed.

Lemma includes_app_l p a t : includes p (a ++ p ++ t) = true.
Proof. apply includes_iff. by exists a, t. Qed.

End NameFacts.

(** X5. With an original file given, every record that [list] returns
    carries that file as its original path, and comes from an entry of
    the backup directory: the entry holds [.backup-], the text before the
    first [.backup-] is the base name of the original file, the path of
    the record is the directory joined with the entry, and its size is the
    one [statSync] gave for that path. *)
Theorem X5_list_entries `{Node} backupDir s p b :
  truthy p = true -> b ∈ list backupDir s (Some p) ->
  originalPath b = p /\
  exists file st,
    file ∈ readdir s backupDir /\
    includes (js ".backup-") file = true /\
    split_head (js ".backup-") file = basename p /\
    path b = join [backupDir; file] /\
    stat s (path b) = Some st /\ size b = st_size st.
Proof.
  intros Hp Hb. rewrite list_perm in Hb.
  destruct (existsSync s backupDir); [|by apply elem_of_nil in Hb].
  apply list_elem_of_omap in Hb as (file & Hin & He).
  apply list_entry_Some in He as (Hi & Hh & Hpath & Ho & st & Hst & Hsz & _);
    [|done].
  split; [done|]. by exists file, st.
Qed.

(** X5 on the backup directory of the examples: the record of the newer
    copy. *)
Lemma X5_witness :
  let b := {| path := newer_path; originalPath := target;
              createdAt := newer_birth; size := 999 |} in
  originalPath b = target /\
  exists file st,
    file ∈ readdir (shelf patched allow allow) backups /\
    includes (js ".backup-") file = true /\
    split_head (js ".backup-") file = @basename node target /\
    path b = @join node [backups; file] /\
    stat (shelf patched allow allow) (path b) = Some st /\
    size b = st_size st.
Proof.
  intros b.
  apply (@X5_list_entries node backups (shelf patched allow allow) target b).
  - reflexivity.
  - apply list_elem_of_In. vm_compute. left. reflexivity.
Defined.

(** X6. The name that [create] gives to a backup of [p] is one that
    [list] accepts for [p] exactly when the base name of [p] does not
    itself hold [.backup-].  If it does not, an entry of that name whose
    status can be read is listed with [p] as its original path; if it
    does, the text before the first [.backup-] is shorter than the base
    name, and a directory that holds only backups of [p] lists none. *)
Theorem X6_created_name_listed `{Node} backupDir s now p :
  truthy p = true -> existsSync s backupDir = true ->
  (includes (js ".backup-") (basename p) = false ->
   backupFileName now p ∈ readdir s backupDir ->
   is_Some (stat s (join [backupDir; backupFileName now p])) ->
   exists b, b ∈ list backupDir s (Some p) /\
     path b = join [backupDir; backupFileName now p] /\
     originalPath b = p) /\
  (includes (js ".backup-") (basename p) = true ->
   (forall file, file ∈ readdir s backupDir ->
      exists t, file = backupFileName t p) ->
   list backupDir s (Some p) = []).
Proof.
  intros Hp Hd. split.
  - intros Hi Hin [st Hst].
    assert (list_entry backupDir s (Some p) (backupFileName now p) =
            Some {| path := join [backupDir; backupFileName now p];
                    originalPath := p;
                    createdAt := resolveCreatedAt (backupFileName now p) st;
                    size := st_size st |}) as He.
    { unfold list_entry, backupFileName. rewrite includes_app_l.
      cbn [negb truthy_opt default]. rewrite Hp.
      rewrite split_head_created by done.
      rewrite bool_decide_true by done. cbn [negb andb].
      unfold backupFileName in Hst. by rewrite Hst. }
    eexists. split.
    { rewrite list_perm, Hd. apply list_elem_of_omap.
      exists (backupFileName now p). split; [done|exact He]. }
    split; reflexivity.
  - intros Hi Hall. apply Permutation_nil_r. rewrite list_perm, Hd.
    assert (forall l, (forall file, file ∈ l ->
                         exists t, file = backupFileName t p) ->
              omap (list_entry backupDir s (Some p)) l = []) as Hnil.
    { induction l as [|f l IH]; intros Hl; [done|]. simpl.
      destruct (Hl f) as [t ->]; [by left|].
      assert (list_entry backupDir s (Some p) (backupFileName t p) = None)
        as ->.
      { unfold list_entry, backupFileName. rewrite includes_app_l.
        cbn [negb truthy_opt default]. rewrite Hp.
        rewrite bool_decide_false by (by apply split_head_early). done. }
      apply IH. intros f Hf. apply Hl. by right. }
    by rewrite Hnil.
Qed.

(** X6 on the target file and the older copy of the backup directory:
    the base name of the target file does not hold the separator, and the
    name that [create] gives at the instant of that copy is the name
    of the copy.  And on a file whose base name holds the separator: the
    backup directory holds the backup that [create] made of it, which
    [list] returns when it is asked for all backups and not when it is
    asked for those of the file. *)
Lemma X6_witness :
  (includes (js ".backup-") (@basename node target) = false /\
   @backupFileName node older_birth target = older /\
   (includes (js ".backup-") (@basename node target) = false ->
    @backupFileName node older_birth target
      ∈ readdir (shelf patched allow allow) backups ->
    is_Some (stat (shelf patched allow allow)
               (@join node
                  [backups; @backupFileName node older_birth target])) ->
    exists b,
      b ∈ @list node backups (shelf patched allow allow) (Some target) /\
      path b = @join node [backups; @backupFileName node older_birth target] /\
      originalPath b = target) /\
   (includes (js ".backup-") (@basename node target) = true ->
    (forall file, file ∈ readdir (shelf patched allow allow) backups ->
       exists t, file = @backupFileName node t target) ->
    @list node backups (shelf patched allow allow) (Some target) = [])) /\
  (includes (js ".backup-") (@basename node renamed) = true /\
   readdir crate backups = [@backupFileName node now renamed] /\
   path <$> @list node backups crate None
   = [@join node [backups; @backupFileName node now renamed]] /\
   @list node backups crate (Some renamed) = [] /\
   (includes (js ".backup-") (@basename node renamed) = false ->
    @backupFileName node now renamed ∈ readdir crate backups ->
    is_Some (stat crate
               (@join node [backups; @backupFileName node now renamed])) ->
    exists b,
      b ∈ @list node backups crate (Some renamed) /\
      path b = @join node [backups; @backupFileName node now renamed] /\
      originalPath b = renamed) /\
   (includes (js ".backup-") (@basename node renamed) = true ->
    (forall file, file ∈ readdir crate backups ->
       exists t, file = @backupFileName node t renamed) ->
    @list node backups crate (Some renamed) = [])).
Proof.
  split.
  - do 2 (split; [vm_compute; reflexivity|]).
    apply (@X6_created_name_listed node backups (shelf patched allow allow)
             older_birth target); vm_compute; reflexivity.
  - do 4 (split; [vm_compute; reflexivity|]).
    apply (@X6_created_name_listed node backups crate now renamed);
      vm_compute; reflexivity.
Defined.

(** X7. [delete] removes the path and nothing else.  A path at which
    nothing exists is no error, and the file system stays as it is; after
    a deletion that returns, no file is left at the path; a deletion that
    throws changes nothing and throws [PERMISSION_DENIED], also when the
    path is a directory. *)
Theorem X7_delete_effect s p r s' :
  delete s p = (r, s') ->
  (forall q, q <> p -> files s' !! q = files s !! q) /\
  dirs s' = dirs s /\
  match r with
  | Ok _ => files s' !! p = None /\ (existsSync s p = false -> s' = s)
  | Err e =>
    s' = s /\ exn_code e = Some FixerError.PERMISSION_DENIED /\
    existsSync s p = true
  end.
Proof.
  destruct r as [[]|e]; intros Hd.
  - pose proof Hd as (Hf & Hdirs & _)%delete_Ok.
    split; [|split; [done|split]].
    + intros q Hq. by rewrite Hf, lookup_delete_ne.
    + by rewrite Hf, lookup_delete_eq.
    + intros He. unfold delete in Hd. rewrite He in Hd. simpl in Hd.
      congruence.
  - apply delete_Err in Hd as (-> & Hc & He). done.
Qed.

(** X7 on the older copy of the backup directory. *)
Lemma X7_witness :
  let run := delete (shelf patched allow allow) older_path in
  (forall q, q <> older_path ->
     files (snd run) !! q = files (shelf patched allow allow) !! q) /\
  dirs (snd run) = dirs (shelf patched allow allow) /\
  match fst run with
  | Ok _ =>
    files (snd run) !! older_path = None /\
    (existsSync (shelf patched allow allow) older_path = false ->
     snd run = shelf patched allow allow)
  | Err e =>
    snd run = shelf patched allow allow /\
    exn_code e = Some FixerError.PERMISSION_DENIED /\
    existsSync (shelf patched allow allow) older_path = true
  end.
Proof.
  intros run.
  apply (X7_delete_effect (shelf patched allow allow) older_path
           (fst run) (snd run)).
  apply surjective_pairing.
Defined.

Section CleanupFacts.
Context `{Node}.

(** The loop of [cleanup] only deletes, and only at the paths of the
    records that are older than the limit; when it returns, it has counted
    these records and no file is left at their paths. *)
Lemma cleanup_loop_effect now m backups : forall n s r s',
  cleanup_loop now m backups n s = (r, s') ->
  (forall q, files s' !! q = files s !! q \/
     files s' !! q = None /\
     exists b, b ∈ backups /\ (m < now - createdAt b)%Z /\ path b = q) /\
  match r with
  | Ok k =>
    k = (n + Z.of_nat (length (filter
                                 (fun b => (m < now - createdAt b)%Z)
                                 backups)))%Z /\
    forall b, b ∈ backups -> (m < now - createdAt b)%Z ->
      files s' !! path b = None
  | Err e => exn_code e = Some FixerError.PERMISSION_DENIED
  end.
Proof.
  induction backups as [|b l IH]; intros n s r s' Hc; simpl in Hc.
  - injection Hc as <- <-. split; [by left|]. split; [simpl; lia|].
    intros b Hb. by apply elem_of_nil in Hb.
  - destruct (m <? now - createdAt b)%Z eqn:Hold.
    + apply Z.ltb_lt in Hold.
      destruct (delete s (path b)) as [[[]|e] s1] eqn:Hd.
      * apply delete_Ok in Hd as (Hf & _).
        apply IH in Hc as [Hframe Hr]. split.
        -- intros q. destruct (Hframe q) as [Hq|(Hq & b' & Hin & Hb' & <-)].
           ++ rewrite Hq, Hf. destruct (decide (path b = q)) as [<-|Hne].
              ** right. rewrite lookup_delete_eq. split; [done|].
                 exists b. split; [by left|done].
              ** left. by rewrite lookup_delete_ne.
           ++ right. split; [done|]. exists b'. split; [by right|done].
        -- destruct r as [k|e]; [|done]. destruct Hr as [-> Hgone].
           rewrite filter_cons_True by done. split; [simpl; lia|].
           intros b' [->|Hin]%elem_of_cons Hb'; [|by apply Hgone].
           destruct (Hframe (path b)) as [Hq|[Hq _]]; [|done].
           by rewrite Hq, Hf, lookup_delete_eq.
      * apply delete_Err in Hd as (-> & Hcode & _).
        injection Hc as <- <-. split; [by left|done].
    + apply Z.ltb_ge in Hold.
      apply IH in Hc as [Hframe Hr]. split.
      * intros q. destruct (Hframe q) as [Hq|(Hq & b' & Hin & Hb' & <-)];
          [by left|].
        right. split; [done|]. exists b'. split; [by right|done].
      * destruct r as [k|e]; [|done]. destruct Hr as [-> Hgone].
        rewrite filter_cons_False by lia. split; [done|].
        intros b' [->|Hin]%elem_of_cons Hb'; [lia|by apply Hgone].
Qed.

End CleanupFacts.

(** X8. [cleanup] deletes nothing but listed backups whose age is above
    [maxAge] days: every other path keeps its file, whether [cleanup]
    returns or throws.  When it returns, the count is the number of listed
    records above that age, a record of exactly that age not being one of
    them, and no file is left at the path of any of them. *)
Theorem X8_cleanup_effect `{Node} backupDir now s maxAge originalFile r s' :
  cleanup backupDir now s maxAge originalFile = (r, s') ->
  (forall q,
     (forall b, b ∈ list backupDir s originalFile ->
        (maxAge * 24 * 60 * 60 * 1000 < now - createdAt b)%Z ->
        path b <> q) ->
     files s' !! q = files s !! q) /\
  match r with
  | Ok n =>
    n = Z.of_nat (length (filter
                            (fun b => (maxAge * 24 * 60 * 60 * 1000
                                       < now - createdAt b)%Z)
                            (list backupDir s originalFile))) /\
    forall b, b ∈ list backupDir s originalFile ->
      (maxAge * 24 * 60 * 60 * 1000 < now - createdAt b)%Z ->
      files s' !! path b = None
  | Err _ => True
  end.
Proof.
  unfold cleanup. intros [Hframe Hr]%cleanup_loop_effect. split.
  - intros q Hq. destruct (Hframe q) as [Hk|(_ & b & Hin & Hb & Hp)]; [done|].
    by destruct (Hq b Hin Hb).
  - destruct r as [k|e]; [|done]. destruct Hr as [-> Hgone]. split; [|done].
    by rewrite Z.add_0_l.
Qed.

(** X8 on the backup directory with the copy named by the year alone,
    two days and an hour after the older copy was made.  With a limit of
    thirty days the copy named by the year goes, though it was made the
    day before, and the two others stay; with a limit of two days the
    older copy goes as well. *)
Lemma X8_witness :
  let run := @cleanup node backups later (loft patched allow allow) 30
               (Some target) in
  fst run = Ok 1%Z /\
  files (snd run) !! by_year_path = None /\
  files (snd run) !! older_path = Some unpatched /\
  files (snd run) !! newer_path = Some unpatched /\
  fst (@cleanup node backups later (loft patched allow allow) 2
         (Some target)) = Ok 2%Z /\
  (forall q,
     (forall b,
        b ∈ @list node backups (loft patched allow allow) (Some target) ->
        (30 * 24 * 60 * 60 * 1000 < later - createdAt b)%Z ->
        path b <> q) ->
     files (snd run) !! q = files (loft patched allow allow) !! q) /\
  match fst run with
  | Ok n =>
    n = Z.of_nat (length (filter
                            (fun b => (30 * 24 * 60 * 60 * 1000
                                       < later - createdAt b)%Z)
                            (@list node backups (loft patched allow allow)
                               (Some target)))) /\
    forall b,
      b ∈ @list node backups (loft patched allow allow) (Some target) ->
      (30 * 24 * 60 * 60 * 1000 < later - createdAt b)%Z ->
      files (snd run) !! path b = None
  | Err _ => True
  end.
Proof.
  intros run.
  do 5 (split; [vm_compute; reflexivity|]).
  apply (@X8_cleanup_effect node backups later (loft patched allow allow) 30
           (Some target) (fst run) (snd run)).
  apply surjective_pairing.
Defined.

(** ** The detector *)

Section ReportFacts.
Context `{Node}.

Lemma locateOpenClaw_manifest s p :
  locateOpenClaw s = Some p -> has_manifest s p = true.
Proof.
  unfold locateOpenClaw.
  destruct (find (has_manifest s) OPENCLAW_PATHS) as [q|] eqn:Hf.
  - intros [= <-]. by apply find_some in Hf as [_ Hm].
  - unfold locate_by_which, locate_by_npm_root.
    destruct (execSync (js "which openclaw-gateway 2>/dev/null")) as [out|].
    + destruct (truthy (trim out)).
      * destruct (has_manifest s (join [join [trim out; _]; _])) eqn:Hm.
        -- by intros [= <-].
        -- destruct (execSync (js "npm root -g 2>/dev/null")) as [out'|];
             [|done].
           destruct (has_manifest s (join [trim out'; _])) eqn:Hm';
             [by intros [= <-]|done].
      * destruct (execSync (js "npm root -g 2>/dev/null")) as [out'|];
          [|done].
        destruct (has_manifest s (join [trim out'; _])) eqn:Hm';
          [by intros [= <-]|done].
    + destruct (execSync (js "npm root -g 2>/dev/null")) as [out'|];
        [|done].
      destruct (has_manifest s (join [trim out'; _])) eqn:Hm';
        [by intros [= <-]|done].
Qed.

Lemma locateTargetFile_Some s p t :
  locateTargetFile s (Some p) = Some t ->
  existsSync s t = true /\
  (t = join [p; TARGET_FILE_RELATIVE] \/
   t = join [p; COMPILED_FILE_RELATIVE] /\
   existsSync s (join [p; TARGET_FILE_RELATIVE]) = false).
Proof.
  unfold locateTargetFile. simpl. destruct (truthy p); simpl; [|done].
  destruct (existsSync s (join [p; TARGET_FILE_RELATIVE])) eqn:Hts.
  - intros [= <-]. split; [done|by left].
  - destruct (existsSync s (join [p; COMPILED_FILE_RELATIVE])) eqn:Hjs;
      [|done].
    intros [= <-]. split; [done|by right].
Qed.

(** The four ways through [check]. *)
Lemma check_cases s :
  (status (check s) = Some CheckStatus.OPENCLAW_NOT_FOUND /\
   hasProblem (check s) = true /\ needsFix (check s) = Some false /\
   openclawPath (check s) = None /\ targetFile (check s) = None /\
   exists i, issues (check s) = Some [i] /\ issue_kind i = type_error) \/
  (exists p, locateOpenClaw s = Some p /\ truthy p = true /\
   status (check s) = Some CheckStatus.FILE_NOT_FOUND /\
   hasProblem (check s) = true /\ needsFix (check s) = Some false /\
   openclawPath (check s) = Some p /\ targetFile (check s) = None /\
   exists i, issues (check s) = Some [i] /\ issue_kind i = type_error) \/
  (exists p t e, locateOpenClaw s = Some p /\ truthy p = true /\
   locateTargetFile s (Some p) = Some t /\ truthy t = true /\
   readFileSync s t = Err e /\
   status (check s) = Some CheckStatus.READ_ERROR /\
   hasProblem (check s) = true /\ needsFix (check s) = Some false /\
   openclawPath (check s) = Some p /\ targetFile (check s) = Some t /\
   exists i, issues (check s) = Some [i] /\ issue_kind i = type_error) \/
  (exists p t c, locateOpenClaw s = Some p /\ truthy p = true /\
   locateTargetFile s (Some p) = Some t /\ truthy t = true /\
   readFileSync s t = Ok c /\
   check s = classify (Some p) (getOpenClawVersion s (Some p)) t c).
Proof.
  unfold check.
  destruct (locateOpenClaw s) as [p|] eqn:Hl; simpl;
    [|left; repeat split; try done; eexists; split; reflexivity].
  destruct (truthy p) eqn:Hp; simpl;
    [|left; repeat split; try done; eexists; split; reflexivity].
  right.
  destruct (locateTargetFile s (Some p)) as [t|] eqn:Ht; simpl;
    [|left; exists p; repeat split; try done; eexists; split; reflexivity].
  destruct (truthy t) eqn:Htr; simpl;
    [|left; exists p; repeat split; try done; eexists; split; reflexivity].
  right.
  destruct (readFileSync s t) as [c|e] eqn:Hr.
  - right. exists p, t, c. done.
  - left. exists p, t, e. repeat split; try done; eexists; split; reflexivity.
Qed.

Lemma classify_status ocp version file content :
  let r := classify ocp version file content in
  openclawPath r = ocp /\ targetFile r = Some file /\
  (hasProblem r = false /\ status r = Some CheckStatus.FIXED /\
   needsFix r = Some false \/
   hasProblem r = true /\ status r = Some CheckStatus.NEEDS_FIX /\
   needsFix r = Some true).
Proof.
  unfold classify. simpl.
  destruct (test MEDIA_IMPORT_PATTERN content),
    (test MEDIA_LOGIC_PATTERN content),
    (test SEND_MEDIA_CALL_PATTERN content); simpl;
    (split; [done|split; [done|]]); (by left) || (by right).
Qed.

Lemma classify_issues ocp version file content :
  let r := classify ocp version file content in
  exists found, issues r = Some found /\
    (hasProblem r = true <-> found <> []) /\
    (length found <= 2)%nat /\
    forall i, i ∈ found -> issue_kind i <> type_error.
Proof.
  unfold classify. simpl.
  destruct (test MEDIA_IMPORT_PATTERN content),
    (test MEDIA_LOGIC_PATTERN content),
    (test SEND_MEDIA_CALL_PATTERN content); simpl;
    (eexists; split; [reflexivity|]);
    (split; [split; [intros; try done|intros; try done]|]);
    (split; [simpl; lia|]);
    intros i Hi;
    repeat (apply elem_of_cons in Hi as [->|Hi]; [done|]);
    by apply elem_of_nil in Hi.
Qed.

End ReportFacts.

(** X9. The paths of a report exist.  When [check] reports a target
    file, it reports the installation as well; the manifest
    [package.json] exists in the installation, the target file exists,
    and it is the TypeScript source of the dispatcher below the
    installation, or the compiled file when there is no such source. *)
Theorem X9_report_paths_exist `{Node} s t :
  targetFile (check s) = Some t ->
  exists p, openclawPath (check s) = Some p /\
    existsSync s (join [p; js "package.json"]) = true /\
    existsSync s t = true /\
    (t = join [p; TARGET_FILE_RELATIVE] \/
     t = join [p; COMPILED_FILE_RELATIVE] /\
     existsSync s (join [p; TARGET_FILE_RELATIVE]) = false).
Proof.
  intros Ht.
  destruct (check_cases s)
    as [(_ & _ & _ & _ & Hn & _)
       |[(p & _ & _ & _ & _ & _ & _ & Hn & _)
        |[(p & t' & e & Hl & _ & Hlt & _ & _ & _ & _ & _ & Hp & Ht' & _)
         |(p & t' & c & Hl & _ & Hlt & _ & _ & Hc)]]];
    try congruence.
  - assert (t' = t) as -> by congruence.
    exists p. split; [done|]. split; [by apply locateOpenClaw_manifest|].
    by apply locateTargetFile_Some.
  - rewrite Hc in Ht |- *.
    destruct (classify_status (Some p) (getOpenClawVersion s (Some p)) t' c)
      as (Hp & Ht' & _).
    assert (t' = t) as -> by congruence.
    exists p. split; [done|]. split; [by apply locateOpenClaw_manifest|].
    by apply locateTargetFile_Some.
Qed.

(** X9 on the installation of the examples. *)
Lemma X9_witness :
  exists p,
    openclawPath (@check node (disk unpatched allow allow)) = Some p /\
    existsSync (disk unpatched allow allow)
      (@join node [p; js "package.json"]) = true /\
    existsSync (disk unpatched allow allow) target = true /\
    (target = @join node [p; TARGET_FILE_RELATIVE] \/
     target = @join node [p; COMPILED_FILE_RELATIVE] /\
     existsSync (disk unpatched allow allow)
       (@join node [p; TARGET_FILE_RELATIVE]) = false).
Proof.
  apply (@X9_report_paths_exist node (disk unpatched allow allow) target).
  vm_compute. reflexivity.
Defined.

(** X10. Every report of [check] is of one of five kinds, told apart by
    its status: no installation; no target file; a target file that
    cannot be read; a target file that needs the fix; a target file that
    is fixed.  The statuses [healthy], [unknown] and [error] are never
    given.  The problem flag is false for the fixed kind only, and
    [needsFix] is true for the kind that needs the fix only, in which the
    target file was found and read. *)
Theorem X10_check_status `{Node} s :
  (status (check s) = Some CheckStatus.OPENCLAW_NOT_FOUND /\
   hasProblem (check s) = true /\ needsFix (check s) = Some false /\
   openclawPath (check s) = None /\ targetFile (check s) = None) \/
  (status (check s) = Some CheckStatus.FILE_NOT_FOUND /\
   hasProblem (check s) = true /\ needsFix (check s) = Some false /\
   is_Some (openclawPath (check s)) /\ targetFile (check s) = None) \/
  (status (check s) = Some CheckStatus.READ_ERROR /\
   hasProblem (check s) = true /\ needsFix (check s) = Some false /\
   exists t e, targetFile (check s) = Some t /\ readFileSync s t = Err e) \/
  (status (check s) = Some CheckStatus.NEEDS_FIX /\
   hasProblem (check s) = true /\ needsFix (check s) = Some true /\
   exists t c, targetFile (check s) = Some t /\ readFileSync s t = Ok c) \/
  (status (check s) = Some CheckStatus.FIXED /\
   hasProblem (check s) = false /\ needsFix (check s) = Some false /\
   exists t c, targetFile (check s) = Some t /\ readFileSync s t = Ok c).
Proof.
  destruct (check_cases s)
    as [(Hs & Hh & Hn & Hp & Ht & _)
       |[(p & _ & _ & Hs & Hh & Hn & Hp & Ht & _)
        |[(p & t & e & _ & _ & _ & _ & Hr & Hs & Hh & Hn & _ & Ht & _)
         |(p & t & c & _ & _ & _ & _ & Hr & Hc)]]].
  - by left.
  - right; left. by rewrite Hp.
  - right; right; left. repeat split; try done. by exists t, e.
  - rewrite Hc.
    destruct (classify_status (Some p) (getOpenClawVersion s (Some p)) t c)
      as (_ & Ht & [(Hh & Hs & Hn)|(Hh & Hs & Hn)]).
    + do 4 right. repeat split; try done. by exists t, c.
    + do 3 right; left. repeat split; try done. by exists t, c.
Qed.

(** X11. Every report of [check] carries a list of findings, of at most
    two entries, and reports a problem exactly when the list is not
    empty.  [needsFix] is true exactly when there are findings and none of
    them is of the kind [error]. *)
Theorem X11_problem_iff_finding `{Node} s :
  exists found, issues (check s) = Some found /\
    (hasProblem (check s) = true <-> found <> []) /\
    (length found <= 2)%nat /\
    (needsFix (check s) = Some true <->
     found <> [] /\ forall i, i ∈ found -> issue_kind i <> type_error).
Proof.
  destruct (check_cases s)
    as [(_ & Hh & Hn & _ & _ & i & Hi & Hk)
       |[(p & _ & _ & _ & Hh & Hn & _ & _ & i & Hi & Hk)
        |[(p & t & e & _ & _ & _ & _ & _ & _ & Hh & Hn & _ & _ & i & Hi & Hk)
         |(p & t & c & _ & _ & _ & _ & Hr & Hc)]]].
  1-3: exists [i]; split; [done|]; rewrite Hh, Hn;
       split; [done|]; split; [simpl; lia|];
       split; [done|]; intros [_ Hall]; destruct (Hall i); [by left|done].
  rewrite Hc.
  destruct (classify_issues (Some p) (getOpenClawVersion s (Some p)) t c)
    as (found & Hf & Hiff & Hlen & Hkind).
  destruct (classify_status (Some p) (getOpenClawVersion s (Some p)) t c)
    as (_ & _ & [(Hh & _ & Hn)|(Hh & _ & Hn)]).
  - exists found. split; [done|]. split; [done|]. split; [done|].
    rewrite Hn. split; [done|]. intros [Hne _].
    apply Hiff in Hne. congruence.
  - exists found. split; [done|]. split; [done|]. split; [done|].
    rewrite Hn. split; [|done]. intros _. split; [by apply Hiff|done].
Qed.

(** X12. A report that asks for the fix passes the four preconditions
    of [apply] on the file system it was made from: [apply] succeeds, or
    fails with [PATCH_FAILED], or, when a backup is asked for and cannot
    be made, with [PERMISSION_DENIED] and the message of the backup step.
    A refused write of the patched text is among the [PATCH_FAILED]
    outcomes. *)
Theorem X12_fixable_report_is_patched `{Node} backupDir now s noBackup res s' :
  needsFix (check s) = Some true ->
  apply backupDir now s (check s) noBackup = (res, s') ->
  success res = true \/
  (success res = false /\
   exists msg, errors res = Some [ErrorInfo FixerError.PATCH_FAILED
                                    (js "应用补丁失败: " ++ msg)]) \/
  (success res = false /\ noBackup = false /\
   exists msg, errors res = Some [ErrorInfo FixerError.PERMISSION_DENIED
                                    (js "备份失败: " ++ msg)]).
Proof.
  intros Hn Ha.
  destruct (check_cases s)
    as [(_ & _ & Hn' & _)
       |[(p & _ & _ & _ & _ & Hn' & _)
        |[(p & t & e & _ & _ & _ & _ & _ & _ & _ & Hn' & _)
         |(p & t & c & _ & _ & _ & Htr & Hr & Hc)]]];
    try congruence.
  destruct (classify_status (Some p) (getOpenClawVersion s (Some p)) t c)
    as (_ & Ht & [(_ & _ & Hn')|(Hh & _ & _)]); rewrite <- Hc in *;
    [congruence|].
  destruct (apply_patching backupDir now s (check s) noBackup t c Ht Htr Hh Hr)
    as [(Hnb & e & _ & Hap)|(bp & s1 & _ & Hap)]; rewrite Hap in Ha.
  - injection Ha as <- <-. right; right. split; [done|]. split; [done|].
    by exists (exn_message e).
  - destruct (patch c) as [c'|e].
    + destruct (writeFileSync s1 t c') as [s2|e].
      * injection Ha as <- <-. by left.
      * right; left. apply (f_equal fst) in Ha. rewrite rollback_result in Ha.
        simpl in Ha. subst res. split; [done|]. by exists (exn_message e).
    + right; left. apply (f_equal fst) in Ha. rewrite rollback_result in Ha.
      simpl in Ha. subst res. split; [done|]. by exists (exn_message e).
Qed.

(** X12 on the installation of the examples, where [apply] succeeds. *)
Lemma X12_witness :
  let run := @apply node backups now (disk unpatched allow allow)
               (@check node (disk unpatched allow allow)) false in
  success (fst run) = true \/
  (success (fst run) = false /\
   exists msg, errors (fst run) = Some [ErrorInfo FixerError.PATCH_FAILED
                                          (js "应用补丁失败: " ++ msg)]) \/
  (success (fst run) = false /\ false = false /\
   exists msg, errors (fst run) = Some [ErrorInfo FixerError.PERMISSION_DENIED
                                          (js "备份失败: " ++ msg)]).
Proof.
  intros run.
  apply (@X12_fixable_report_is_patched node backups now
           (disk unpatched allow allow) false (fst run) (snd run)).
  - vm_compute. reflexivity.
  - apply surjective_pairing.
Defined.

Section LocateFacts.
Context `{Node}.

Lemma find_first {A} (f : A -> bool) (before : Datatypes.list A) q after :
  Forall (fun x => f x = false) before -> f q = true ->
  find f (before ++ q :: after) = Some q.
Proof.
  induction 1 as [|x l Hx _ IH]; intros Hq; simpl.
  - by rewrite Hq.
  - rewrite Hx. by apply IH.
Qed.

End LocateFacts.

(** X13. The installation that [locateOpenClaw] returns holds the
    manifest [package.json].  The five fixed paths come first, in their
    order: the first of them that holds a manifest is returned, whatever
    the shell prints for [which] and [npm root]; and when nothing is
    returned, none of the five holds one. *)
Theorem X13_fixed_paths_come_first `{Node} s :
  (forall p, locateOpenClaw s = Some p ->
     existsSync s (join [p; js "package.json"]) = true) /\
  (forall before q after,
     OPENCLAW_PATHS = before ++ q :: after ->
     Forall (fun x => existsSync s (join [x; js "package.json"]) = false)
       before ->
     existsSync s (join [q; js "package.json"]) = true ->
     locateOpenClaw s = Some q) /\
  (locateOpenClaw s = None ->
   Forall (fun x => existsSync s (join [x; js "package.json"]) = false)
     OPENCLAW_PATHS).
Proof.
  split; [|split].
  - intros p Hp. by apply locateOpenClaw_manifest in Hp.
  - intros before q after Hl Hb Hq. unfold locateOpenClaw. rewrite Hl.
    by rewrite (find_first (has_manifest s) before q after Hb Hq).
  - unfold locateOpenClaw.
    destruct (find (has_manifest s) OPENCLAW_PATHS) as [q|] eqn:Hf; [done|].
    intros _. apply Forall_forall. intros x Hx.
    apply list_elem_of_In in Hx.
    apply (find_none _ _ Hf x Hx).
Qed.

(** ** The text steps of the patcher *)

Section TextFacts.

(** The handler pattern of the detector is the anchor of the patcher
    with no white space allowed around [payload]. *)
Lemma deliver_pattern_anchor content :
  test DELIVER_FUNCTION_PATTERN content = true ->
  test deliverAnchor content = true.
Proof.
  intros (a & w & b & -> & Hm)%test_iff. apply test_iff.
  exists a, w, b. split; [done|].
  unfold DELIVER_FUNCTION_PATTERN in Hm. cbn [seq] in Hm.
  apply matches_Cat_inv in Hm as (w1 & ? & -> & H1 & Hm).
  apply matches_Cat_inv in Hm as (s1 & ? & -> & H2 & Hm).
  apply matches_Cat_inv in Hm as (w3 & ? & -> & H3 & Hm).
  apply matches_Cat_inv in Hm as (s2 & ? & -> & H4 & Hm).
  apply matches_Cat_inv in Hm as (w5 & ? & -> & H5 & Hm).
  apply matches_Cat_inv in Hm as (s3 & ? & -> & H6 & Hm).
  apply matches_Cat_inv in Hm as (w7 & ? & -> & H7 & Hm).
  apply matches_Empty_inv in Hm as ->.
  apply matches_lit_units in H1 as ->. apply matches_lit_units in H3 as ->.
  apply matches_lit_units in H5 as ->. apply matches_lit_units in H7 as ->.
  unfold deliverAnchor. cbn [seq].
  apply M_Cat; [by apply matches_lit_units|].
  apply M_Cat; [by eapply matches_context|].
  apply M_Cat; [by apply matches_lit_units|].
  apply M_Cat; [by eapply matches_context|].
  change (js "(payload:" ++ ?x)
    with ([40] ++ [] ++ js "payload" ++ [] ++ [58] ++ x).
  apply M_Cat; [by apply M_Cls|].
  apply M_Cat; [apply M_StarNil|].
  apply M_Cat; [by apply matches_lit_units|].
  apply M_Cat; [apply M_StarNil|].
  apply M_Cat; [by apply M_Cls|].
  apply M_Cat; [by eapply matches_context|].
  apply M_Cat; [by apply matches_lit_units|].
  apply M_Empty.
Qed.

Lemma addMediaLogic_Err content e :
  addMediaLogic content = Err e ->
  includes (js "payload.mediaUrls?.length") content = false /\
  (test deliverAnchor content = false /\
   e = FixerException FixerError.PATCH_FAILED (js "无法找到 deliver 函数定义") \/
   test deliverAnchor content = true /\ test fullPattern content = false /\
   e = FixerException FixerError.PATCH_FAILED (js "无法解析 deliver 函数结构")).
Proof.
  unfold addMediaLogic.
  destruct (includes _ content); [done|].
  destruct (test deliverAnchor content).
  - destruct (test fullPattern content); [done|].
    intros [= <-]. split; [done|]. by right.
  - intros [= <-]. split; [done|]. by left.
Qed.

End TextFacts.

(** X14. A text that [validateContent] finds valid holds the import of
    the plug-in SDK and matches the handler pattern of the detector; the
    anchor that the logic step of the patcher looks for matches it as
    well, so the logic step can fail on it in one way only: the handler is
    found and its head cannot be parsed. *)
Theorem X14_valid_content_has_anchor content :
  fst (validateContent content) = true ->
  includes (js "from " ++ dq ++ js "openclaw/plugin-sdk" ++ dq) content = true /\
  test DELIVER_FUNCTION_PATTERN content = true /\
  test deliverAnchor content = true /\
  forall e, addMediaLogic content = Err e ->
    e = FixerException FixerError.PATCH_FAILED (js "无法解析 deliver 函数结构").
Proof.
  unfold validateContent.
  destruct (includes _ content) eqn:Hi;
    destruct (test DELIVER_FUNCTION_PATTERN content) eqn:Hd;
    simpl; try done.
  intros _. split; [done|]. split; [done|].
  pose proof (deliver_pattern_anchor content Hd) as Ha. split; [done|].
  intros e [_ [[Hn _]|(_ & _ & ->)]]%addMediaLogic_Err; [congruence|done].
Qed.

(** X14 on a dispatcher that loads its types from the plug-in SDK. *)
Lemma X14_witness :
  includes (js "from " ++ dq ++ js "openclaw/plugin-sdk" ++ dq) typed = true /\
  test DELIVER_FUNCTION_PATTERN typed = true /\
  test deliverAnchor typed = true /\
  forall e, addMediaLogic typed = Err e ->
    e = FixerException FixerError.PATCH_FAILED (js "无法解析 deliver 函数结构").
Proof.
  apply (X14_valid_content_has_anchor typed). vm_compute. reflexivity.
Defined.

(** X15. The fragments that the patcher inserts are enough for its own
    verification: when the text does not hold the logic marker and both
    insertion steps return, the text they produce passes [verify], and
    [patch] returns it.  So the verification of [apply] can fail only on a
    text that already held the logic marker. *)
Theorem X15_inserted_block_verifies c c1 c2 :
  includes (js "payload.mediaUrls?.length") c = false ->
  addImport c = Ok c1 -> addMediaLogic c1 = Ok c2 ->
  verify c2 = true /\ patch c = Ok c2.
Proof.
  intros Hn H1 H2.
  assert (includes (js "payload.mediaUrls?.length") c1 = false) as Hn1.
  { by apply (addImport_adds_no_literal _ c c1). }
  assert (verify c2 = true) as Hv.
  { pose proof (addImport_has_words _ _ H1) as Hw.
    pose proof (addMediaLogic_has_marker _ _ H2) as Hm.
    apply addMediaLogic_Ok in H2 as H2'.
    destruct H2' as [[Hc _]|(_ & _ & x & m & y & -> & _ & ->)];
      [congruence|].
    unfold verify, has_import_words in *. rewrite Hm.
    apply andb_true_iff in Hw as [Hw1 Hw2].
    assert (forall p, includes p MEDIA_LOGIC = true ->
              includes p (x ++ (m ++ MEDIA_LOGIC) ++ y) = true) as Hin.
    { intros p (u & v & Hu)%includes_iff. apply includes_iff.
      exists (x ++ m ++ u), (v ++ y). rewrite Hu.
      by rewrite <- !(assoc_L (++)). }
    rewrite (Hin (js "sendMediaFeishu")),
      (Hin (js "await sendMediaFeishu")),
      (Hin (js "openclaw-feishu-media-fixer")) by (vm_compute; reflexivity).
    rewrite includes_test.
    rewrite (addMediaLogic_keeps_match (lit_units (js "./media.js"))
               (x ++ m ++ y) _ ltac:(reflexivity) ltac:(reflexivity) H2);
      [done|].
    by rewrite <- includes_test. }
  split; [done|]. unfold patch. by rewrite H1, H2, Hv.
Qed.

(** X15 on the dispatcher as the host ships it. *)
Lemma X15_witness : verify patched = true /\ patch unpatched = Ok patched.
Proof.
  apply (X15_inserted_block_verifies unpatched with_import patched);
    vm_compute; reflexivity.
Defined.

Section IndexFacts.

Lemma find_last_absent p s i :
  includes p s = false -> find_last p s i = (-1)%Z.
Proof.
  revert i. induction s as [|c s IH]; intros i Hi.
  - simpl in *. rewrite orb_false_r in Hi. by rewrite Hi.
  - cbn [includes] in Hi. apply orb_false_iff in Hi as [Hs Hi].
    cbn [find_last]. rewrite Hs, (IH _ Hi). done.
Qed.

(** The last occurrence: the text [p] starts at the end of [a] and not
    again after that. *)
Lemma find_last_at p a t i :
  (0 <= i)%Z -> startsWith p t = true -> includes p (drop 1 t) = false ->
  find_last p (a ++ t) i = (i + Z.of_nat (length a))%Z.
Proof.
  revert i. induction a as [|c a IH]; intros i Hi Hs Hn.
  - simpl. destruct t as [|c t].
    + simpl. rewrite Hs. lia.
    + cbn [find_last]. rewrite Hs. simpl in Hn.
      rewrite (find_last_absent _ _ _ Hn). simpl. lia.
  - cbn [app find_last]. rewrite IH by (done || lia).
    destruct (_ <? 0)%Z eqn:Hlt; [apply Z.ltb_lt in Hlt; lia|].
    simpl. lia.
Qed.

Lemma find_from_unit c (x y : jsstring) i :
  c ∉ x -> find_from [c] (x ++ c :: y) i = (i + Z.of_nat (length x))%Z.
Proof.
  revert i. induction x as [|d x IH]; intros i Hc.
  - simpl. rewrite N.eqb_refl. simpl. lia.
  - apply not_elem_of_cons in Hc as [Hd Hc].
    cbn [app find_from startsWith].
    destruct (c =? d) eqn:He; [apply N.eqb_eq in He; congruence|].
    simpl. rewrite IH by done. lia.
Qed.

Lemma indexOf_unit c (a x y : jsstring) :
  c ∉ x ->
  indexOf [c] (a ++ x ++ c :: y) (Z.of_nat (length a))
  = Z.of_nat (length a + length x).
Proof.
  intros Hc. unfold indexOf.
  rewrite Z.max_l by lia.
  rewrite Z.min_l by (rewrite length_app; lia).
  rewrite Nat2Z.id, drop_app_length, find_from_unit by done. lia.
Qed.

End IndexFacts.

(** X16. The import step without its anchor: when the text holds
    neither the helper symbol with its module reference nor the import of
    [send.js], and [import ] occurs in it for the last time at the head of
    a line that ends in the text, the import of the helper is put on a
    line of its own right after that line. *)
Theorem X16_import_after_last_import (a l rest : jsstring) :
  has_import_words (a ++ js "import " ++ l ++ nl ++ rest) = false ->
  test importAnchor (a ++ js "import " ++ l ++ nl ++ rest) = false ->
  includes (js "import ") (js "mport " ++ l ++ nl ++ rest) = false ->
  10 ∉ l ->
  addImport (a ++ js "import " ++ l ++ nl ++ rest)
  = Ok (a ++ js "import " ++ l ++ nl ++ MEDIA_IMPORT ++ nl ++ rest).
Proof.
  intros Hw Ha Hlast Hl. unfold addImport. rewrite Hw, Ha.
  set (n := (length a + length (js "import " ++ l))%nat).
  assert (lastIndexOf (js "import ") (a ++ js "import " ++ l ++ nl ++ rest)
          = Z.of_nat (length a)) as ->.
  { unfold lastIndexOf. by rewrite find_last_at. }
  assert (indexOf nl (a ++ js "import " ++ l ++ nl ++ rest)
            (Z.of_nat (length a)) = Z.of_nat n) as ->.
  { assert (10 ∉ js "import " ++ l) as Hl'.
    { intros [Hin|Hin]%elem_of_app; [|done].
      apply list_elem_of_In in Hin. vm_compute in Hin.
      repeat (destruct Hin as [Hin|Hin]; [discriminate Hin|]). exact Hin. }
    unfold n. rewrite <- (indexOf_unit 10 a _ rest Hl'). unfold nl.
    by rewrite <- !(assoc_L (++)). }
  destruct (_ =? -1)%Z eqn:Hm; [apply Z.eqb_eq in Hm; lia|]. cbn [negb].
  f_equal.
  assert (a ++ js "import " ++ l ++ nl ++ rest
          = (a ++ (js "import " ++ l) ++ nl) ++ rest) as Heq.
  { by rewrite <- !(assoc_L (++)). }
  assert (length (a ++ (js "import " ++ l) ++ nl) = S n) as Hlen.
  { rewrite !length_app. subst n. rewrite length_app. simpl. lia. }
  rewrite slice_prefix, slice_suffix;
    try (rewrite Heq, length_app, Hlen; lia).
  replace (Z.to_nat (Z.of_nat n + 1)) with (S n) by lia.
  rewrite Heq, <- Hlen.
  rewrite take_app_length, drop_app_length.
  by rewrite <- !(assoc_L (++)).
Qed.

(** X16 on a text with two imports and no import of [send.js]. *)
Lemma X16_witness :
  addImport ((js "import b from 'b';" ++ nl) ++ js "import " ++
             js "a from 'a';" ++ nl ++ js "run(a, b);" ++ nl)
  = Ok ((js "import b from 'b';" ++ nl) ++ js "import " ++
        js "a from 'a';" ++ nl ++ MEDIA_IMPORT ++ nl ++
        js "run(a, b);" ++ nl).
Proof.
  apply (X16_import_after_last_import (js "import b from 'b';" ++ nl)
           (js "a from 'a';") (js "run(a, b);" ++ nl)).
  - vm_compute. reflexivity.
  - vm_compute. reflexivity.
  - vm_compute. reflexivity.
  - intros Hin. apply list_elem_of_In in Hin. vm_compute in Hin.
    repeat (destruct Hin as [Hin|Hin]; [discriminate Hin|]). exact Hin.
Defined.

(** ** Where the fragments go *)

Section PlaceFacts.

(** [exec] finds the leftmost match: no word of the expression starts
    before the match it returns. *)
Lemma exec_leftmost r : forall s pre m post,
  exec r s = Some (pre, m, post) ->
  forall a w b, s = a ++ w ++ b -> matches r w b ->
    (length pre <= length a)%nat.
Proof.
  induction s as [|c s IH]; intros pre m post He a w b Hs Hm.
  - cbn [exec] in He. destruct (bt r [] Some); [|done].
    injection He as <- _ _. simpl. lia.
  - cbn [exec] in He. destruct (bt r (c :: s) Some) as [rest|] eqn:Hbt.
    + injection He as <- _ _. simpl. lia.
    + destruct a as [|c' a].
      * simpl in Hs.
        destruct (bt_complete r w b Hm _ Some ltac:(by eexists)) as [x Hx].
        rewrite <- Hs in Hx. congruence.
      * simpl in Hs. injection Hs as -> Hs.
        destruct (exec r s) as [[[pre' m'] post']|] eqn:He'; [|done].
        injection He as <- _ _. simpl.
        specialize (IH _ _ _ eq_refl a w b Hs Hm). lia.
Qed.

(** What [replace] does when the expression matches. *)
Lemma replace_leftmost r f s :
  test r s = true ->
  exists x m y, s = x ++ m ++ y /\ matches r m y /\
    (forall a w b, s = a ++ w ++ b -> matches r w b ->
       (length x <= length a)%nat) /\
    replace r f s = x ++ f m ++ y.
Proof.
  unfold test, replace.
  destruct (exec r s) as [[[x m] y]|] eqn:He; [|done]. intros _.
  exists x, m, y.
  destruct (exec_sound r s x m y He) as [Hs Hm].
  split; [done|]. split; [done|]. split; [|done].
  by apply (exec_leftmost r s x m y).
Qed.

Lemma matches_import_words w b :
  matches MEDIA_IMPORT_PATTERN w b ->
  has_import_words w = true.
Proof.
  intros Hm. unfold has_import_words. apply andb_true_iff. split.
  - destruct (matches_strip 4 _ _ _ Hm) as (w1 & w2 & -> & H2).
    unfold MEDIA_IMPORT_PATTERN in H2. cbn [seq strip] in H2.
    apply matches_Cat_inv in H2 as (u & v & -> & Hu & _).
    apply matches_lit_units in Hu as ->.
    apply includes_iff. by exists w1, v.
  - destruct (matches_strip 11 _ _ _ Hm) as (w1 & w2 & -> & H2).
    unfold MEDIA_IMPORT_PATTERN in H2. cbn [seq strip] in H2.
    apply matches_Cat_inv in H2 as (u & v & -> & Hu & _).
    apply matches_lit_units in Hu as ->.
    apply includes_iff. by exists w1, v.
Qed.

End PlaceFacts.

(** X17. The logic step puts its block right after the opening brace
    of the first handler head: when the text does not hold the logic
    marker and the step returns, the text is cut at the leftmost match of
    the pattern of the handler head, which ends with [{], and the result
    is the text before the match, the match, the block, and the text after
    the match. *)
Theorem X17_logic_after_first_handler c c2 :
  includes (js "payload.mediaUrls?.length") c = false ->
  addMediaLogic c = Ok c2 ->
  exists x m y,
    c = x ++ m ++ y /\ matches fullPattern m y /\ last m = Some 123 /\
    (forall a w b, c = a ++ w ++ b -> matches fullPattern w b ->
       (length x <= length a)%nat) /\
    c2 = x ++ m ++ MEDIA_LOGIC ++ y.
Proof.
  intros Hn. unfold addMediaLogic. rewrite Hn.
  destruct (test deliverAnchor c); [|done].
  destruct (test fullPattern c) eqn:Ht; [|done]. intros [= <-].
  destruct (replace_leftmost fullPattern (fun m => m ++ MEDIA_LOGIC) c Ht)
    as (x & m & y & Hc & Hm & Hleft & ->).
  exists x, m, y. split; [done|]. split; [done|]. split.
  - destruct (fullPattern_tail m y Hm) as (h & wsl & -> & _).
    by rewrite !(assoc_L (++)), last_snoc.
  - split; [done|]. by rewrite <- (assoc_L (++)).
Qed.

(** X17 on the dispatcher after the import step. *)
Lemma X17_witness :
  exists x m y,
    with_import = x ++ m ++ y /\ matches fullPattern m y /\
    last m = Some 123 /\
    (forall a w b, with_import = a ++ w ++ b -> matches fullPattern w b ->
       (length x <= length a)%nat) /\
    patched = x ++ m ++ MEDIA_LOGIC ++ y.
Proof.
  apply (X17_logic_after_first_handler with_import patched);
    vm_compute; reflexivity.
Defined.

(** X18. The import step with its anchor puts the import of the helper
    on a new line right after the closing quote of the first import of
    [send.js], in front of whatever follows the quote on that line, the
    semicolon of the statement included: when the text does not hold the
    helper symbol with its module reference and the anchor matches, the
    text is cut at the leftmost match of the anchor, which ends with a
    quote, and the result is the text before the match, the match, a line
    end, the import, and the text after the match. *)
Theorem X18_import_after_anchor c :
  has_import_words c = false -> test importAnchor c = true ->
  exists x m y,
    c = x ++ m ++ y /\ matches importAnchor m y /\
    (last m = Some 39 \/ last m = Some 34) /\
    (forall a w b, c = a ++ w ++ b -> matches importAnchor w b ->
       (length x <= length a)%nat) /\
    addImport c = Ok (x ++ m ++ nl ++ MEDIA_IMPORT ++ y).
Proof.
  intros Hw Ht. unfold addImport. rewrite Hw, Ht.
  destruct (replace_leftmost importAnchor
              (fun m => m ++ nl ++ MEDIA_IMPORT) c Ht)
    as (x & m & y & Hc & Hm & Hleft & ->).
  exists x, m, y. split; [done|]. split; [done|]. split.
  - destruct (final_class_sound importAnchor _ m y eq_refl Hm)
      as (w' & q & -> & Hq).
    rewrite last_snoc. apply orb_true_iff in Hq as [->%N.eqb_eq| ->%N.eqb_eq];
      [by left|by right].
  - split; [done|]. by rewrite <- !(assoc_L (++)).
Qed.

(** X18 on the dispatcher as the host ships it. *)
Lemma X18_witness :
  exists x m y,
    unpatched = x ++ m ++ y /\ matches importAnchor m y /\
    (last m = Some 39 \/ last m = Some 34) /\
    (forall a w b, unpatched = a ++ w ++ b -> matches importAnchor w b ->
       (length x <= length a)%nat) /\
    addImport unpatched = Ok (x ++ m ++ nl ++ MEDIA_IMPORT ++ y).
Proof.
  apply (X18_import_after_anchor unpatched); vm_compute; reflexivity.
Defined.

(** X19. What the detector finds, the patcher leaves alone.  A text
    that matches the import marker of the detector holds the helper symbol
    and its module reference, so the import step returns it as it is; a
    text that matches the logic marker comes back from the logic step as
    it is; and when both markers match, [patch], if it returns, returns
    the text unchanged. *)
Theorem X19_found_fragments_are_kept c :
  (test MEDIA_IMPORT_PATTERN c = true -> addImport c = Ok c) /\
  (test MEDIA_LOGIC_PATTERN c = true -> addMediaLogic c = Ok c) /\
  (test MEDIA_IMPORT_PATTERN c = true ->
   test MEDIA_LOGIC_PATTERN c = true ->
   forall c', patch c = Ok c' -> c' = c).
Proof.
  assert (test MEDIA_IMPORT_PATTERN c = true -> addImport c = Ok c) as H1.
  { intros (a & w & b & -> & Hm)%test_iff.
    pose proof (matches_import_words w b Hm) as Hw.
    unfold has_import_words in Hw. apply andb_true_iff in Hw as [Hw1 Hw2].
    unfold addImport, has_import_words.
    by rewrite (includes_mono _ a w b Hw1), (includes_mono _ a w b Hw2). }
  assert (test MEDIA_LOGIC_PATTERN c = true -> addMediaLogic c = Ok c) as H2.
  { unfold MEDIA_LOGIC_PATTERN. rewrite <- includes_test. intros Hi.
    unfold addMediaLogic. by rewrite Hi. }
  split; [done|]. split; [done|].
  intros Hi Hl c' Hp. apply patch_Ok in Hp as (c1 & Ha & Hb & _).
  rewrite (H1 Hi) in Ha. injection Ha as <-.
  rewrite (H2 Hl) in Hb. by injection Hb as <-.
Qed.

(** X20. Each insertion step sets up the marker that the detector looks
    for.  After the import step has inserted its line, the text holds the
    line and matches the import marker; after the logic step has inserted
    its block, the text holds the block and matches the logic marker and
    the call marker. *)
Theorem X20_steps_establish_markers c c' :
  (has_import_words c = false -> addImport c = Ok c' ->
   includes MEDIA_IMPORT c' = true /\
   test MEDIA_IMPORT_PATTERN c' = true) /\
  (includes (js "payload.mediaUrls?.length") c = false ->
   addMediaLogic c = Ok c' ->
   includes MEDIA_LOGIC c' = true /\
   test MEDIA_LOGIC_PATTERN c' = true /\
   test SEND_MEDIA_CALL_PATTERN c' = true).
Proof.
  split.
  - intros Hw Hi.
    assert (exists a b, c' = a ++ MEDIA_IMPORT ++ b) as (a & b & ->).
    { apply addImport_Ok in Hi
        as [[Hw' _]|[(_ & x & q & y & _ & _ & ->)|(_ & x & y & _ & ->)]];
        [congruence|..]; unfold nl.
      - exists ((x ++ [q]) ++ [10]), y. by rewrite <- !(assoc_L (++)).
      - exists (x ++ [10]), ([10] ++ y). by rewrite <- !(assoc_L (++)). }
    split; [apply includes_iff; by exists a, b|].
    apply test_mono; [done|]. vm_compute; reflexivity.
  - intros Hn Ha.
    apply addMediaLogic_Ok in Ha
      as [[Hl' _]|(_ & _ & x & m & y & _ & _ & ->)]; [congruence|].
    replace (x ++ (m ++ MEDIA_LOGIC) ++ y)
      with ((x ++ m) ++ MEDIA_LOGIC ++ y)
      by (by rewrite <- !(assoc_L (++))).
    split; [apply includes_iff; by exists (x ++ m), y|].
    split; (apply test_mono; [done|]; vm_compute; reflexivity).
Qed.

(** ** The runs of the patcher *)

Section ApplyFacts.
Context `{Node}.

Lemma restore_frame s bp p :
  dirs (snd (restore s bp p)) = dirs s /\
  rdeny (snd (restore s bp p)) = rdeny s /\
  wdeny (snd (restore s bp p)) = wdeny s /\
  forall q, q <> p -> files (snd (restore s bp p)) !! q = files s !! q.
Proof.
  unfold restore. destruct (existsSync s bp); simpl; [|done].
  destruct (copyFileSync s bp p) as [s1|e] eqn:Hc; simpl; [|done].
  apply copyFileSync_effect in Hc as (c & _ & _ & _ & ->). simpl.
  repeat split. intros q Hq. by rewrite lookup_insert_ne.
Qed.

Lemma create_frame backupDir now s p r s' :
  create backupDir now s p = (r, s') ->
  dirs s' = dirs s /\ rdeny s' = rdeny s /\ wdeny s' = wdeny s /\
  forall q, q <> join [backupDir; backupFileName now p] ->
    files s' !! q = files s !! q.
Proof.
  unfold create. destruct (existsSync s p); simpl;
    [|by intros [= <- <-]].
  destruct (copyFileSync s p _) as [s1|e] eqn:Hc; [|by intros [= <- <-]].
  intros [= <- <-].
  apply copyFileSync_effect in Hc as (c & _ & _ & _ & ->). simpl.
  repeat split. intros q Hq. by rewrite lookup_insert_ne.
Qed.

Lemma rollback_frame s1 t bpo e :
  backupPath (fst (rollback s1 t bpo e)) = bpo /\
  success (fst (rollback s1 t bpo e)) = false /\
  dirs (snd (rollback s1 t bpo e)) = dirs s1 /\
  rdeny (snd (rollback s1 t bpo e)) = rdeny s1 /\
  wdeny (snd (rollback s1 t bpo e)) = wdeny s1 /\
  forall q, q <> t -> files (snd (rollback s1 t bpo e)) !! q = files s1 !! q.
Proof.
  unfold rollback. simpl. split; [done|]. split; [done|].
  destruct (truthy_opt bpo); [|done]. apply restore_frame.
Qed.

(** The effect of a run of [apply] on the paths other than the target
    file, and the backup path it reports. *)
Lemma apply_frame backupDir now s r noBackup res s' :
  apply backupDir now s r noBackup = (res, s') ->
  dirs s' = dirs s /\ rdeny s' = rdeny s /\ wdeny s' = wdeny s /\
  (forall q, Some q <> targetFile r ->
     noBackup = true \/
     q <> join [backupDir;
                backupFileName now (default [] (targetFile r))] ->
     files s' !! q = files s !! q) /\
  (forall bp, backupPath res = Some bp ->
     noBackup = false /\
     bp = join [backupDir; backupFileName now (default [] (targetFile r))]).
Proof.
  unfold apply.
  destruct (truthy_opt (targetFile r)) eqn:Ht; simpl;
    [|by intros [= <- <-]].
  destruct (hasProblem r); simpl; [|by intros [= <- <-]].
  destruct (targetFile r) as [t|] eqn:Htf; [|done]. simpl.
  destruct (existsSync s t); simpl; [|by intros [= <- <-]].
  destruct (readFileSync s t) as [c|e]; [|by intros [= <- <-]].
  assert (forall bpo s1 res s',
            (match patch c with
             | Err e => rollback s1 t bpo e
             | Ok content' =>
               match writeFileSync s1 t content' with
               | Err e => rollback s1 t bpo e
               | Ok s2 =>
                 ({| success := true;
                     fix_message := js "修复补丁应用成功";
                     backupPath := bpo;
                     error := None;
                     errors := None |}, s2)
               end
             end) = (res, s') ->
            backupPath res = bpo /\ dirs s' = dirs s1 /\
            rdeny s' = rdeny s1 /\ wdeny s' = wdeny s1 /\
            forall q, q <> t -> files s' !! q = files s1 !! q) as Hrun.
  { intros bpo s1 res0 s0 Hr.
    destruct (patch c) as [c'|e].
    - destruct (writeFileSync s1 t c') as [s2|e] eqn:Hw.
      + injection Hr as <- <-.
        apply writeFileSync_effect in Hw as [-> _]. simpl.
        repeat split. intros q Hq. by rewrite lookup_insert_ne.
      + destruct (rollback_frame s1 t bpo e) as (? & _ & ? & ? & ? & ?).
        rewrite Hr in *. done.
    - destruct (rollback_frame s1 t bpo e) as (? & _ & ? & ? & ? & ?).
      rewrite Hr in *. done. }
  destruct noBackup; simpl.
  - intros (Hbp & Hd & Hrd & Hwd & Hfr)%Hrun.
    repeat split; try done.
    + intros q Hq _. apply Hfr. congruence.
    + congruence.
    + congruence.
  - destruct (create backupDir now s t) as [[bp|e] s1] eqn:Hc;
      [|by intros [= <- <-]].
    pose proof Hc as (Hd1 & Hrd1 & Hwd1 & Hfr1)%create_frame.
    apply create_Ok in Hc as [-> _].
    intros (Hbp & Hd & Hrd & Hwd & Hfr)%Hrun.
    repeat split; try congruence.
    intros q Hq [Hn|Hn]; [done|].
    rewrite Hfr by congruence. by apply Hfr1.
Qed.

(** A run of [apply] that makes its backup and succeeds: the state it
    leaves. *)
Lemma apply_success_backup backupDir now s r t res s' :
  targetFile r = Some t ->
  apply backupDir now s r false = (res, s') -> success res = true ->
  exists c0 c',
    readFileSync s t = Ok c0 /\ patch c0 = Ok c' /\ wdeny s t = None /\
    backupPath res = Some (join [backupDir; backupFileName now t]) /\
    s' = with_files
           (<[t := c']>
              (<[join [backupDir; backupFileName now t] := c0]> (files s)))
           s.
Proof.
  intros Ht. unfold apply. rewrite Ht. simpl.
  destruct (truthy t); simpl; [|by intros [= <- <-]].
  destruct (hasProblem r); simpl; [|by intros [= <- <-]].
  destruct (existsSync s t); simpl; [|by intros [= <- <-]].
  destruct (readFileSync s t) as [c0|e] eqn:Hr; [|by intros [= <- <-]].
  destruct (create backupDir now s t) as [[bp|e] s1] eqn:Hc;
    [|by intros [= <- <-]].
  apply readFileSync_Ok in Hr as [Hf Hrd].
  apply create_Ok in Hc as [-> Hcp].
  apply copyFileSync_effect in Hcp as (c & Hf' & _ & _ & ->).
  assert (c = c0) as -> by congruence.
  destruct (patch c0) as [c'|e] eqn:Hp.
  - destruct (writeFileSync _ t c') as [s2|e] eqn:Hw.
    + intros [= <- <-] _.
      apply writeFileSync_effect in Hw as [-> Hwd]. simpl in Hwd.
      by exists c0, c'.
    + intros Ha Hs. apply (f_equal fst) in Ha.
      rewrite rollback_result in Ha. simpl in Ha. by subst res.
  - intros Ha Hs. apply (f_equal fst) in Ha.
    rewrite rollback_result in Ha. simpl in Ha. by subst res.
Qed.

End ApplyFacts.

(** X21. A run of [apply] changes no path but the target file and,
    when a backup is asked for, the backup path: every other path keeps
    its file, and the directories stay as they are.  The backup path of
    the outcome, when there is one, is the backup directory joined with
    the name of the target file and the time stamp, and there is none when
    the backup is skipped. *)
Theorem X21_apply_touches_two_paths `{Node} backupDir now s r noBackup res s' :
  apply backupDir now s r noBackup = (res, s') ->
  dirs s' = dirs s /\
  (forall q, Some q <> targetFile r ->
     noBackup = true \/
     q <> join [backupDir;
                backupFileName now (default [] (targetFile r))] ->
     files s' !! q = files s !! q) /\
  (forall bp, backupPath res = Some bp ->
     noBackup = false /\
     bp = join [backupDir; backupFileName now (default [] (targetFile r))]).
Proof. intros (? & _ & _ & ? & ?)%apply_frame. done. Qed.

(** X21 on the installation of the examples. *)
Lemma X21_witness :
  let run := @apply node backups now (disk unpatched allow allow)
               (@check node (disk unpatched allow allow)) false in
  dirs (snd run) = dirs (disk unpatched allow allow) /\
  (forall q,
     Some q <> targetFile (@check node (disk unpatched allow allow)) ->
     false = true \/
     q <> @join node
            [backups;
             @backupFileName node now
               (default []
                  (targetFile (@check node (disk unpatched allow allow))))] ->
     files (snd run) !! q = files (disk unpatched allow allow) !! q) /\
  (forall bp, backupPath (fst run) = Some bp ->
     false = false /\
     bp = @join node
            [backups;
             @backupFileName node now
               (default []
                  (targetFile (@check node (disk unpatched allow allow))))]).
Proof.
  intros run.
  apply (@X21_apply_touches_two_paths node backups now
           (disk unpatched allow allow)
           (@check node (disk unpatched allow allow)) false
           (fst run) (snd run)).
  apply surjective_pairing.
Defined.

(** X22. [restore] undoes a successful [apply].  When [apply] makes
    its backup and succeeds, the outcome names the backup; if the backup
    path is not the target path itself, the backup holds the text that the
    target file had before, and where the backup can be read,
    [restore] of it succeeds and gives the target file that text back. *)
Theorem X22_restore_undoes_apply `{Node} backupDir now s r t res s' :
  targetFile r = Some t ->
  apply backupDir now s r false = (res, s') -> success res = true ->
  exists bp c0,
    backupPath res = Some bp /\ readFileSync s t = Ok c0 /\
    (bp <> t ->
     files s' !! bp = Some c0 /\
     (rdeny s bp = None ->
      exists s'', restore s' bp t = (Ok tt, s'') /\
        files s'' !! t = Some c0)).
Proof.
  intros Ht Ha Hs.
  destruct (apply_success_backup _ _ _ _ _ _ _ Ht Ha Hs)
    as (c0 & c' & Hr & _ & Hwd & Hbp & ->).
  set (bp := join [backupDir; backupFileName now t]) in *.
  exists bp, c0. split; [done|]. split; [done|]. intros Hne. simpl.
  rewrite lookup_insert_ne, lookup_insert_eq by done. split; [done|].
  intros Hrb. eexists. split.
  - unfold restore, existsSync, copyFileSync, contents, writeFileSync.
    simpl. rewrite lookup_insert_ne, lookup_insert_eq by done. simpl.
    by rewrite Hrb, Hwd.
  - simpl. apply lookup_insert_eq.
Qed.

(** X22 on the installation of the examples. *)
Lemma X22_witness :
  let run := @apply node backups now (disk unpatched allow allow)
               (@check node (disk unpatched allow allow)) false in
  exists bp c0,
    backupPath (fst run) = Some bp /\
    readFileSync (disk unpatched allow allow) target = Ok c0 /\
    (bp <> target ->
     files (snd run) !! bp = Some c0 /\
     (rdeny (disk unpatched allow allow) bp = None ->
      exists s'', restore (snd run) bp target = (Ok tt, s'') /\
        files s'' !! target = Some c0)).
Proof.
  intros run.
  apply (@X22_restore_undoes_apply node backups now
           (disk unpatched allow allow)
           (@check node (disk unpatched allow allow)) target
           (fst run) (snd run)).
  - vm_compute. reflexivity.
  - apply surjective_pairing.
  - vm_compute. reflexivity.
Defined.

Section OutcomeFacts.
Context `{Node}.

Lemma failure_shape c msg detail e bp :
  c = FixerError.FILE_NOT_FOUND \/ c = FixerError.ALREADY_FIXED \/
  c = FixerError.PERMISSION_DENIED \/ c = FixerError.PATCH_FAILED ->
  (c <> FixerError.ALREADY_FIXED -> detail = msg) ->
  (c = FixerError.FILE_NOT_FOUND \/ c = FixerError.ALREADY_FIXED ->
   e = None /\ bp = None) ->
  success (failure c msg detail e bp) = false /\
  exists c' m,
    errors (failure c msg detail e bp) = Some [ErrorInfo c' m] /\
    (c' = FixerError.FILE_NOT_FOUND \/ c' = FixerError.ALREADY_FIXED \/
     c' = FixerError.PERMISSION_DENIED \/ c' = FixerError.PATCH_FAILED) /\
    (c' <> FixerError.ALREADY_FIXED ->
     m = fix_message (failure c msg detail e bp)) /\
    (c' = FixerError.FILE_NOT_FOUND \/ c' = FixerError.ALREADY_FIXED ->
     error (failure c msg detail e bp) = None /\
     backupPath (failure c msg detail e bp) = None).
Proof. intros Hc Hm Hn. split; [done|]. by exists c, detail. Qed.

Lemma apply_shape backupDir now s r noBackup res s' :
  apply backupDir now s r noBackup = (res, s') ->
  (success res = true /\ errors res = None /\ error res = None /\
   fix_message res = js "修复补丁应用成功") \/
  (success res = false /\
   exists c m,
     errors res = Some [ErrorInfo c m] /\
     (c = FixerError.FILE_NOT_FOUND \/ c = FixerError.ALREADY_FIXED \/
      c = FixerError.PERMISSION_DENIED \/ c = FixerError.PATCH_FAILED) /\
     (c <> FixerError.ALREADY_FIXED -> m = fix_message res) /\
     (c = FixerError.FILE_NOT_FOUND \/ c = FixerError.ALREADY_FIXED ->
      error res = None /\ backupPath res = None)).
Proof.
  assert (forall s1 t bpo e,
            rollback s1 t bpo e = (res, s') ->
            (success res = true /\ errors res = None /\ error res = None /\
             fix_message res = js "修复补丁应用成功") \/
            (success res = false /\
             exists c m,
               errors res = Some [ErrorInfo c m] /\
               (c = FixerError.FILE_NOT_FOUND \/ c = FixerError.ALREADY_FIXED \/
                c = FixerError.PERMISSION_DENIED \/ c = FixerError.PATCH_FAILED) /\
               (c <> FixerError.ALREADY_FIXED -> m = fix_message res) /\
               (c = FixerError.FILE_NOT_FOUND \/ c = FixerError.ALREADY_FIXED ->
                error res = None /\ backupPath res = None))) as Hroll.
  { intros s1 t bpo e Hr. apply (f_equal fst) in Hr.
    rewrite rollback_result in Hr. simpl in Hr. subst res. right.
    apply failure_shape; [by right; right; right|done|by intros [|]]. }
  unfold apply.
  destruct (truthy_opt (targetFile r)); simpl.
  2:{ intros [= <- <-]. right. apply failure_shape; [by left|done|done]. }
  destruct (hasProblem r); simpl.
  2:{ intros [= <- <-]. right.
      apply failure_shape; [by right; left|done|done]. }
  destruct (existsSync s _); simpl.
  2:{ intros [= <- <-]. right. apply failure_shape; [by left|done|done]. }
  destruct (readFileSync s _) as [c|e].
  2:{ intros [= <- <-]. right.
      apply failure_shape; [by right; right; left|done|by intros [|]]. }
  assert (forall bpo s1,
            (match patch c with
             | Err e => rollback s1 (default [] (targetFile r)) bpo e
             | Ok content' =>
               match writeFileSync s1 (default [] (targetFile r)) content' with
               | Err e => rollback s1 (default [] (targetFile r)) bpo e
               | Ok s2 =>
                 ({| success := true;
                     fix_message := js "修复补丁应用成功";
                     backupPath := bpo;
                     error := None;
                     errors := None |}, s2)
               end
             end) = (res, s') ->
            (success res = true /\ errors res = None /\ error res = None /\
             fix_message res = js "修复补丁应用成功") \/
            (success res = false /\
             exists c m,
               errors res = Some [ErrorInfo c m] /\
               (c = FixerError.FILE_NOT_FOUND \/ c = FixerError.ALREADY_FIXED \/
                c = FixerError.PERMISSION_DENIED \/ c = FixerError.PATCH_FAILED) /\
               (c <> FixerError.ALREADY_FIXED -> m = fix_message res) /\
               (c = FixerError.FILE_NOT_FOUND \/ c = FixerError.ALREADY_FIXED ->
                error res = None /\ backupPath res = None))) as Hrun.
  { intros bpo s1 Hm.
    destruct (patch c) as [c'|e]; [|by eapply Hroll].
    destruct (writeFileSync s1 _ c') as [s2|e]; [|by eapply Hroll].
    injection Hm as <- <-. by left. }
  destruct noBackup; simpl.
  - apply Hrun.
  - destruct (create backupDir now s _) as [[bp|e] s1].
    + apply Hrun.
    + intros [= <- <-]. right.
      apply failure_shape; [by right; right; left|done|by intros [|]].
Qed.

End OutcomeFacts.

(** X23. The shape of an outcome of [apply].  A success carries no
    error and the message of success; a failure carries exactly one error
    entry, whose code is [FILE_NOT_FOUND], [ALREADY_FIXED],
    [PERMISSION_DENIED] or [PATCH_FAILED] and whose message is the message
    of the outcome, but for [ALREADY_FIXED]; with one of the first two
    codes the outcome names no exception and no backup. *)
Theorem X23_apply_outcome_shape `{Node} backupDir now s r noBackup :
  (success (fst (apply backupDir now s r noBackup)) = true /\
   errors (fst (apply backupDir now s r noBackup)) = None /\
   error (fst (apply backupDir now s r noBackup)) = None /\
   fix_message (fst (apply backupDir now s r noBackup))
   = js "修复补丁应用成功") \/
  (success (fst (apply backupDir now s r noBackup)) = false /\
   exists c m,
     errors (fst (apply backupDir now s r noBackup))
     = Some [ErrorInfo c m] /\
     (c = FixerError.FILE_NOT_FOUND \/ c = FixerError.ALREADY_FIXED \/
      c = FixerError.PERMISSION_DENIED \/ c = FixerError.PATCH_FAILED) /\
     (c <> FixerError.ALREADY_FIXED ->
      m = fix_message (fst (apply backupDir now s r noBackup))) /\
     (c = FixerError.FILE_NOT_FOUND \/ c = FixerError.ALREADY_FIXED ->
      error (fst (apply backupDir now s r noBackup)) = None /\
      backupPath (fst (apply backupDir now s r noBackup)) = None)).
Proof.
  destruct (apply backupDir now s r noBackup) as [res s'] eqn:Ha.
  simpl. by eapply apply_shape.
Qed.

(** ** The commands *)

Section CommandFacts.
Context `{Node}.

(** With its directory in place, the constructor of the backup manager
    leaves the file system as it is. *)
Lemma new_default s :
  existsSync s DEFAULT_BACKUP_DIR = true ->
  new None s = (DEFAULT_BACKUP_DIR, s).
Proof. intros He. unfold new, ensureBackupDir. by rewrite He. Qed.

(** A failed run of [apply] keeps every file that holds the text of the
    target file. *)
Lemma apply_failure_keeps_copy backupDir now s r noBackup t res s' q c :
  targetFile r = Some t ->
  apply backupDir now s r noBackup = (res, s') -> success res = false ->
  files s !! t = Some c -> files s !! q = Some c ->
  files s' !! q = Some c.
Proof.
  intros Ht Ha Hs Hft Hfq. revert Ha. unfold apply. rewrite Ht. simpl.
  destruct (truthy t); simpl; [|by intros [= <- <-]].
  destruct (hasProblem r); simpl; [|by intros [= <- <-]].
  destruct (existsSync s t); simpl; [|by intros [= <- <-]].
  destruct (readFileSync s t) as [c0|e]; [|by intros [= <- <-]].
  assert (forall bpo s1,
            files s1 !! t = Some c -> files s1 !! q = Some c ->
            (forall bp, bpo = Some bp -> files s1 !! bp = Some c) ->
            (match patch c0 with
             | Err e => rollback s1 t bpo e
             | Ok content' =>
               match writeFileSync s1 t content' with
               | Err e => rollback s1 t bpo e
               | Ok s2 =>
                 ({| success := true;
                     fix_message := js "修复补丁应用成功";
                     backupPath := bpo;
                     error := None;
                     errors := None |}, s2)
               end
             end) = (res, s') ->
            files s' !! q = Some c) as Hrun.
  { intros bpo s1 Hft1 Hfq1 Hbp Hr.
    assert (forall e, rollback s1 t bpo e = (res, s') ->
              files s' !! q = Some c) as Hroll.
    { intros e He. apply (f_equal snd) in He. cbn [snd] in He. subst s'.
      destruct (decide (q = t)) as [->|Hne].
      - by apply rollback_keeps.
      - destruct (rollback_frame s1 t bpo e) as (_ & _ & _ & _ & _ & Hfr).
        by rewrite Hfr. }
    destruct (patch c0) as [c'|e]; [|by eapply Hroll].
    destruct (writeFileSync s1 t c') as [s2|e]; [|by eapply Hroll].
    injection Hr as <- <-. done. }
  destruct noBackup; simpl.
  - apply Hrun; [done|done|]. intros bp [=].
  - destruct (create backupDir now s t) as [[bp|e] s1] eqn:Hc;
      [|by intros [= <- <-]].
    destruct (create_keeps _ _ _ _ _ _ _ Hc Hft) as [Hft1 Hbp1].
    apply Hrun; [done| |by intros bp' [= <-]].
    destruct (decide (q = bp)) as [->|Hne]; [done|].
    pose proof Hc as (_ & _ & _ & Hfr)%create_frame.
    apply create_Ok in Hc as [-> _]. by rewrite Hfr.
Qed.

Lemma check_target s t :
  targetFile (check s) = Some t ->
  truthy t = true /\
  exists p, openclawPath (check s) = Some p /\ truthy p = true.
Proof.
  intros Ht.
  destruct (check_cases s)
    as [(_ & _ & _ & _ & Hn & _)
       |[(p & _ & _ & _ & _ & _ & _ & Hn & _)
        |[(p & t' & e & _ & Hp & _ & Htr & _ & _ & _ & _ & Ho & Ht' & _)
         |(p & t' & c & _ & Hp & _ & Htr & _ & Hc)]]];
    try congruence.
  - assert (t' = t) as -> by congruence. split; [done|]. by exists p.
  - destruct (classify_status (Some p) (getOpenClawVersion s (Some p)) t' c)
      as (Ho & Ht' & _).
    rewrite <- Hc in *.
    assert (t' = t) as -> by congruence. split; [done|]. by exists p.
Qed.

Lemma check_no_problem s :
  hasProblem (check s) = false ->
  exists t c, targetFile (check s) = Some t /\ readFileSync s t = Ok c.
Proof.
  intros Hh.
  destruct (check_cases s)
    as [(_ & Hh' & _)
       |[(p & _ & _ & _ & Hh' & _)
        |[(p & t & e & _ & _ & _ & _ & _ & _ & Hh' & _)
         |(p & t & c & _ & _ & _ & _ & Hr & Hc)]]];
    try congruence.
  destruct (classify_status (Some p) (getOpenClawVersion s (Some p)) t c)
    as (_ & Ht & _).
  rewrite <- Hc in *. by exists t, c.
Qed.

End CommandFacts.

(** X24. [runCheck] ends in one of three ways: with exit code 0 and
    the state line for a fixed installation, exactly when the status of
    detection is [fixed]; with exit code 1 and the line that asks for the
    fix, exactly when the status is [needs_fix]; or with exit code 1 and
    the line for a problem that cannot be fixed automatically.  The lines
    for a healthy and for an unknown state are never printed. *)
Theorem X24_runCheck_outcome `{Node} s :
  (runCheck s = (0%Z, js "  状态: 已修复") /\
   status (check s) = Some CheckStatus.FIXED) \/
  (runCheck s = (1%Z, js "  状态: 需要修复") /\
   status (check s) = Some CheckStatus.NEEDS_FIX) \/
  (runCheck s = (1%Z, js "  状态: 无法自动修复") /\
   hasProblem (check s) = true /\ needsFix (check s) = Some false /\
   status (check s) <> Some CheckStatus.FIXED /\
   status (check s) <> Some CheckStatus.NEEDS_FIX).
Proof.
  unfold runCheck.
  destruct (check_cases s)
    as [(Hs & Hh & Hn & _)
       |[(p & _ & _ & Hs & Hh & Hn & _)
        |[(p & t & e & _ & _ & _ & _ & _ & Hs & Hh & Hn & _)
         |(p & t & c & _ & _ & _ & _ & _ & Hc)]]].
  1-3: right; right; rewrite Hh, Hn, Hs; done.
  rewrite Hc.
  destruct (classify_status (Some p) (getOpenClawVersion s (Some p)) t c)
    as (_ & _ & [(Hh & Hs & Hn)|(Hh & Hs & Hn)]); rewrite Hh, ?Hs, ?Hn.
  - by left.
  - right; left. done.
Qed.

(** X25. The option [force] cannot repeat a fix.  On an installation
    that detection finds fixed, [runFix] with [force] ends with exit
    code 1, whether a backup is asked for or not, and the target file
    keeps its text. *)
Theorem X25_force_on_fixed `{Node} noBackup t1 t2 s t :
  existsSync s DEFAULT_BACKUP_DIR = true ->
  hasProblem (check s) = false -> targetFile (check s) = Some t ->
  fst (runFix noBackup true t1 t2 s) = 1%Z /\
  files (snd (runFix noBackup true t1 t2 s)) !! t = files s !! t.
Proof.
  intros Hd Hh Ht. unfold runFix. rewrite (new_default s Hd).
  destruct (check_target s t Ht) as (Htr & p & Hp & Hptr).
  destruct (check_no_problem s Hh) as (t' & c & Ht' & Hr).
  assert (t' = t) as -> by congruence.
  apply readFileSync_Ok in Hr as [Hf _].
  rewrite Hp, Ht, Hh. simpl. rewrite Hptr, Htr. simpl.
  assert (forall bd now s1 nb,
            apply bd now s1 (check s) nb =
            (failure FixerError.ALREADY_FIXED (js "已经修复过了，无需重复修复")
               (js "已经修复过了") None None, s1)) as Hap.
  { intros. unfold apply. rewrite Ht, Hh. simpl. by rewrite Htr. }
  destruct noBackup; simpl.
  - rewrite Hap. simpl. done.
  - destruct (create DEFAULT_BACKUP_DIR t1 s t) as [[bp|e] s1] eqn:Hc;
      [|done].
    rewrite Hap. simpl. split; [done|].
    destruct (create_keeps _ _ _ _ _ _ _ Hc Hf) as [Hft1 Hbp1].
    destruct (truthy bp); [|by rewrite Hft1].
    rewrite Hf. by apply restore_keeps.
Qed.

(** X25 on an installation that is fixed, with two copies in the backup
    directory. *)
Lemma X25_witness :
  fst (@runFix node false true now later (shelf patched allow allow)) = 1%Z /\
  files (snd (@runFix node false true now later (shelf patched allow allow)))
    !! target
  = files (shelf patched allow allow) !! target.
Proof.
  apply (@X25_force_on_fixed node false now later
           (shelf patched allow allow) target);
    vm_compute; reflexivity.
Defined.

(** X26. A run of [runFix] that does not end with exit code 0 leaves
    the target file with the text it had. *)
Theorem X26_failed_fix_keeps_target `{Node} noBackup force t1 t2 s code s' t :
  existsSync s DEFAULT_BACKUP_DIR = true ->
  runFix noBackup force t1 t2 s = (code, s') -> code <> 0%Z ->
  targetFile (check s) = Some t ->
  files s' !! t = files s !! t.
Proof.
  intros Hd Hrun Hcode Ht. revert Hrun. unfold runFix.
  rewrite (new_default s Hd).
  destruct (check_target s t Ht) as (Htr & p & Hp & Hptr).
  rewrite Hp, Ht. simpl. rewrite Hptr, Htr. simpl.
  destruct (negb (hasProblem (check s)) && negb force);
    [by intros [= <- <-]|].
  destruct noBackup; simpl.
  - destruct (apply DEFAULT_BACKUP_DIR t2 s (check s) true)
      as [res s2] eqn:Ha.
    destruct (success res) eqn:Hs; simpl; intros [= <- <-]; [done|].
    by eapply apply_failure_keeps.
  - destruct (create DEFAULT_BACKUP_DIR t1 s t) as [[bp|e] s1] eqn:Hc;
      [|by intros [= <- <-]].
    destruct (apply DEFAULT_BACKUP_DIR t2 s1 (check s) false)
      as [res s2] eqn:Ha.
    destruct (success res) eqn:Hs; simpl; intros [= <- <-]; [done|].
    pose proof Hc as [_ Hcp]%create_Ok.
    apply copyFileSync_effect in Hcp as (c & Hf & _).
    destruct (create_keeps _ _ _ _ _ _ _ Hc Hf) as [Hft1 Hbp1].
    rewrite Hf.
    pose proof (apply_failure_keeps_copy _ _ _ _ _ _ _ _ t c Ht Ha Hs
                  Hft1 Hft1) as Hft2.
    pose proof (apply_failure_keeps_copy _ _ _ _ _ _ _ _ bp c Ht Ha Hs
                  Hft1 Hbp1) as Hbp2.
    destruct (truthy bp); [|done]. by apply restore_keeps.
Qed.

(** X26 on the partial patch, which the patcher cannot verify: the run
    ends with exit code 1. *)
Lemma X26_witness :
  fst (@runFix node false false now later (disk partial_patch allow allow))
  = 1%Z /\
  files (snd (@runFix node false false now later
                (disk partial_patch allow allow))) !! target
  = files (disk partial_patch allow allow) !! target.
Proof.
  split; [vm_compute; reflexivity|].
  apply (@X26_failed_fix_keeps_target node false false now later
           (disk partial_patch allow allow)
           (fst (@runFix node false false now later
                   (disk partial_patch allow allow)))).
  - vm_compute. reflexivity.
  - apply surjective_pairing.
  - vm_compute. discriminate.
  - vm_compute. reflexivity.
Defined.

(** X27. A run of [runFix] ends with exit code 0 in two cases only:
    detection finds no problem and [force] is not set, and then nothing
    is changed; or detection finds a problem, and then the target file
    ends with a text that passes [verify]. *)
Theorem X27_fix_exit_zero `{Node} noBackup force t1 t2 s code s' :
  existsSync s DEFAULT_BACKUP_DIR = true ->
  runFix noBackup force t1 t2 s = (code, s') -> code = 0%Z ->
  (hasProblem (check s) = false /\ force = false /\ s' = s) \/
  (hasProblem (check s) = true /\
   exists t c, targetFile (check s) = Some t /\
     files s' !! t = Some c /\ verify c = true).
Proof.
  intros Hd Hrun ->. revert Hrun. unfold runFix. rewrite (new_default s Hd).
  destruct (truthy_opt (openclawPath (check s))); simpl; [|done].
  destruct (truthy_opt (targetFile (check s))); simpl; [|done].
  destruct (hasProblem (check s)) eqn:Hh; simpl.
  - assert (forall s1 nb res s2,
              apply DEFAULT_BACKUP_DIR t2 s1 (check s) nb = (res, s2) ->
              success res = true ->
              exists t c, targetFile (check s) = Some t /\
                files s2 !! t = Some c /\ verify c = true) as Hok.
    { intros s1 nb res s2 Ha Hs.
      destruct (apply_success _ _ _ _ _ _ _ Ha Hs)
        as (t & c0 & c & s1' & Ht & _ & _ & Hp & Hw).
      exists t, c. split; [done|]. split; [by eapply writeFileSync_Ok|].
      by apply patch_Ok in Hp as (c1 & _ & _ & Hv). }
    destruct noBackup; simpl.
    + destruct (apply DEFAULT_BACKUP_DIR t2 s (check s) true)
        as [res s2] eqn:Ha.
      destruct (success res) eqn:Hs; simpl; [|done].
      intros [= <-]. right. split; [done|]. by eapply Hok.
    + destruct (create DEFAULT_BACKUP_DIR t1 s _) as [[bp|e] s1]; [|done].
      destruct (apply DEFAULT_BACKUP_DIR t2 s1 (check s) false)
        as [res s2] eqn:Ha.
      destruct (success res) eqn:Hs; simpl; [|done].
      intros [= <-]. right. split; [done|]. by eapply Hok.
  - destruct force; simpl; [|intros [= <-]; by left].
    assert (forall bd now s1 nb,
              success (fst (apply bd now s1 (check s) nb)) = false) as Hap.
    { intros. unfold apply.
      destruct (truthy_opt (targetFile (check s))); [|done].
      by rewrite Hh. }
    destruct noBackup; simpl.
    + destruct (apply DEFAULT_BACKUP_DIR t2 s (check s) true)
        as [res s2] eqn:Ha.
      pose proof (Hap DEFAULT_BACKUP_DIR t2 s true) as Hs.
      rewrite Ha in Hs. simpl in Hs. by rewrite Hs.
    + destruct (create DEFAULT_BACKUP_DIR t1 s _) as [[bp|e] s1]; [|done].
      destruct (apply DEFAULT_BACKUP_DIR t2 s1 (check s) false)
        as [res s2] eqn:Ha.
      pose proof (Hap DEFAULT_BACKUP_DIR t2 s1 false) as Hs.
      rewrite Ha in Hs. simpl in Hs. by rewrite Hs.
Qed.

(** X27 on the installation of the examples, which has the problem. *)
Lemma X27_witness :
  fst (@runFix node false false now later (disk unpatched allow allow))
  = 0%Z /\
  hasProblem (@check node (disk unpatched allow allow)) = true /\
  ((hasProblem (@check node (disk unpatched allow allow)) = false /\
    false = false /\
    snd (@runFix node false false now later (disk unpatched allow allow))
    = disk unpatched allow allow) \/
   (hasProblem (@check node (disk unpatched allow allow)) = true /\
    exists t c,
      targetFile (@check node (disk unpatched allow allow)) = Some t /\
      files (snd (@runFix node false false now later
                    (disk unpatched allow allow))) !! t = Some c /\
      verify c = true)).
Proof.
  do 2 (split; [vm_compute; reflexivity|]).
  apply (@X27_fix_exit_zero node false false now later
           (disk unpatched allow allow)
           (fst (@runFix node false false now later
                   (disk unpatched allow allow)))
           (snd (@runFix node false false now later
                   (disk unpatched allow allow)))).
  - vm_compute. reflexivity.
  - apply surjective_pairing.
  - vm_compute. reflexivity.
Defined.

(** X28. A run of [runUndo] that does not end with exit code 0 changes
    nothing.  One that ends with exit code 0 has copied the first backup
    that [list] returns for the target file over the target file, whatever
    detection says about the target file: no other path is changed, but
    for the backup itself when its deletion is asked for; and the target
    file ends with the text of that backup, unless the backup is the
    target file itself and is deleted. *)
Theorem X28_undo_outcome `{Node} deleteBackup s code s' :
  existsSync s DEFAULT_BACKUP_DIR = true ->
  runUndo deleteBackup s = (code, s') ->
  (code <> 0%Z -> s' = s) /\
  (code = 0%Z ->
   exists t b c, targetFile (check s) = Some t /\
     getLatestBackup DEFAULT_BACKUP_DIR s t = Some b /\
     files s !! path b = Some c /\
     (forall q, q <> t -> deleteBackup = false \/ q <> path b ->
        files s' !! q = files s !! q) /\
     (deleteBackup = false \/ path b <> t -> files s' !! t = Some c)).
Proof.
  intros Hd. unfold runUndo. rewrite (new_default s Hd).
  destruct (truthy_opt (openclawPath (check s))); simpl;
    [|by intros [= <- <-]].
  destruct (targetFile (check s)) as [t|] eqn:Ht; simpl;
    [|by intros [= <- <-]].
  destruct (truthy t); simpl; [|by intros [= <- <-]].
  destruct (list DEFAULT_BACKUP_DIR s (Some t)) as [|b l] eqn:Hl; simpl;
    [by intros [= <- <-]|].
  destruct (restore s (path b) t) as [[[]|e] s1] eqn:Hr;
    [|by intros [= <- <-]].
  intros [= <- <-]. split; [done|]. intros _.
  unfold restore in Hr. destruct (existsSync s (path b)); simpl in Hr;
    [|done].
  destruct (copyFileSync s (path b) t) as [s1'|e] eqn:Hc; [|done].
  injection Hr as <-.
  apply copyFileSync_effect in Hc as (c & Hf & _ & _ & ->).
  exists t, b, c. split; [done|].
  split; [unfold getLatestBackup; by rewrite Hl|]. split; [done|].
  destruct deleteBackup.
  - destruct (delete _ (path b)) as [[[]|e] s2] eqn:Hdel; simpl.
    + apply delete_Ok in Hdel as (Hf2 & _). simpl in Hf2. split.
      * intros q Hq [Hn|Hn]; [done|].
        by rewrite Hf2, lookup_delete_ne, lookup_insert_ne.
      * intros [Hn|Hn]; [done|].
        by rewrite Hf2, lookup_delete_ne, lookup_insert_eq.
    + apply delete_Err in Hdel as (-> & _). simpl. split.
      * intros q Hq _. by rewrite lookup_insert_ne.
      * intros _. by rewrite lookup_insert_eq.
  - simpl. split.
    + intros q Hq _. by rewrite lookup_insert_ne.
    + intros _. by rewrite lookup_insert_eq.
Qed.

(** X28 on a patched installation whose backup directory holds two
    copies of the unpatched text and, made last and named by the year
    alone, a copy of the text patched by hand: the run ends with exit
    code 0, the backup taken is the newer of the first two, and the target
    file holds the unpatched text again. *)
Lemma X28_witness :
  fst (@runUndo node false (loft patched allow allow)) = 0%Z /\
  files (snd (@runUndo node false (loft patched allow allow))) !! target
  = Some unpatched /\
  path <$> @getLatestBackup node (@DEFAULT_BACKUP_DIR node)
             (loft patched allow allow) target
  = Some newer_path /\
  files (loft patched allow allow) !! by_year_path = Some hand_patched /\
  (fst (@runUndo node false (loft patched allow allow)) <> 0%Z ->
   snd (@runUndo node false (loft patched allow allow))
   = loft patched allow allow) /\
  (fst (@runUndo node false (loft patched allow allow)) = 0%Z ->
   exists t b c,
     targetFile (@check node (loft patched allow allow)) = Some t /\
     @getLatestBackup node (@DEFAULT_BACKUP_DIR node)
       (loft patched allow allow) t = Some b /\
     files (loft patched allow allow) !! path b = Some c /\
     (forall q, q <> t -> false = false \/ q <> path b ->
        files (snd (@runUndo node false (loft patched allow allow))) !! q
        = files (loft patched allow allow) !! q) /\
     (false = false \/ path b <> t ->
      files (snd (@runUndo node false (loft patched allow allow))) !! t
      = Some c)).
Proof.
  do 4 (split; [vm_compute; reflexivity|]).
  apply (@X28_undo_outcome node false (loft patched allow allow)
           (fst (@runUndo node false (loft patched allow allow)))
           (snd (@runUndo node false (loft patched allow allow)))).
  - vm_compute. reflexivity.
  - apply surjective_pairing.
Defined.

(** X29. A fix that succeeds leaves two backups.  [runFix] makes a
    backup of the target file before it calls [apply], and [apply] makes
    one of its own: when [runFix] ends with exit code 0 on an installation
    with a problem and the backup is not skipped, the backup path of
    either instant, if it is not the target path itself, holds the text
    that the target file had. *)
Theorem X29_fix_leaves_two_backups `{Node} force t1 t2 s code s' t c0 :
  existsSync s DEFAULT_BACKUP_DIR = true ->
  runFix false force t1 t2 s = (code, s') -> code = 0%Z ->
  hasProblem (check s) = true ->
  targetFile (check s) = Some t -> files s !! t = Some c0 ->
  (join [DEFAULT_BACKUP_DIR; backupFileName t1 t] <> t ->
   files s' !! join [DEFAULT_BACKUP_DIR; backupFileName t1 t] = Some c0) /\
  (join [DEFAULT_BACKUP_DIR; backupFileName t2 t] <> t ->
   files s' !! join [DEFAULT_BACKUP_DIR; backupFileName t2 t] = Some c0).
Proof.
  intros Hd Hrun -> Hh Ht Hf. revert Hrun. unfold runFix.
  rewrite (new_default s Hd).
  destruct (check_target s t Ht) as (Htr & p & Hp & Hptr).
  rewrite Hp, Ht, Hh. simpl. rewrite Hptr, Htr. simpl.
  destruct (create DEFAULT_BACKUP_DIR t1 s t) as [[bp|e] s1] eqn:Hc;
    [|done].
  destruct (apply DEFAULT_BACKUP_DIR t2 s1 (check s) false)
    as [res s2] eqn:Ha.
  destruct (success res) eqn:Hs; simpl; [|done]. intros [= <-].
  destruct (create_keeps _ _ _ _ _ _ _ Hc Hf) as [Hft1 Hbp1].
  apply create_Ok in Hc as [-> _].
  destruct (apply_success_backup _ _ _ _ _ _ _ Ht Ha Hs)
    as (c & c' & Hr & _ & _ & _ & ->).
  apply readFileSync_Ok in Hr as [Hr _].
  assert (c = c0) as -> by congruence. simpl. split; intros Hne.
  - rewrite lookup_insert_ne by done.
    destruct (decide (join [DEFAULT_BACKUP_DIR; backupFileName t2 t]
                      = join [DEFAULT_BACKUP_DIR; backupFileName t1 t]))
      as [->|Hd12].
    + by rewrite lookup_insert_eq.
    + by rewrite lookup_insert_ne.
  - by rewrite lookup_insert_ne, lookup_insert_eq.
Qed.

(** X29 on the installation of the examples: the run ends with exit
    code 0. *)
Lemma X29_witness :
  fst (@runFix node false false now later (disk unpatched allow allow))
  = 0%Z /\
  (@join node [@DEFAULT_BACKUP_DIR node; @backupFileName node now target]
     <> target ->
   files (snd (@runFix node false false now later
                 (disk unpatched allow allow)))
     !! @join node [@DEFAULT_BACKUP_DIR node;
                    @backupFileName node now target]
   = Some unpatched) /\
  (@join node [@DEFAULT_BACKUP_DIR node; @backupFileName node later target]
     <> target ->
   files (snd (@runFix node false false now later
                 (disk unpatched allow allow)))
     !! @join node [@DEFAULT_BACKUP_DIR node;
                    @backupFileName node later target]
   = Some unpatched).
Proof.
  split; [vm_compute; reflexivity|].
  apply (@X29_fix_leaves_two_backups node false now later
           (disk unpatched allow allow)
           (fst (@runFix node false false now later
                   (disk unpatched allow allow)))
           (snd (@runFix node false false now later
                   (disk unpatched allow allow)))
           target unpatched).
  - vm_compute. reflexivity.
  - apply surjective_pairing.
  - vm_compute. reflexivity.
  - vm_compute. reflexivity.
  - vm_compute. reflexivity.
  - vm_compute. reflexivity.
Defined.
